(** * install-helper-scripts: a shallow embedding and its verified properties

    The program installs the scripts of a repository's [bin] directory into a
    user directory and offers to extend the shell start-up file.  It is a
    sequential Python script whose state is the file system, the terminal and
    the process environment.  The embedding below follows the script function
    by function:

    - Python [str] values are [string]s whose characters are the code points
      below 256;
    - a [pathlib.Path] is the list of its components below the root (all paths
      of the program are absolute once [main] has resolved them);
    - the file system is a finite map from canonical paths to nodes, looked up
      through a path walk that follows symbolic links like the kernel does;
    - effects are threaded through a state-and-exception monad over a [world]
      made of the file system, the pending terminal input and the output
      written so far.

    Three things of the program lie outside the embedding; the statements
    below are about runs in which the command line parses, no operation is
    refused for lack of permission and the start-up file decodes:

    - [build_parser] and [parser.parse_args()]: [main] below starts from the
      parsed command line.  On a malformed command line [argparse] ends the
      process with status 2, and after [--help] with status 0, before any
      other line of [main] runs;
    - permissions: the file operations fail as the path walk fails (a missing
      entry, a file where a directory is needed, a directory where a file is
      needed, too many links), never with [PermissionError];
    - decoding: a file holds its text, so [read_text] has no
      [UnicodeDecodeError]. *)

From Stdlib Require Import ZArith Ascii String List Lia Sorting.Sorted Permutation.
From stdpp Require Import base option list gmap strings pretty.

Local Open Scope Z_scope.

(* ===================================================================== *)
(** * Python strings *)
(* ===================================================================== *)

Definition chr (n : N) : ascii := ascii_of_N n.
Definition ord (c : ascii) : N := N_of_ascii c.

Definition LF : ascii := chr 10.
Definition CR : ascii := chr 13.
Definition NL : string := String LF EmptyString.

(** [range_in lo hi c]: the code point of [c] lies in the closed range. *)
Definition range_in (lo hi : ascii) (c : ascii) : bool :=
  (ord lo <=? ord c)%N && (ord c <=? ord hi)%N.

(** [str.isspace] on the code points below 256. *)
Definition isspace (c : ascii) : bool :=
  let n := ord c in
  ((9 <=? n)%N && (n <=? 13)%N) || ((28 <=? n)%N && (n <=? 32)%N)
  || (n =? 133)%N || (n =? 160)%N.

(** The line boundaries of [str.splitlines] below 256; CR LF counts as one. *)
Definition is_linebreak (c : ascii) : bool :=
  let n := ord c in
  ((10 <=? n)%N && (n <=? 13)%N) || ((28 <=? n)%N && (n <=? 30)%N)
  || (n =? 133)%N.

(** [str.lower] on the code points below 256: A-Z, and the Latin-1 capitals
    except the multiplication sign. *)
Definition lower_char (c : ascii) : ascii :=
  let n := ord c in
  if ((65 <=? n)%N && (n <=? 90)%N)
     || ((192 <=? n)%N && (n <=? 222)%N && negb (n =? 215)%N)
  then chr (n + 32) else c.

Fixpoint lower (s : string) : string :=
  match s with
  | EmptyString => EmptyString
  | String c s' => String (lower_char c) (lower s')
  end.

Fixpoint lstrip (s : string) : string :=
  match s with
  | String c s' => if isspace c then lstrip s' else s
  | EmptyString => EmptyString
  end.

Fixpoint rstrip (s : string) : string :=
  match s with
  | EmptyString => EmptyString
  | String c s' =>
      match rstrip s' with
      | EmptyString => if isspace c then EmptyString else String c EmptyString
      | r => String c r
      end
  end.

Definition strip (s : string) : string := rstrip (lstrip s).

Definition startswith (s pre : string) : bool := String.prefix pre s.

Fixpoint endswith (s suf : string) : bool :=
  String.eqb s suf ||
  match s with
  | EmptyString => false
  | String _ s' => endswith s' suf
  end.

(** [sub in s]. *)
Fixpoint contains (s sub : string) : bool :=
  String.prefix sub s ||
  match s with
  | EmptyString => false
  | String _ s' => contains s' sub
  end.

(** [s.replace(old, new)] for a one-character [old]. *)
Fixpoint replace_char (old : ascii) (new : string) (s : string) : string :=
  match s with
  | EmptyString => EmptyString
  | String c s' =>
      if Ascii.eqb c old then new +:+ replace_char old new s'
      else String c (replace_char old new s')
  end.

(** [str.splitlines()]: the lines without their terminators; a terminator at
    the very end opens no further line. *)
Fixpoint splitlines_aux (cur : string) (s : string) : list string :=
  match s with
  | EmptyString => if String.eqb cur EmptyString then [] else [cur]
  | String c s' =>
      if Ascii.eqb c CR then
        match s' with
        | String c' s'' =>
            if Ascii.eqb c' LF then cur :: splitlines_aux EmptyString s''
            else cur :: splitlines_aux EmptyString s'
        | EmptyString => [cur]
        end
      else if is_linebreak c then cur :: splitlines_aux EmptyString s'
      else splitlines_aux (cur +:+ String c EmptyString) s'
  end.

Definition splitlines (s : string) : list string := splitlines_aux EmptyString s.

(** [sep.join(parts)]. *)
Definition join (sep : string) (parts : list string) : string :=
  String.concat sep parts.

(** [s.split(sep)] for a one-character separator: always at least one field. *)
Fixpoint split_char_aux (sep : ascii) (cur : string) (s : string) : list string :=
  match s with
  | EmptyString => [cur]
  | String c s' =>
      if Ascii.eqb c sep then cur :: split_char_aux sep EmptyString s'
      else split_char_aux sep (cur +:+ String c EmptyString) s'
  end.

Definition split_char (sep : ascii) (s : string) : list string :=
  split_char_aux sep EmptyString s.

(* ===================================================================== *)
(** * Regular expressions, as far as [SCRIPT_NAME_PATTERN] needs them *)
(* ===================================================================== *)

Inductive regex : Type :=
| Empty                                  (* matches nothing *)
| Eps                                    (* the empty string *)
| Chr (c : ascii)                        (* a literal character *)
| Rng (lo hi : ascii)                    (* one character of a range *)
| Alt (r1 r2 : regex)
| Seq (r1 r2 : regex)
| Star (r : regex).

Definition Plus (r : regex) : regex := Seq r (Star r).
Definition Opt (r : regex) : regex := Alt r Eps.

Fixpoint nullable (r : regex) : bool :=
  match r with
  | Empty => false
  | Eps => true
  | Chr _ => false
  | Rng _ _ => false
  | Alt r1 r2 => nullable r1 || nullable r2
  | Seq r1 r2 => nullable r1 && nullable r2
  | Star _ => true
  end.

(** Brzozowski derivative: what remains to be matched after reading [c]. *)
Fixpoint deriv (c : ascii) (r : regex) : regex :=
  match r with
  | Empty => Empty
  | Eps => Empty
  | Chr c' => if Ascii.eqb c c' then Eps else Empty
  | Rng lo hi => if range_in lo hi c then Eps else Empty
  | Alt r1 r2 => Alt (deriv c r1) (deriv c r2)
  | Seq r1 r2 =>
      if nullable r1 then Alt (Seq (deriv c r1) r2) (deriv c r2)
      else Seq (deriv c r1) r2
  | Star r1 => Seq (deriv c r1) (Star r1)
  end.

(** Python's [$] (without MULTILINE) holds at the end of the string and just
    before a line feed that is the last character. *)
Definition at_dollar (rest : string) : bool :=
  match rest with
  | EmptyString => true
  | String c EmptyString => Ascii.eqb c LF
  | _ => false
  end.

(** [re.compile("^" r "$").match(s)] is not [None]: some prefix of [s]
    matches [r] and [$] holds where that prefix ends. *)
Fixpoint re_match_anchored (r : regex) (s : string) : bool :=
  (nullable r && at_dollar s) ||
  match s with
  | EmptyString => false
  | String c s' => re_match_anchored (deriv c r) s'
  end.

Definition lower_alnum : regex := Alt (Rng "a" "z") (Rng "0" "9").

(** [^[a-z0-9]+(?:-[a-z0-9]+)*(?:\.[a-z0-9]+)?$] *)
Definition SCRIPT_NAME_PATTERN : regex :=
  Seq (Plus lower_alnum)
      (Seq (Star (Seq (Chr "-") (Plus lower_alnum)))
           (Opt (Seq (Chr ".") (Plus lower_alnum)))).

Definition SCRIPT_NAME_PATTERN_match (name : string) : bool :=
  re_match_anchored SCRIPT_NAME_PATTERN name.

Definition PATH_UPDATE_MARKER : string :=
  "# Added by term-tools install-helper-scripts".

(* ===================================================================== *)
(** * Paths *)
(* ===================================================================== *)

(** An absolute [pathlib.PosixPath]: its components below the root.  The root
    itself is [[]]. *)
Abbreviation path := (list string).

(** [str(p)] and [p.as_posix()] of an absolute path. *)
Definition path_str (p : path) : string := "/" +:+ join "/" p.

(** [p.as_posix()] of a relative path, as [relative_to] returns it. *)
Definition rel_as_posix (parts : list string) : string :=
  match parts with
  | [] => "."
  | _ => join "/" parts
  end.

(** [p / name] *)
Definition path_join (p : path) (name : string) : path := p ++ [name].
Infix "//" := path_join (at level 40, left associativity).

(** [p.name] *)
Definition path_name (p : path) : string := default EmptyString (last p).

(** [p.parent]; the root is its own parent. *)
Definition path_parent (p : path) : path := removelast p.

(** [p.parents]: nearest first, the root last. *)
Fixpoint path_parents_rev (rp : list string) : list path :=
  match rp with
  | [] => []
  | _ :: rp' => rev rp' :: path_parents_rev rp'
  end.

Definition path_parents (p : path) : list path := path_parents_rev (rev p).

(** [p.relative_to(base)]: the components of [p] below [base], or
    [ValueError] ([None]) when [base] is not a prefix of [p]. *)
Fixpoint relative_to (p base : path) {struct base} : option (list string) :=
  match base, p with
  | [], _ => Some p
  | b :: base', c :: p' => if String.eqb b c then relative_to p' base' else None
  | _ :: _, [] => None
  end.

(** The components of [PurePosixPath(s)]: split at slashes, empty and [.]
    components dropped. *)
Definition pure_parts (s : string) : list string :=
  filter (λ c, c ≠ EmptyString ∧ c ≠ "."%string) (split_char "/" s).

(** [PurePosixPath(s).name] *)
Definition pure_name (s : string) : string := default EmptyString (last (pure_parts s)).

(** The order of [Path.__lt__]: component lists compared lexicographically,
    components by code points. *)
Definition path_compare (p q : path) : comparison := list_compare String.compare p q.
Definition path_leb (p q : path) : bool :=
  match path_compare p q with Gt => false | _ => true end.

Fixpoint insert_sorted (p : path) (l : list path) : list path :=
  match l with
  | [] => [p]
  | q :: l' => if path_leb p q then p :: l else q :: insert_sorted p l'
  end.

(** [sorted(l)] for a list of paths. *)
Definition sorted (l : list path) : list path := foldr insert_sorted [] l.

(* ===================================================================== *)
(** * The file system *)
(* ===================================================================== *)

Inductive node : Type :=
| File (st_perm : Z) (data : string)     (* regular file: permission bits, text *)
| Dir (st_perm : Z)
| Symlink (target : path).

Inductive errno : Type := ENOENT | EEXIST | ENOTDIR | EISDIR | ELOOP | EINVAL.

(** The outcome of walking a path: the canonical place of the node it names,
    or the directory in which its last component is missing, or an error. *)
Inductive lookup_result : Type :=
| Found (q : path) (n : node)
| Absent (d : path) (c : string)
| Fail (e : errno).

Definition MAXSYMLINKS : nat := 40.

(** The node at a canonical place; the root always is a directory. *)
Definition node_at (fs : gmap path node) (q : path) : option node :=
  match q with
  | [] => Some (Dir 493)
  | _ => fs !! q
  end.

(** The kernel's path walk from the canonical directory [cur] along [rest].
    Links met on the way are followed, the last component only under
    [follow]; [fuel] bounds the number of links followed. *)
Fixpoint walk (fuel : nat) (fs : gmap path node) (follow : bool)
    (cur : path) (rest : list string) {struct fuel} : lookup_result :=
  match fuel with
  | O => Fail ELOOP
  | S fuel' =>
      (fix go (cur : path) (rest : list string) {struct rest} : lookup_result :=
         match rest with
         | [] => match node_at fs cur with
                 | Some n => Found cur n
                 | None => Fail ENOENT
                 end
         | c :: rest' =>
             if String.eqb c "." then go cur rest'
             else if String.eqb c ".." then go (removelast cur) rest'
             else
               let p := cur ++ [c] in
               match fs !! p with
               | None => match rest' with
                         | [] => Absent cur c
                         | _ => Fail ENOENT
                         end
               | Some (Symlink t) =>
                   match rest', follow with
                   | [], false => Found p (Symlink t)
                   | _, _ => walk fuel' fs follow [] (t ++ rest')
                   end
               | Some (Dir m) => go p rest'
               | Some (File m d) =>
                   match rest' with
                   | [] => Found p (File m d)
                   | _ => Fail ENOTDIR
                   end
               end
         end) cur rest
  end.

Definition stat (fs : gmap path node) (p : path) : lookup_result :=
  walk (S MAXSYMLINKS) fs true [] p.

Definition lstat (fs : gmap path node) (p : path) : lookup_result :=
  walk (S MAXSYMLINKS) fs false [] p.

(** [Path.exists], [is_dir], [is_file], [is_symlink]: false on every error
    of the walk. *)
Definition path_exists (fs : gmap path node) (p : path) : bool :=
  match stat fs p with Found _ _ => true | _ => false end.

Definition is_dir (fs : gmap path node) (p : path) : bool :=
  match stat fs p with Found _ (Dir _) => true | _ => false end.

Definition is_file (fs : gmap path node) (p : path) : bool :=
  match stat fs p with Found _ (File _ _) => true | _ => false end.

Definition is_symlink (fs : gmap path node) (p : path) : bool :=
  match lstat fs p with Found _ (Symlink _) => true | _ => false end.

(** The name of [p] when [p] is an entry of the directory [d]. *)
Fixpoint child_name (d p : path) : option string :=
  match d, p with
  | [], [n] => Some n
  | a :: d', b :: p' => if String.eqb a b then child_name d' p' else None
  | _, _ => None
  end.

(** [os.listdir] of a canonical directory, in the order the map yields. *)
Definition listdir (fs : gmap path node) (d : path) : list string :=
  omap (child_name d) (map fst (map_to_list fs)).

(** [Path.resolve()] (non-strict): links are followed where the walk finds
    them; components that are missing are kept as written, and a link that
    cannot be followed any more is left in place. *)
Fixpoint realpath (fuel : nat) (fs : gmap path node)
    (cur : path) (rest : list string) {struct fuel} : path :=
  match fuel with
  | O => cur ++ rest
  | S fuel' =>
      (fix go (cur : path) (rest : list string) {struct rest} : path :=
         match rest with
         | [] => cur
         | c :: rest' =>
             if String.eqb c "." then go cur rest'
             else if String.eqb c ".." then go (removelast cur) rest'
             else
               let p := cur ++ [c] in
               match fs !! p with
               | Some (Symlink t) =>
                   match fuel' with
                   | O => p ++ rest'
                   | S _ => realpath fuel' fs [] (t ++ rest')
                   end
               | _ => go p rest'
               end
         end) cur rest
  end.

Definition resolve (fs : gmap path node) (p : path) : path :=
  realpath (S MAXSYMLINKS) fs [] p.

(** Paths are absolute here, and [expanduser] leaves absolute paths alone. *)
Definition expanduser (p : path) : path := p.

(* ===================================================================== *)
(** * Exceptions, the world, and the monad of the script *)
(* ===================================================================== *)

(** The exceptions that occur: every file-system error is an [OSError]
    (also [IsADirectoryError], [FileExistsError], ...); [input] at the end
    of the terminal input raises [EOFError]. *)
Inductive exn : Type :=
| OSError (e : errno) (msg : string)
| EOFError.

Inductive result (A : Type) : Type :=
| Ok (a : A)
| Raise (e : exn).
Arguments Ok {A} a.
Arguments Raise {A} e.

Record world : Type := World {
  w_fs : gmap path node;          (* the file system *)
  w_stdin : list string;          (* lines the user will still type *)
  w_stdout : list string          (* what was written: one entry per print or prompt *)
}.

Definition M (A : Type) : Type := world → result A * world.

Definition ret {A} (a : A) : M A := λ w, (Ok a, w).
Definition raise {A} (e : exn) : M A := λ w, (Raise e, w).
Definition bind {A B} (m : M A) (k : A → M B) : M B :=
  λ w, match m w with
       | (Ok a, w') => k a w'
       | (Raise e, w') => (Raise e, w')
       end.

Notation "'let*' x ':=' m 'in' k" := (bind m (λ x, k))
  (at level 10, x name, m at level 100, k at level 200).
Notation "m >> k" := (bind m (λ _, k))
  (at level 100, k at level 200, right associativity).

(** [try: m except OSError as exc: h exc]; other exceptions pass. *)
Definition try_except_OSError {A} (m : M A) (h : errno → string → M A) : M A :=
  λ w, match m w with
       | (Raise (OSError e msg), w') => h e msg w'
       | r => r
       end.

Definition get_fs : M (gmap path node) := λ w, (Ok (w_fs w), w).
Definition put_fs (fs : gmap path node) : M unit :=
  λ w, (Ok tt, World fs (w_stdin w) (w_stdout w)).

(** [print(line)] *)
Definition print (line : string) : M unit :=
  λ w, (Ok tt, World (w_fs w) (w_stdin w) (w_stdout w ++ [line])).

(** [input(prompt)]: the prompt is written, one line is read without its
    line feed; [EOFError] when the input is exhausted. *)
Definition input (prompt : string) : M string :=
  λ w, match w_stdin w with
       | [] => (Raise EOFError, World (w_fs w) [] (w_stdout w ++ [prompt]))
       | l :: rest => (Ok l, World (w_fs w) rest (w_stdout w ++ [prompt]))
       end.

(** [for x in l: body x] *)
Fixpoint for_each {A} (l : list A) (body : A → M unit) : M unit :=
  match l with
  | [] => ret tt
  | x :: l' => body x >> for_each l' body
  end.

(** The process environment the script reads. *)
Record environ : Type := Environ {
  env_HOME : path;                (* [Path.home()] *)
  env_SHELL : option string;      (* [os.environ.get("SHELL")] *)
  env_PATH : option string;       (* [os.environ.get("PATH")] *)
  env_cwd : path;                 (* the working directory *)
  env_umask : Z;                  (* the file-creation mask *)
  env_script_dir : path           (* [Path(__file__).resolve().parent] *)
}.

(* ===================================================================== *)
(** * File-system operations of [os], [pathlib] and [shutil] *)
(* ===================================================================== *)

Definition strerror (e : errno) : string :=
  match e with
  | ENOENT => "[Errno 2] No such file or directory"
  | EEXIST => "[Errno 17] File exists"
  | ENOTDIR => "[Errno 20] Not a directory"
  | EISDIR => "[Errno 21] Is a directory"
  | ELOOP => "[Errno 40] Too many levels of symbolic links"
  | EINVAL => "[Errno 22] Invalid argument"
  end.

(** The exception [os] raises for [e] at [p]; its text is [strerror] and the
    quoted path. *)
Definition os_error (e : errno) (p : path) : exn :=
  OSError e (strerror e +:+ ": '" +:+ path_str p +:+ "'").

Definition S_IFREG : Z := 32768.   (* 0o100000 *)
Definition S_IFDIR : Z := 16384.   (* 0o040000 *)
Definition S_IFLNK : Z := 40960.   (* 0o120000 *)
Definition S_IXUSR : Z := 64.      (* 0o100 *)

(** [stat.S_IMODE]: the permission bits, 0o7777. *)
Definition S_IMODE (mode : Z) : Z := Z.land mode 4095.

Definition st_mode (n : node) : Z :=
  match n with
  | File perm _ => Z.lor S_IFREG perm
  | Dir perm => Z.lor S_IFDIR perm
  | Symlink _ => Z.lor S_IFLNK 511
  end.

(** The permission bits of a node created with [mode] under the umask. *)
Definition create_perm (env : environ) (mode : Z) : Z :=
  Z.land mode (Z.land (Z.lnot (env_umask env)) 4095).

(** [Path.iterdir()]: the entries of the directory [p] names, as [p / name]. *)
Definition iterdir (p : path) : M (list path) :=
  let* fs := get_fs in
  match stat fs p with
  | Found q (Dir _) => ret (map (path_join p) (listdir fs q))
  | Found _ _ => raise (os_error ENOTDIR p)
  | Absent _ _ => raise (os_error ENOENT p)
  | Fail e => raise (os_error e p)
  end.

(** [os.mkdir(p)] *)
Definition os_mkdir (env : environ) (p : path) : M unit :=
  let* fs := get_fs in
  match lstat fs p with
  | Found _ _ => raise (os_error EEXIST p)
  | Absent d c => put_fs (<[d ++ [c] := Dir (create_perm env 511)]> fs)
  | Fail e => raise (os_error e p)
  end.

(** [p.mkdir(parents=False, exist_ok=True)] *)
Definition mkdir_exist_ok (env : environ) (p : path) : M unit :=
  λ w, match os_mkdir env p w with
       | (Raise (OSError e msg), w') =>
           if is_dir (w_fs w') p then (Ok tt, w') else (Raise (OSError e msg), w')
       | r => r
       end.

(** [p.mkdir(parents=True, exist_ok=True)], by recursion on the reversed
    path: a missing parent is created first, then the directory itself. *)
Fixpoint mkdir_parents_rev (env : environ) (rp : list string) : M unit :=
  λ w, match os_mkdir env (rev rp) w with
       | (Raise (OSError ENOENT msg), w') =>
           match rp with
           | [] => (Raise (OSError ENOENT msg), w')
           | _ :: rp' =>
               (mkdir_parents_rev env rp' >> mkdir_exist_ok env (rev rp)) w'
           end
       | (Raise (OSError e msg), w') =>
           if is_dir (w_fs w') (rev rp) then (Ok tt, w')
           else (Raise (OSError e msg), w')
       | r => r
       end.

Definition mkdir_parents (env : environ) (p : path) : M unit :=
  mkdir_parents_rev env (rev p).

(** [p.unlink()] *)
Definition unlink (p : path) : M unit :=
  let* fs := get_fs in
  match lstat fs p with
  | Found q (Dir _) => raise (os_error EISDIR p)
  | Found q _ => put_fs (delete q fs)
  | Absent _ _ => raise (os_error ENOENT p)
  | Fail e => raise (os_error e p)
  end.

(** [p.symlink_to(target)] *)
Definition symlink_to (p target : path) : M unit :=
  let* fs := get_fs in
  match lstat fs p with
  | Found _ _ => raise (os_error EEXIST p)
  | Absent d c => put_fs (<[d ++ [c] := Symlink target]> fs)
  | Fail e => raise (os_error e p)
  end.

(** [p.read_text()] *)
Definition read_text (p : path) : M string :=
  let* fs := get_fs in
  match stat fs p with
  | Found _ (File _ data) => ret data
  | Found _ _ => raise (os_error EISDIR p)
  | Absent _ _ => raise (os_error ENOENT p)
  | Fail e => raise (os_error e p)
  end.

(** [open(p, "w").write(text)]: the file is created or emptied, a link in the
    last place is followed. *)
Definition write_text (env : environ) (p : path) (text : string) : M unit :=
  let* fs := get_fs in
  match stat fs p with
  | Found q (File perm _) => put_fs (<[q := File perm text]> fs)
  | Found _ _ => raise (os_error EISDIR p)
  | Absent d c => put_fs (<[d ++ [c] := File (create_perm env 438) text]> fs)
  | Fail e => raise (os_error e p)
  end.

(** [open(p, "a").write(text)] *)
Definition append_text (env : environ) (p : path) (text : string) : M unit :=
  let* fs := get_fs in
  match stat fs p with
  | Found q (File perm data) => put_fs (<[q := File perm (data +:+ text)]> fs)
  | Found _ _ => raise (os_error EISDIR p)
  | Absent d c => put_fs (<[d ++ [c] := File (create_perm env 438) text]> fs)
  | Fail e => raise (os_error e p)
  end.

(** [p.stat().st_mode] *)
Definition stat_st_mode (p : path) : M Z :=
  let* fs := get_fs in
  match stat fs p with
  | Found _ n => ret (st_mode n)
  | Absent _ _ => raise (os_error ENOENT p)
  | Fail e => raise (os_error e p)
  end.

(** [p.chmod(mode)]: the kernel keeps the permission bits of [mode] only. *)
Definition chmod (p : path) (mode : Z) : M unit :=
  let* fs := get_fs in
  match stat fs p with
  | Found q (File _ data) => put_fs (<[q := File (S_IMODE mode) data]> fs)
  | Found q (Dir _) =>
      match q with
      | [] => ret tt                  (* the root keeps no mode here *)
      | _ => put_fs (<[q := Dir (S_IMODE mode)]> fs)
      end
  | Found _ (Symlink _) => raise (os_error ELOOP p)
  | Absent _ _ => raise (os_error ENOENT p)
  | Fail e => raise (os_error e p)
  end.

(** [os.path.samefile(a, b)] where both exist, [False] otherwise (as
    [shutil._samefile] has it). *)
Definition samefile (fs : gmap path node) (a b : path) : bool :=
  match stat fs a, stat fs b with
  | Found qa _, Found qb _ => bool_decide (qa = qb)
  | _, _ => false
  end.

(** [shutil.copy2(src, dst)]: into [dst] when that is a directory; the
    content is copied, then the permission bits ([copystat]). *)
Definition copy2 (env : environ) (src dst : path) : M unit :=
  let* fs := get_fs in
  let dst := if is_dir fs dst then dst // path_name src else dst in
  if samefile fs src dst then raise (os_error EINVAL src)
  else
    let* data := read_text src in
    write_text env dst data >>
    let* mode := stat_st_mode src in
    chmod dst (S_IMODE mode).

(* ===================================================================== *)
(** * The script *)
(* ===================================================================== *)

Definition DQUOTE : string := String (chr 34) EmptyString.
Definition BACKSLASH_DQUOTE : string := String (chr 92) DQUOTE.

Record PathUpdateTarget : Type := mkPathUpdateTarget {
  shell_name : string;
  rc_file : path;
  path_line : string
}.

(** The parsed command line. *)
Record Args : Type := mkArgs {
  install_dir_arg : path;         (* -d/--install-dir *)
  symlink_arg : bool;             (* -s/--symlink *)
  yes_arg : bool                  (* -y/--yes *)
}.

(** The loop of [discover_source_scripts] over the sorted entries, with its
    two result lists. *)
Fixpoint classify (fs : gmap path node) (entries : list path)
    (source_scripts invalid_script_names : list path) : list path * list path :=
  match entries with
  | [] => (source_scripts, invalid_script_names)
  | script_path :: rest =>
      if negb (is_file fs script_path) then
        classify fs rest source_scripts invalid_script_names
      else if startswith (path_name script_path) "." then
        classify fs rest source_scripts invalid_script_names
      else if negb (SCRIPT_NAME_PATTERN_match (path_name script_path)) then
        classify fs rest source_scripts (invalid_script_names ++ [script_path])
      else
        classify fs rest (source_scripts ++ [script_path]) invalid_script_names
  end.

Definition discover_source_scripts (repo_root : path)
  : M (path * list path * list path) :=
  let bin_dir := repo_root // "bin" in
  let* fs := get_fs in
  if negb (is_dir fs bin_dir) then ret (bin_dir, [], [])
  else
    let* entries := iterdir bin_dir in
    let '(source_scripts, invalid_script_names) :=
      classify fs (sorted entries) [] [] in
    ret (bin_dir, source_scripts, invalid_script_names).

Definition detect_repo_root (env : environ) (fs : gmap path node) : path :=
  let script_dir := env_script_dir env in
  match find (λ candidate, is_dir fs (candidate // "bin"))
             (script_dir :: path_parents script_dir) with
  | Some candidate => candidate
  | None => script_dir
  end.

(** [Path(entry).expanduser()], made absolute as [resolve] does: a leading
    [~] is the home directory, a relative entry is taken from the working
    directory.  ([~user] is not expanded.) *)
Definition path_of_entry (env : environ) (entry : string) : path :=
  if startswith entry "/" then pure_parts entry
  else match pure_parts entry with
       | first :: rest =>
           if String.eqb first "~" then env_HOME env ++ rest
           else env_cwd env ++ first :: rest
       | [] => env_cwd env
       end.

Definition is_in_path (env : environ) (fs : gmap path node) (directory : path) : bool :=
  let target := resolve fs (expanduser directory) in
  existsb (λ entry,
             if String.eqb entry EmptyString then false
             else bool_decide (resolve fs (path_of_entry env entry) = target))
          (split_char ":" (default EmptyString (env_PATH env))).

(** [response in {"y", "yes"}] *)
Definition affirmative (response : string) : bool :=
  String.eqb response "y" || String.eqb response "yes".

Definition confirm_overwrites (overwrite_paths : list path) (assume_yes : bool) : M bool :=
  match overwrite_paths with
  | [] => ret true
  | _ =>
      print "The following files already exist and will be replaced:" >>
      for_each overwrite_paths (λ p, print ("  - " +:+ path_str p)) >>
      if assume_yes then
        print "Proceeding due to -y/--yes." >> ret true
      else
        let* response := input "Continue with overwrite? [y/N]: " in
        ret (affirmative (lower (strip response)))
  end.

Definition format_posix_path_value (fs : gmap path node) (p home_dir : path) : string :=
  let normalized_path := resolve fs (expanduser p) in
  let normalized_home := resolve fs (expanduser home_dir) in
  if bool_decide (normalized_path = normalized_home) then "$HOME"
  else match relative_to normalized_path normalized_home with
       | None => path_str normalized_path
       | Some relative_path => "$HOME/" +:+ rel_as_posix relative_path
       end.

Definition choose_bash_rc_file (fs : gmap path node) (home_dir : path) : path :=
  match find (λ candidate, path_exists fs candidate)
             (map (path_join home_dir) [".bashrc"; ".bash_profile"; ".profile"]) with
  | Some candidate => candidate
  | None => home_dir // ".bashrc"
  end.

Definition export_line (value : string) : string :=
  "export PATH=" +:+ DQUOTE +:+ value +:+ ":$PATH" +:+ DQUOTE.

Definition fish_line (value : string) : string :=
  "fish_add_path " +:+ DQUOTE +:+ value +:+ DQUOTE.

Definition detect_path_update_target (env : environ) (fs : gmap path node)
    (install_dir : path) : PathUpdateTarget :=
  let home_dir := expanduser (env_HOME env) in
  let shell_name := lower (pure_name (default EmptyString (env_SHELL env))) in
  let posix_path_value := format_posix_path_value fs install_dir home_dir in
  let escaped_posix_path_value :=
    replace_char (chr 34) BACKSLASH_DQUOTE posix_path_value in
  let '(rc_file, path_line) :=
    if String.eqb shell_name "zsh" then
      (home_dir // ".zshrc", export_line escaped_posix_path_value)
    else if String.eqb shell_name "bash" then
      (choose_bash_rc_file fs home_dir, export_line escaped_posix_path_value)
    else if String.eqb shell_name "fish" then
      (home_dir // ".config" // "fish" // "config.fish",
       fish_line escaped_posix_path_value)
    else
      (home_dir // ".profile", export_line escaped_posix_path_value) in
  mkPathUpdateTarget
    (if String.eqb shell_name EmptyString then "unknown" else shell_name)
    rc_file path_line.

(** The scan of [rc_file_has_path_entry] over the text of the file. *)
Definition content_has_path_entry (detection_tokens : list string) (content : string) : bool :=
  existsb (λ raw_line,
             let line := strip raw_line in
             if String.eqb line EmptyString || startswith line "#" then false
             else if negb (contains line "PATH") && negb (contains line "fish_add_path")
             then false
             else existsb (λ token, contains line token) detection_tokens)
          (splitlines content).

Definition rc_file_has_path_entry (env : environ) (target : PathUpdateTarget)
    (install_dir : path) : M bool :=
  let* fs := get_fs in
  if negb (path_exists fs (rc_file target)) then ret false
  else
    let* content :=
      try_except_OSError
        (let* text := read_text (rc_file target) in ret (Some text))
        (λ _ _, ret None) in
    match content with
    | None => ret false
    | Some content =>
        let home_dir := expanduser (env_HOME env) in
        let* fs := get_fs in
        let detection_tokens :=
          [path_str install_dir; format_posix_path_value fs install_dir home_dir] in
        ret (content_has_path_entry detection_tokens content)
    end.

(** The two writes to the file opened for appending are one piece of text
    here. *)
Definition append_path_update (env : environ) (target : PathUpdateTarget) : M unit :=
  mkdir_parents env (path_parent (rc_file target)) >>
  let* fs := get_fs in
  let* needs_separator :=
    (if path_exists fs (rc_file target) then
       try_except_OSError
         (let* existing := read_text (rc_file target) in
          ret (negb (String.eqb existing EmptyString) && negb (endswith existing NL)))
         (λ _ _, ret false)
     else ret false) in
  append_text env (rc_file target)
    ((if needs_separator then NL else EmptyString)
     +:+ PATH_UPDATE_MARKER +:+ NL +:+ path_line target +:+ NL).

Definition maybe_offer_path_update (env : environ) (install_dir : path)
    (assume_yes : bool) : M unit :=
  let* fs := get_fs in
  if is_in_path env fs install_dir then ret tt
  else
    let target := detect_path_update_target env fs install_dir in
    let* already_configured := rc_file_has_path_entry env target install_dir in
    print (path_str install_dir +:+ " is not currently on PATH in this shell session "
           +:+ "(detected shell: " +:+ shell_name target +:+ ").") >>
    print ("Suggested line for " +:+ path_str (rc_file target) +:+ ":") >>
    print ("  " +:+ path_line target) >>
    if already_configured then
      print (path_str (rc_file target) +:+ " already appears to include this PATH entry. "
             +:+ "Open a new shell or source the file to apply it.")
    else
      let* should_update :=
        (if assume_yes then
           print "Updating PATH config due to -y/--yes." >> ret true
         else
           let* response :=
             input ("Add this line to " +:+ path_str (rc_file target) +:+ "? [y/N]: ") in
           ret (affirmative (lower (strip response)))) in
      if should_update then
        let* updated :=
          try_except_OSError
            (append_path_update env target >> ret true)
            (λ _ msg,
               print ("Failed to update " +:+ path_str (rc_file target) +:+ ": " +:+ msg) >>
               print "Add the suggested line manually to your shell RC file." >>
               ret false) in
        if updated then
          print ("Updated " +:+ path_str (rc_file target) +:+ ".") >>
          print ("Open a new shell or run: source " +:+ path_str (rc_file target))
        else ret tt
      else
        print "Skipped PATH update." >>
        print ("Add the suggested line manually to " +:+ path_str (rc_file target) +:+ ".").

Definition destination_exists (fs : gmap path node) (p : path) : bool :=
  path_exists fs p || is_symlink fs p.

(** One round of the loop of [install_scripts_with_mode]. *)
Definition install_one (env : environ) (install_dir : path) (use_symlink : bool)
    (source_path : path) : M path :=
  let destination_path := install_dir // path_name source_path in
  (let* fs := get_fs in
   if destination_exists fs destination_path then
     if is_dir fs destination_path && negb (is_symlink fs destination_path) then
       raise (OSError EISDIR ("Cannot replace directory with script file: "
                              +:+ path_str destination_path))
     else unlink destination_path
   else ret tt) >>
  (if use_symlink then
     let* fs := get_fs in
     symlink_to destination_path (resolve fs source_path)
   else
     copy2 env source_path destination_path >>
     let* mode := stat_st_mode destination_path in
     chmod destination_path (Z.lor mode S_IXUSR)) >>
  ret destination_path.

Fixpoint install_loop (env : environ) (source_scripts : list path)
    (install_dir : path) (use_symlink : bool) (installed_paths : list path)
  : M (list path) :=
  match source_scripts with
  | [] => ret installed_paths
  | source_path :: rest =>
      let* destination_path := install_one env install_dir use_symlink source_path in
      install_loop env rest install_dir use_symlink
        (installed_paths ++ [destination_path])
  end.

Definition install_scripts_with_mode (env : environ) (source_scripts : list path)
    (install_dir : path) (use_symlink : bool) : M (list path) :=
  install_loop env source_scripts install_dir use_symlink [].

(** The body of [main] once [parser.parse_args()] has returned [args]. *)
Definition main (env : environ) (args : Args) : M Z :=
  let* fs := get_fs in
  let repo_root := detect_repo_root env fs in
  let install_dir := resolve fs (expanduser (install_dir_arg args)) in
  let* discovered := discover_source_scripts repo_root in
  let '(source_dir, source_scripts, invalid_script_names) := discovered in
  match invalid_script_names, source_scripts with
  | _ :: _, _ =>
      print "The following bin scripts do not follow lowercase kebab-case naming:" >>
      for_each invalid_script_names (λ p, print ("  - " +:+ path_name p)) >>
      print "Rename these files before installing." >>
      ret 2
  | [], [] =>
      print ("No installable scripts found in " +:+ path_str source_dir +:+ ".") >>
      ret 0
  | [], _ :: _ =>
      mkdir_parents env install_dir >>
      let* fs := get_fs in
      let overwrite_paths :=
        filter (λ destination_path, destination_exists fs destination_path = true)
               (map (λ source_path, install_dir // path_name source_path)
                    source_scripts) in
      let* confirmed := confirm_overwrites overwrite_paths (yes_arg args) in
      if negb confirmed then
        print "Installation cancelled." >> ret 1
      else
        let install_mode := if symlink_arg args then "symlink" else "copy" in
        let* outcome :=
          try_except_OSError
            (let* installed_paths :=
               install_scripts_with_mode env source_scripts install_dir
                 (symlink_arg args) in
             ret (Some installed_paths))
            (λ _ msg, print ("Installation failed: " +:+ msg) >> ret None) in
        match outcome with
        | None => ret 1
        | Some installed_paths =>
            print ("Installed " +:+ pretty (length installed_paths)
                   +:+ " script(s) into " +:+ path_str install_dir
                   +:+ " using " +:+ install_mode +:+ " mode.") >>
            for_each installed_paths (λ p, print ("  - " +:+ path_str p)) >>
            maybe_offer_path_update env install_dir (yes_arg args) >>
            ret 0
        end
  end.

(** [sys.exit(main())]: the status of the process, which is 1 when an
    exception leaves [main]. *)
Definition exit_status (r : result Z) : Z :=
  match r with
  | Ok code => code
  | Raise _ => 1
  end.

Definition run (env : environ) (args : Args) (w : world) : Z * world :=
  let '(r, w') := main env args w in (exit_status r, w').

(* ===================================================================== *)
(** * Predicates used to state the properties *)
(* ===================================================================== *)

(** A regular file whose name does not start with a dot. *)
Definition regular_non_hidden (fs : gmap path node) (p : path) : bool :=
  is_file fs p && negb (startswith (path_name p) ".").

Definition is_source_script (fs : gmap path node) (p : path) : bool :=
  regular_non_hidden fs p && SCRIPT_NAME_PATTERN_match (path_name p).

Definition is_invalid_script (fs : gmap path node) (p : path) : bool :=
  regular_non_hidden fs p && negb (SCRIPT_NAME_PATTERN_match (path_name p)).

(** A list of paths in ascending order of their names. *)
Definition name_sorted (l : list path) : Prop :=
  StronglySorted (λ p q, String.leb (path_name p) (path_name q) = true) l.

Definition is_link (n : node) : bool :=
  match n with Symlink _ => true | _ => false end.

(** A canonical directory: every prefix of the path is a directory of the
    file system itself, no link is involved. *)
Definition real_dir (fs : gmap path node) (d : path) : Prop :=
  ∀ pre, pre `prefix_of` d → pre ≠ [] → ∃ m, fs !! pre = Some (Dir m).

(* ===================================================================== *)
(** * Example worlds *)
(* ===================================================================== *)

Definition example_env : environ :=
  Environ ["home"; "u"] (Some "/bin/bash") (Some "/usr/bin:/bin")
          ["home"; "u"] 18 ["repo"; "tools"].

Definition example_dirs : list (path * node) :=
  [ (["repo"], Dir 493); (["repo"; "tools"], Dir 493); (["repo"; "bin"], Dir 493);
    (["home"], Dir 493); (["home"; "u"], Dir 493) ].

(** The end-to-end example of the specification: two valid names, a hidden
    file and a badly named file. *)
Definition example_fs_invalid : gmap path node :=
  list_to_map (example_dirs ++
    [ (["repo"; "bin"; "foo-bar"], File 420 "#!/bin/sh");
      (["repo"; "bin"; "baz.sh"], File 420 "#!/bin/sh");
      (["repo"; "bin"; ".hidden"], File 420 "x");
      (["repo"; "bin"; "BadName"], File 420 "#!/bin/sh") ]).

(** An install directory that holds a dangling link. *)
Definition example_fs_dangling : gmap path node :=
  list_to_map (example_dirs ++
    [ (["home"; "u"; "bin"], Dir 493);
      (["home"; "u"; "bin"; "hello"], Symlink ["nowhere"; "hello"]) ]).

(** The paths of the rendering examples: a home directory with a [bin]
    directory, and a directory outside the home tree. *)
Definition example_fs_paths : gmap path node :=
  list_to_map (example_dirs ++
    [ (["home"; "u"; "bin"], Dir 493);
      (["opt"], Dir 493); (["opt"; "tools"], Dir 493) ]).

Definition example_env_shell (shell : option string) : environ :=
  Environ ["home"; "u"] shell (Some "/usr/bin:/bin")
          ["home"; "u"] 18 ["repo"; "tools"].

(** A home directory in which bash finds [.bash_profile] but no [.bashrc]. *)
Definition example_fs_bash_profile : gmap path node :=
  list_to_map (example_dirs ++
    [ (["home"; "u"; ".bash_profile"], File 420 "# profile");
      (["home"; "u"; ".profile"], File 420 "# profile") ]).

Definition example_args (yes : bool) : Args :=
  mkArgs ["home"; "u"; "bin"] false yes.

(** A checkout without any [bin] directory. *)
Definition example_fs_no_bin : gmap path node :=
  list_to_map [ (["repo"], Dir 493); (["repo"; "tools"], Dir 493) ].

(** One script, already installed once. *)
Definition example_fs_installed : gmap path node :=
  list_to_map (example_dirs ++
    [ (["repo"; "bin"; "hello"], File 420 "#!/bin/sh");
      (["home"; "u"; "bin"], Dir 493);
      (["home"; "u"; "bin"; "hello"], File 484 "#!/bin/sh") ]).

(** Names the walk takes literally: neither [.] nor [..]. *)
Definition plain_name (c : string) : Prop := c ≠ "."%string ∧ c ≠ ".."%string.

(** The world with another file system. *)
Definition with_fs (w : world) (fs : gmap path node) : world :=
  World fs (w_stdin w) (w_stdout w).

(** The error raised for a directory in the way of a script. *)
Definition cannot_replace_directory (destination_path : path) : exn :=
  OSError EISDIR ("Cannot replace directory with script file: "
                  +:+ path_str destination_path).

(** What one round of the install loop does when the install directory is
    canonical: the entry [d / name] alone is concerned. *)
Definition install_one_outcome (w : world) (d : path) (use_symlink : bool)
    (source_path : path) : result path * world :=
  let kd := d ++ [path_name source_path] in
  let fs1 := delete kd (w_fs w) in
  match w_fs w !! kd with
  | Some (Dir _) => (Raise (cannot_replace_directory (d // path_name source_path)), w)
  | _ =>
      if use_symlink then
        (Ok (d // path_name source_path),
         with_fs w (<[kd := Symlink (resolve fs1 source_path)]> fs1))
      else
        match stat fs1 source_path with
        | Found _ (File perm data) =>
            (Ok (d // path_name source_path),
             with_fs w (<[kd := File (Z.lor (S_IMODE (st_mode (File perm data))) S_IXUSR)
                                     data]> fs1))
        | Found _ _ => (Raise (os_error EISDIR source_path), with_fs w fs1)
        | Absent _ _ => (Raise (os_error ENOENT source_path), with_fs w fs1)
        | Fail e => (Raise (os_error e source_path), with_fs w fs1)
        end
  end.

(** A checkable form of [real_dir]. *)
Fixpoint real_dirb_from (fs : gmap path node) (cur : path) (rest : list string) : bool :=
  match rest with
  | [] => true
  | c :: rest' =>
      match fs !! (cur ++ [c]) with
      | Some (Dir _) => real_dirb_from fs (cur ++ [c]) rest'
      | _ => false
      end
  end.

Definition real_dirb (fs : gmap path node) (d : path) : bool := real_dirb_from fs [] d.

Definition plain_nameb (c : string) : bool :=
  negb (String.eqb c ".") && negb (String.eqb c "..").

Definition is_OSError (e : exn) : Prop := ∃ n msg, e = OSError n msg.

(** Two scripts to install into an existing, empty directory; the second is
    readable by its owner only. *)
Definition example_fs_two : gmap path node :=
  list_to_map (example_dirs ++
    [ (["repo"; "bin"; "hello"], File 420 "#!/bin/sh");
      (["repo"; "bin"; "world"], File 384 "#!/bin/sh");
      (["home"; "u"; "bin"], Dir 493) ]).

(** Three scripts, and a directory where the second should go. *)
Definition example_fs_blocked : gmap path node :=
  list_to_map (example_dirs ++
    [ (["repo"; "bin"; "a"], File 420 "#!/bin/sh");
      (["repo"; "bin"; "b"], File 420 "#!/bin/sh");
      (["repo"; "bin"; "c"], File 420 "#!/bin/sh");
      (["home"; "u"; "bin"], Dir 493);
      (["home"; "u"; "bin"; "b"], Dir 493) ]).

(** An install directory under [/opt] whose name holds a double quote
    between [my] and [tools]. *)
Definition example_quoted_dir : path := ["opt"; "my" +:+ DQUOTE +:+ "tools"].

Definition example_fs_quoted : gmap path node :=
  list_to_map (example_dirs ++
    [ (["opt"], Dir 493); (example_quoted_dir, Dir 493) ]).

(** No character of [s] satisfies [f]. *)
Fixpoint string_none (f : ascii → bool) (s : string) : bool :=
  match s with
  | EmptyString => true
  | String c s' => negb (f c) && string_none f s'
  end.

(** The text [append_path_update] writes after [existing]. *)
Definition appended_block (existing : string) (line : string) : string :=
  (if negb (String.eqb existing EmptyString) && negb (endswith existing NL)
   then NL else EmptyString)
  +:+ PATH_UPDATE_MARKER +:+ NL +:+ line +:+ NL.

(* ===================================================================== *)
(** * Further predicates and example worlds *)
(* ===================================================================== *)

(** [p / name] for the script [source_path]: where it is installed. *)
Definition destination_of (install_dir source_path : path) : path :=
  install_dir // path_name source_path.

(** What the install loop leaves at the destination of a regular file
    [File perm data] found at [source_path]. *)
Definition installed_node (use_symlink : bool) (source_path : path)
    (perm : Z) (data : string) : node :=
  if use_symlink then Symlink source_path
  else File (Z.lor (S_IMODE (st_mode (File perm data))) S_IXUSR) data.

(** Every path of [sources] is a regular file held by the directory [b]
    under a plain name. *)
Definition regular_files_of (fs : gmap path node) (b : path) (sources : list path) : Prop :=
  Forall (λ s, ∃ name perm data,
            s = b // name ∧ plain_name name ∧ fs !! s = Some (File perm data)) sources.

(** No directory is in the way of any of [sources] in [d]. *)
Definition no_directory_in_the_way (fs : gmap path node) (d : path)
    (sources : list path) : Prop :=
  Forall (λ s, ∀ m, fs !! destination_of d s ≠ Some (Dir m)) sources.

(** What every step of the script respects: a directory stays a directory,
    output is only added at the end and input is only taken from the front;
    with [quiet] set, no input is taken at all. *)
Definition orderly (quiet : bool) (w w' : world) : Prop :=
  (∀ k m, w_fs w !! k = Some (Dir m) → ∃ m', w_fs w' !! k = Some (Dir m'))
  ∧ w_stdout w `prefix_of` w_stdout w'
  ∧ w_stdin w' `suffix_of` w_stdin w
  ∧ (quiet = true → w_stdin w' = w_stdin w).

(** The computation [m] relates the world it starts in to the world it ends
    in by [R], whether it returns or raises. *)
Definition preserves {A} (R : world → world → Prop) (m : M A) : Prop :=
  ∀ w r w', m w = (r, w') → R w w'.

(** Whatever [m] returns satisfies [P]. *)
Definition returns {A} (P : A → Prop) (m : M A) : Prop :=
  ∀ w a w', m w = (Ok a, w') → P a.

(** The text of the regular file at the canonical place [k]; empty when
    there is none. *)
Definition file_text (fs : gmap path node) (k : path) : string :=
  match fs !! k with
  | Some (File _ data) => data
  | _ => EmptyString
  end.

(** The permission bits a file at [k] has after a write in append mode: its
    own, or those of a new file under the umask. *)
Definition file_perm_after_append (env : environ) (fs : gmap path node) (k : path) : Z :=
  match fs !! k with
  | Some (File perm _) => perm
  | _ => create_perm env 438
  end.

(** The scan of [rc_file_has_path_entry] as a function of the file system. *)
Definition rc_scan (env : environ) (target : PathUpdateTarget) (install_dir : path)
    (fs : gmap path node) : bool :=
  match stat fs (rc_file target) with
  | Found _ (File _ content) =>
      content_has_path_entry
        [path_str install_dir; format_posix_path_value fs install_dir (env_HOME env)]
        content
  | _ => false
  end.

(** What the advisor prints before it decides. *)
Definition advice_lines (install_dir : path) (target : PathUpdateTarget) : list string :=
  [ path_str install_dir +:+ " is not currently on PATH in this shell session "
    +:+ "(detected shell: " +:+ shell_name target +:+ ").";
    "Suggested line for " +:+ path_str (rc_file target) +:+ ":";
    "  " +:+ path_line target ].

Definition already_configured_line (target : PathUpdateTarget) : string :=
  path_str (rc_file target) +:+ " already appears to include this PATH entry. "
  +:+ "Open a new shell or source the file to apply it.".

Definition updated_lines (target : PathUpdateTarget) : list string :=
  [ "Updating PATH config due to -y/--yes.";
    "Updated " +:+ path_str (rc_file target) +:+ ".";
    "Open a new shell or run: source " +:+ path_str (rc_file target) ].

(** The world after more output. *)
Definition with_output (w : world) (lines : list string) : world :=
  World (w_fs w) (w_stdin w) (w_stdout w ++ lines).

(** Every exception that leaves [m] satisfies [P]. *)
Definition raises_only {A} (P : exn → Prop) (m : M A) : Prop :=
  ∀ w e w', m w = (Raise e, w') → P e.

(** Only white space. *)
Definition all_space (s : string) : bool := string_none (λ c, negb (isspace c)) s.

(** The answers that count as a yes, once the white space around them is
    taken off. *)
Definition yes_words : list string :=
  ["y"; "Y"; "yes"; "yeS"; "yEs"; "yES"; "Yes"; "YeS"; "YEs"; "YES"]%string.

(** The strings a regular expression matches. *)
Inductive matches : regex → string → Prop :=
| matches_Eps : matches Eps EmptyString
| matches_Chr (c : ascii) : matches (Chr c) (String c EmptyString)
| matches_Rng (lo hi c : ascii) :
    range_in lo hi c = true → matches (Rng lo hi) (String c EmptyString)
| matches_Alt_l (r1 r2 : regex) (s : string) : matches r1 s → matches (Alt r1 r2) s
| matches_Alt_r (r1 r2 : regex) (s : string) : matches r2 s → matches (Alt r1 r2) s
| matches_Seq (r1 r2 : regex) (s1 s2 : string) :
    matches r1 s1 → matches r2 s2 → matches (Seq r1 r2) (s1 +:+ s2)
| matches_Star_nil (r : regex) : matches (Star r) EmptyString
| matches_Star_cons (r : regex) (s1 s2 : string) :
    matches r s1 → matches (Star r) s2 → matches (Star r) (s1 +:+ s2).

Definition is_lower_alnum (c : ascii) : bool :=
  range_in "a" "z" c || range_in "0" "9" c.

(** Lower-case letters and digits only. *)
Definition all_lower_alnum (s : string) : bool :=
  string_none (λ c, negb (is_lower_alnum c)) s.

(** A word of a script name: one or more lower-case letters and digits. *)
Definition is_word (s : string) : Prop :=
  s ≠ EmptyString ∧ all_lower_alnum s = true.

(** Words, each after a hyphen. *)
Fixpoint hyphenated (words : list string) : string :=
  match words with
  | [] => EmptyString
  | w :: words' => "-" +:+ w +:+ hyphenated words'
  end.

(** A kebab-case name: words joined by hyphens, then possibly a dot and an
    extension. *)
Definition kebab_name (words : list string) (ext : option string) : string :=
  join "-" words
  +:+ match ext with
      | None => EmptyString
      | Some e => "." +:+ e
      end.




(** The question of the advisor. *)
Definition update_prompt (target : PathUpdateTarget) : string :=
  "Add this line to " +:+ path_str (rc_file target) +:+ "? [y/N]: ".

Definition skipped_lines (target : PathUpdateTarget) : list string :=
  [ "Skipped PATH update.";
    "Add the suggested line manually to " +:+ path_str (rc_file target) +:+ "." ].







(** The file system after the directories [base / c1], [base / c1 / c2], ...
    were created along [missing]. *)
Fixpoint make_dirs (env : environ) (fs : gmap path node) (base : path)
    (missing : list string) : gmap path node :=
  match missing with
  | [] => fs
  | c :: rest =>
      make_dirs env (<[base ++ [c] := Dir (create_perm env 511)]> fs) (base ++ [c]) rest
  end.

(** Nothing lies at or below [base / c1] along [missing]. *)
Definition nothing_along (fs : gmap path node) (base : path) (missing : list string) : Prop :=
  ∀ pre, pre `prefix_of` missing → pre ≠ [] → fs !! (base ++ pre) = None.


(** A script that is a link into another directory of the checkout. *)
Definition example_fs_linked : gmap path node :=
  list_to_map (example_dirs ++
    [ (["repo"; "src"], Dir 493);
      (["repo"; "src"; "hello.sh"], File 420 "#!/bin/sh");
      (["repo"; "bin"; "hello"], Symlink ["repo"; "src"; "hello.sh"]);
      (["home"; "u"; "bin"], Dir 493) ]).


(** A script whose name is [abc] followed by a line feed. *)
Definition example_line_feed_script : path := ["repo"; "bin"; "abc" +:+ NL].

(** That script alone in [bin], and an empty install directory. *)
Definition example_fs_line_feed : gmap path node :=
  list_to_map (example_dirs ++
    [ (example_line_feed_script, File 420 "#!/bin/sh");
      (["home"; "u"; "bin"], Dir 493) ]).

(* ===================================================================== *)
(** * The order of paths and [sorted] *)
(* ===================================================================== *)

Lemma ascii_compare_trans (a b d : ascii) (c : comparison) :
  Ascii.compare a b = c → Ascii.compare b d = c → Ascii.compare a d = c.
Proof.
  unfold Ascii.compare. intros H1 H2. destruct c.
  - apply N.compare_eq_iff in H1, H2. apply N.compare_eq_iff. congruence.
  - rewrite N.compare_lt_iff in *. lia.
  - rewrite N.compare_gt_iff in *. lia.
Qed.

Lemma ascii_compare_refl (a : ascii) : Ascii.compare a a = Eq.
Proof. unfold Ascii.compare. apply N.compare_refl. Qed.

Lemma string_compare_trans (s1 s2 s3 : string) (c : comparison) :
  String.compare s1 s2 = c → String.compare s2 s3 = c → String.compare s1 s3 = c.
Proof.
  revert s2 s3. induction s1 as [|a s1 IH]; intros [|b s2] [|d s3]; simpl; try congruence.
  destruct (Ascii.compare a b) eqn:Hab, (Ascii.compare b d) eqn:Hbd; try congruence.
  - apply Ascii.compare_eq_iff in Hab, Hbd. subst. rewrite ascii_compare_refl. apply IH.
  - apply Ascii.compare_eq_iff in Hab. subst. rewrite Hbd. congruence.
  - apply Ascii.compare_eq_iff in Hab. subst. rewrite Hbd. congruence.
  - apply Ascii.compare_eq_iff in Hbd. subst. rewrite Hab. congruence.
  - rewrite (ascii_compare_trans _ _ _ _ Hab Hbd). congruence.
  - apply Ascii.compare_eq_iff in Hbd. subst. rewrite Hab. congruence.
  - rewrite (ascii_compare_trans _ _ _ _ Hab Hbd). congruence.
Qed.

Lemma string_compare_refl (s : string) : String.compare s s = Eq.
Proof. induction s as [|a s IH]; simpl; [done|]. by rewrite ascii_compare_refl. Qed.

Lemma string_compare_eq (s t : string) : String.compare s t = Eq ↔ s = t.
Proof. split; [apply String.compare_eq_iff | intros ->; apply string_compare_refl]. Qed.

Lemma path_compare_eq (p q : path) : path_compare p q = Eq ↔ p = q.
Proof. apply list_compare_refl. apply string_compare_eq. Qed.

Lemma path_compare_antisym (p q : path) : path_compare q p = CompOpp (path_compare p q).
Proof.
  apply list_compare_antisym.
  - apply string_compare_eq.
  - intros. apply String.compare_antisym.
Qed.

Lemma path_leb_total (p q : path) : path_leb p q = true ∨ path_leb q p = true.
Proof.
  unfold path_leb. rewrite (path_compare_antisym p q).
  destruct (path_compare p q); simpl; auto.
Qed.

Lemma path_leb_trans (p q r : path) :
  path_leb p q = true → path_leb q r = true → path_leb p r = true.
Proof.
  unfold path_leb.
  destruct (path_compare p q) eqn:H1; try discriminate;
    destruct (path_compare q r) eqn:H2; try discriminate; intros _ _.
  - apply path_compare_eq in H1, H2. subst. rewrite (proj2 (path_compare_eq r r)); done.
  - apply path_compare_eq in H1. subst. by rewrite H2.
  - apply path_compare_eq in H2. subst. by rewrite H1.
  - assert (path_compare p r = Lt) as ->; [|done].
    unfold path_compare in *.
    eapply (list_compare_trans _ string_compare_eq); eauto.
    + intros. eapply string_compare_trans; eauto.
    + intros. apply String.compare_antisym.
Qed.

Lemma path_leb_refl (p : path) : path_leb p p = true.
Proof. destruct (path_leb_total p p); done. Qed.

(** Insertion keeps the elements and the order. *)
Lemma insert_sorted_Permutation (p : path) (l : list path) :
  Permutation (insert_sorted p l) (p :: l).
Proof.
  induction l as [|q l IH]; simpl; [done|].
  destruct (path_leb p q); [done|].
  rewrite IH. apply perm_swap.
Qed.

Lemma sorted_Permutation (l : list path) : Permutation (sorted l) l.
Proof.
  induction l as [|p l IH]; simpl; [done|].
  rewrite insert_sorted_Permutation. by constructor.
Qed.

Lemma insert_sorted_StronglySorted (p : path) (l : list path) :
  StronglySorted (λ a b, path_leb a b = true) l →
  StronglySorted (λ a b, path_leb a b = true) (insert_sorted p l).
Proof.
  induction 1 as [|q l Hs IH Hall]; simpl.
  - repeat constructor.
  - destruct (path_leb p q) eqn:Hpq.
    + constructor; [by constructor|].
      constructor; [done|].
      eapply Forall_impl; [exact Hall|]. intros r Hr. simpl in Hr.
      eapply path_leb_trans; eauto.
    + constructor; [done|].
      rewrite insert_sorted_Permutation. constructor; [|done].
      destruct (path_leb_total p q); congruence.
Qed.

Lemma sorted_StronglySorted (l : list path) :
  StronglySorted (λ a b, path_leb a b = true) (sorted l).
Proof.
  induction l as [|p l IH]; simpl; [constructor|].
  by apply insert_sorted_StronglySorted.
Qed.

Lemma StronglySorted_list_filter {A} (R : A → A → Prop) (f : A → bool) (l : list A) :
  StronglySorted R l → StronglySorted R (List.filter f l).
Proof.
  induction 1 as [|x l Hs IH Hall]; simpl; [constructor|].
  destruct (f x); [|done].
  constructor; [done|].
  rewrite Forall_forall in *. intros y Hy%list_elem_of_In%filter_In. 
  apply Hall. apply list_elem_of_In. tauto.
Qed.

(* ===================================================================== *)
(** * Discovery *)
(* ===================================================================== *)

Lemma path_name_join (d : path) (n : string) : path_name (d // n) = n.
Proof. unfold path_name, path_join. by rewrite last_snoc. Qed.

Lemma path_leb_join (d : path) (a b : string) :
  path_leb (d // a) (d // b) = String.leb a b.
Proof.
  unfold path_leb, path_compare, path_join, String.leb.
  rewrite (list_compare_app _ string_compare_eq). simpl.
  by destruct (String.compare a b).
Qed.

Lemma StronglySorted_weaken {A} (R R' : A → A → Prop) (l : list A) :
  (∀ x y, x ∈ l → y ∈ l → R x y → R' x y) →
  StronglySorted R l → StronglySorted R' l.
Proof.
  intros HR Hs. induction Hs as [|x l Hs IH Hall]; [constructor|].
  constructor.
  - apply IH. intros a b Ha Hb. apply HR; by constructor.
  - rewrite Forall_forall in *. intros y Hy. apply HR; [by left|by right|auto].
Qed.

Lemma classify_spec (fs : gmap path node) (l a b : list path) :
  classify fs l a b =
  (a ++ List.filter (is_source_script fs) l, b ++ List.filter (is_invalid_script fs) l).
Proof.
  revert a b. induction l as [|p l IH]; intros a b; simpl.
  - by rewrite !app_nil_r.
  - unfold is_source_script, is_invalid_script, regular_non_hidden.
    destruct (is_file fs p); simpl; [|apply IH].
    destruct (startswith (path_name p) "."); simpl; [apply IH|].
    destruct (SCRIPT_NAME_PATTERN_match (path_name p)); simpl.
    + rewrite IH. by rewrite <- app_assoc.
    + rewrite IH. by rewrite <- app_assoc.
Qed.

Lemma iterdir_is_dir (p : path) (w : world) :
  is_dir (w_fs w) p = true →
  ∃ q m, stat (w_fs w) p = Found q (Dir m) ∧
         iterdir p w = (Ok (map (path_join p) (listdir (w_fs w) q)), w).
Proof.
  unfold is_dir, iterdir, bind, get_fs. intros H.
  destruct (stat (w_fs w) p) as [q [| m |]|?|?] eqn:Hs; try done.
  exists q, m. split; [done|]. reflexivity.
Qed.

(** X29.  Discovery classification, relative to what [SCRIPT_NAME_PATTERN.match]
    accepts.  When the [bin] directory exists, discovery returns, without
    changing anything, two lists drawn from the entries of that directory: an
    entry that is a regular file with a name not starting with a dot is in
    the valid list when [SCRIPT_NAME_PATTERN.match] accepts its name and in
    the invalid list when it does not; entries that are not regular files or
    that are hidden are in neither list; and both lists are in ascending
    order of names.  What [match] accepts is more than the names of the
    pattern: a name of the pattern followed by one line feed passes too. *)
Theorem discovery_classification (repo_root : path) (w : world) :
  is_dir (w_fs w) (repo_root // "bin") = true →
  ∃ entries valid invalid,
    iterdir (repo_root // "bin") w = (Ok entries, w) ∧
    discover_source_scripts repo_root w = (Ok (repo_root // "bin", valid, invalid), w) ∧
    (∀ p, p ∈ entries → regular_non_hidden (w_fs w) p = true →
          SCRIPT_NAME_PATTERN_match (path_name p) = true →
          p ∈ valid ∧ (p ∉ invalid)) ∧
    (∀ p, p ∈ entries → regular_non_hidden (w_fs w) p = true →
          SCRIPT_NAME_PATTERN_match (path_name p) = false →
          p ∈ invalid ∧ (p ∉ valid)) ∧
    (∀ p, is_file (w_fs w) p = false ∨ startswith (path_name p) "." = true →
          (p ∉ valid) ∧ (p ∉ invalid)) ∧
    (∀ p, p ∈ valid ∨ p ∈ invalid → p ∈ entries) ∧
    name_sorted valid ∧ name_sorted invalid.
Proof.
  intros Hdir.
  destruct (iterdir_is_dir _ _ Hdir) as (q & m & Hstat & Hiter).
  set (entries := map (path_join (repo_root // "bin")) (listdir (w_fs w) q)) in *.
  exists entries.
  exists (List.filter (is_source_script (w_fs w)) (sorted entries)).
  exists (List.filter (is_invalid_script (w_fs w)) (sorted entries)).
  assert (Hmem : ∀ p f, p ∈ List.filter f (sorted entries) ↔ p ∈ entries ∧ f p = true).
  { intros p f. rewrite list_elem_of_In, filter_In, <- list_elem_of_In.
    by rewrite (sorted_Permutation entries). }
  assert (Hsorted : ∀ f, name_sorted (List.filter f (sorted entries))).
  { intros f. apply StronglySorted_list_filter.
    eapply StronglySorted_weaken; [|apply sorted_StronglySorted].
    intros x y Hx Hy. rewrite (sorted_Permutation entries) in Hx, Hy.
    apply list_elem_of_fmap in Hx as (a & -> & _), Hy as (b & -> & _).
    by rewrite path_leb_join, !path_name_join. }
  split_and!; [done| | | | | |apply Hsorted|apply Hsorted].
  - unfold discover_source_scripts, bind, get_fs. rewrite Hdir. simpl.
    rewrite Hiter. rewrite classify_spec. reflexivity.
  - intros p Hp Hreg Hmatch. rewrite !Hmem.
    unfold is_source_script, is_invalid_script. rewrite Hreg, Hmatch. simpl.
    split; [done|]. intros [_ ?]. done.
  - intros p Hp Hreg Hmatch. rewrite !Hmem.
    unfold is_source_script, is_invalid_script. rewrite Hreg, Hmatch. simpl.
    split; [done|]. intros [_ ?]. done.
  - intros p Hp. rewrite !Hmem.
    assert (regular_non_hidden (w_fs w) p = false) as Hreg.
    { unfold regular_non_hidden. destruct Hp as [-> | ->]; [done|].
      by rewrite andb_false_r. }
    unfold is_source_script, is_invalid_script. rewrite Hreg. simpl.
    split; intros [_ ?]; done.
  - intros p. rewrite !Hmem. tauto.
Qed.

Lemma discovery_classification_witness :
  is_dir example_fs_invalid (["repo"] // "bin") = true
  ∧ ∃ valid invalid,
      discover_source_scripts ["repo"] (World example_fs_invalid [] [])
        = (Ok (["repo"; "bin"], valid, invalid), World example_fs_invalid [] [])
      ∧ name_sorted valid ∧ name_sorted invalid.
Proof.
  split; [vm_compute; reflexivity|].
  destruct (discovery_classification ["repo"] (World example_fs_invalid [] []))
    as (entries & valid & invalid & _ & Hdisc & _ & _ & _ & _ & Hv & Hi).
  - vm_compute. reflexivity.
  - exists valid, invalid. split_and!; assumption.
Defined.

(* ===================================================================== *)
(** * The path walk and the existence test *)
(* ===================================================================== *)

Arguments walk : simpl never.
Arguments realpath : simpl never.

(** One step of the walk. *)
Lemma walk_nil (fuel : nat) (fs : gmap path node) (follow : bool) (cur : path) :
  walk (S fuel) fs follow cur [] =
  match node_at fs cur with Some n => Found cur n | None => Fail ENOENT end.
Proof. reflexivity. Qed.

Lemma walk_cons (fuel : nat) (fs : gmap path node) (follow : bool)
    (cur : path) (c : string) (rest : list string) :
  walk (S fuel) fs follow cur (c :: rest) =
  if String.eqb c "." then walk (S fuel) fs follow cur rest
  else if String.eqb c ".." then walk (S fuel) fs follow (removelast cur) rest
  else match fs !! (cur ++ [c]) with
       | None => match rest with [] => Absent cur c | _ => Fail ENOENT end
       | Some (Symlink t) =>
           match rest, follow with
           | [], false => Found (cur ++ [c]) (Symlink t)
           | _, _ => walk fuel fs follow [] (t ++ rest)
           end
       | Some (Dir m) => walk (S fuel) fs follow (cur ++ [c]) rest
       | Some (File m d) =>
           match rest with [] => Found (cur ++ [c]) (File m d) | _ => Fail ENOTDIR end
       end.
Proof. reflexivity. Qed.

Lemma walk_nofollow_follow (fuel : nat) (fs : gmap path node) (cur : path)
    (rest : list string) (q : path) (n : node) :
  walk fuel fs false cur rest = Found q n → is_link n = false →
  walk fuel fs true cur rest = Found q n.
Proof.
  revert cur rest. induction fuel as [|fuel IHf]; [done|].
  intros cur rest. revert cur. induction rest as [|c rest IHr]; intros cur.
  - by rewrite !walk_nil.
  - rewrite !walk_cons.
    destruct (String.eqb c "."); [apply IHr|].
    destruct (String.eqb c ".."); [apply IHr|].
    destruct (fs !! (cur ++ [c])) as [[m d|m|t]|]; try done.
    + apply IHr.
    + destruct rest; [|apply IHf]. intros [= <- <-]. done.
Qed.

Lemma walk_follow_nofollow (fuel : nat) (fs : gmap path node) (cur : path)
    (rest : list string) (q : path) (n : node) :
  walk fuel fs true cur rest = Found q n →
  ∃ q' n', walk fuel fs false cur rest = Found q' n'.
Proof.
  revert cur rest q n. induction fuel as [|fuel IHf]; [done|].
  intros cur rest. revert cur. induction rest as [|c rest IHr]; intros cur q n.
  - rewrite !walk_nil. eauto.
  - rewrite !walk_cons.
    destruct (String.eqb c "."); [apply IHr|].
    destruct (String.eqb c ".."); [apply IHr|].
    destruct (fs !! (cur ++ [c])) as [[m d|m|t]|]; try done.
    + eauto.
    + apply IHr.
    + destruct rest; [eauto|apply IHf].
    + by destruct rest.
Qed.

Lemma lstat_stat (fs : gmap path node) (p q : path) (n : node) :
  lstat fs p = Found q n → is_link n = false → stat fs p = Found q n.
Proof. apply walk_nofollow_follow. Qed.

Lemma stat_lstat (fs : gmap path node) (p q : path) (n : node) :
  stat fs p = Found q n → ∃ q' n', lstat fs p = Found q' n'.
Proof. apply walk_follow_nofollow. Qed.

Lemma destination_exists_iff_lstat (fs : gmap path node) (p : path) :
  destination_exists fs p = true ↔ ∃ q n, lstat fs p = Found q n.
Proof.
  unfold destination_exists, path_exists, is_symlink. split.
  - destruct (stat fs p) as [q n| |] eqn:Hs.
    + intros _. eapply stat_lstat, Hs.
    + destruct (lstat fs p) as [q [| |]| |]; try discriminate. eauto.
    + destruct (lstat fs p) as [q [| |]| |]; try discriminate. eauto.
  - intros (q & n & Hl). rewrite Hl.
    destruct (is_link n) eqn:Hn.
    + destruct n; try discriminate. apply orb_true_r.
    + by rewrite (lstat_stat _ _ _ _ Hl Hn).
Qed.

(** C9.  The existence test behind the overwrite list and the removal before
    an install holds whenever the destination names a node of any kind, be it
    a file, a directory or a symbolic link, dangling links included: it is
    enough that [lstat] finds the path. *)
Theorem destination_exists_counts_every_node (fs : gmap path node) (p q : path) (n : node) :
  lstat fs p = Found q n → destination_exists fs p = true.
Proof. intros H. apply destination_exists_iff_lstat. eauto. Qed.

Lemma destination_exists_counts_every_node_witness :
  lstat example_fs_dangling ["home"; "u"; "bin"; "hello"]
    = Found ["home"; "u"; "bin"; "hello"] (Symlink ["nowhere"; "hello"])
  ∧ path_exists example_fs_dangling ["home"; "u"; "bin"; "hello"] = false
  ∧ destination_exists example_fs_dangling ["home"; "u"; "bin"; "hello"] = true.
Proof.
  split_and!; [vm_compute; reflexivity..|].
  eapply (destination_exists_counts_every_node example_fs_dangling
            ["home"; "u"; "bin"; "hello"]).
  vm_compute. reflexivity.
Defined.

(* ===================================================================== *)
(** * The PATH advisor: rendering and the choice of the start-up file *)
(* ===================================================================== *)

Lemma relative_to_Some (p base rel : path) :
  relative_to p base = Some rel ↔ p = base ++ rel.
Proof.
  revert p. induction base as [|b base IH]; intros p; simpl.
  - split; [by intros [= ->]|by intros ->].
  - destruct p as [|c p]; [split; [done|intros [=]]|].
    destruct (String.eqb_spec b c) as [->|Hne].
    + rewrite IH. split; [by intros ->|by intros [= ->]].
    + split; [done|]. intros [= -> _]. done.
Qed.

Lemma relative_to_None (p base : path) :
  relative_to p base = None ↔ ¬ ∃ rel, p = base ++ rel.
Proof.
  split.
  - intros H [rel Hrel]. apply relative_to_Some in Hrel. congruence.
  - intros H. destruct (relative_to p base) as [rel|] eqn:E; [|done].
    exfalso. apply H. exists rel. by apply relative_to_Some.
Qed.

(** C7.  Path rendering.  With both paths resolved, the rendered value is
    [$HOME] when the install directory is the home directory, [$HOME/] and
    the relative part when it lies strictly below the home directory, and the
    absolute path itself when the home directory is not a prefix of it. *)
Theorem format_posix_path_value_spec (fs : gmap path node) (p home_dir : path) :
  let normalized_path := resolve fs p in
  let normalized_home := resolve fs home_dir in
  (normalized_path = normalized_home →
     format_posix_path_value fs p home_dir = "$HOME") ∧
  (∀ c rel, normalized_path = normalized_home ++ c :: rel →
     format_posix_path_value fs p home_dir = "$HOME/" +:+ join "/" (c :: rel)) ∧
  ((¬ ∃ rel, normalized_path = normalized_home ++ rel) →
     format_posix_path_value fs p home_dir = path_str normalized_path).
Proof.
  intros np nh. unfold format_posix_path_value, expanduser. fold np nh.
  split_and!.
  - intros ->. by rewrite bool_decide_eq_true_2.
  - intros c rel Heq. rewrite bool_decide_eq_false_2.
    + apply relative_to_Some in Heq. by rewrite Heq.
    + rewrite Heq. intros H. rewrite <- (app_nil_r nh) in H at 2.
      by apply app_inv_head in H.
  - intros Hno. rewrite bool_decide_eq_false_2.
    + apply relative_to_None in Hno. by rewrite Hno.
    + intros H. apply Hno. exists []. by rewrite app_nil_r.
Qed.


Lemma format_posix_path_value_spec_witness :
  format_posix_path_value example_fs_paths ["home"; "u"; "bin"] ["home"; "u"]
    = "$HOME/bin"
  ∧ format_posix_path_value example_fs_paths ["home"; "u"] ["home"; "u"] = "$HOME"
  ∧ format_posix_path_value example_fs_paths ["opt"; "tools"] ["home"; "u"]
    = "/opt/tools".
Proof.
  split_and!.
  - destruct (format_posix_path_value_spec example_fs_paths
                ["home"; "u"; "bin"] ["home"; "u"]) as (_ & H & _).
    rewrite (H "bin" []); [reflexivity|]. vm_compute. reflexivity.
  - destruct (format_posix_path_value_spec example_fs_paths
                ["home"; "u"] ["home"; "u"]) as (H & _ & _).
    apply H. reflexivity.
  - destruct (format_posix_path_value_spec example_fs_paths
                ["opt"; "tools"] ["home"; "u"]) as (_ & _ & H).
    rewrite H; [vm_compute; reflexivity|].
    intros [rel Hrel]. vm_compute in Hrel. discriminate.
Defined.

Lemma choose_bash_rc_file_spec (fs : gmap path node) (home_dir : path) :
  let e1 := path_exists fs (home_dir // ".bashrc") in
  let e2 := path_exists fs (home_dir // ".bash_profile") in
  let e3 := path_exists fs (home_dir // ".profile") in
  choose_bash_rc_file fs home_dir =
  if e1 then home_dir // ".bashrc"
  else if e2 then home_dir // ".bash_profile"
  else if e3 then home_dir // ".profile"
  else home_dir // ".bashrc".
Proof.
  unfold choose_bash_rc_file. cbn [map find].
  destruct (path_exists fs (home_dir // ".bashrc")); [done|].
  destruct (path_exists fs (home_dir // ".bash_profile")); [done|].
  by destruct (path_exists fs (home_dir // ".profile")).
Qed.

(** C8.  The start-up file chosen from the shell variable.  With the shell
    name being the lower-cased last component of [SHELL]: [zsh] gives
    [~/.zshrc]; [bash] gives the first of [~/.bashrc], [~/.bash_profile] and
    [~/.profile] that exists, and [~/.bashrc] when none does; [fish] gives
    [~/.config/fish/config.fish]; every other name, and an unset variable,
    gives [~/.profile]. *)
Theorem detect_path_update_target_rc_file (env : environ) (fs : gmap path node)
    (install_dir : path) :
  let home := env_HOME env in
  let name := lower (pure_name (default EmptyString (env_SHELL env))) in
  let rc := rc_file (detect_path_update_target env fs install_dir) in
  (name = "zsh" → rc = home // ".zshrc") ∧
  (name = "bash" →
     rc = (if path_exists fs (home // ".bashrc") then home // ".bashrc"
           else if path_exists fs (home // ".bash_profile") then home // ".bash_profile"
           else if path_exists fs (home // ".profile") then home // ".profile"
           else home // ".bashrc")) ∧
  (name = "fish" → rc = home // ".config" // "fish" // "config.fish") ∧
  (name ≠ "zsh" → name ≠ "bash" → name ≠ "fish" → rc = home // ".profile") ∧
  (env_SHELL env = None → rc = home // ".profile").
Proof.
  intros home name rc. subst rc. unfold detect_path_update_target, expanduser.
  fold home name.
  split_and!.
  - intros ->. reflexivity.
  - intros ->. cbn. apply choose_bash_rc_file_spec.
  - intros ->. reflexivity.
  - intros H1 H2 H3.
    apply String.eqb_neq in H1, H2, H3. by rewrite H1, H2, H3.
  - intros HS. subst name. rewrite HS. reflexivity.
Qed.

Lemma detect_path_update_target_rc_file_witness :
  rc_file (detect_path_update_target (example_env_shell (Some "/bin/zsh"))
             example_fs_paths ["home"; "u"; "bin"]) = ["home"; "u"; ".zshrc"]
  ∧ rc_file (detect_path_update_target (example_env_shell (Some "/usr/bin/bash"))
               example_fs_bash_profile ["home"; "u"; "bin"])
    = ["home"; "u"; ".bash_profile"]
  ∧ rc_file (detect_path_update_target (example_env_shell (Some "/usr/bin/fish"))
               example_fs_paths ["home"; "u"; "bin"])
    = ["home"; "u"; ".config"; "fish"; "config.fish"]
  ∧ rc_file (detect_path_update_target (example_env_shell (Some "/bin/sh"))
               example_fs_paths ["home"; "u"; "bin"]) = ["home"; "u"; ".profile"]
  ∧ rc_file (detect_path_update_target (example_env_shell None)
               example_fs_paths ["home"; "u"; "bin"]) = ["home"; "u"; ".profile"].
Proof.
  split_and!.
  - destruct (detect_path_update_target_rc_file (example_env_shell (Some "/bin/zsh"))
                example_fs_paths ["home"; "u"; "bin"]) as (H & _).
    apply H. reflexivity.
  - destruct (detect_path_update_target_rc_file (example_env_shell (Some "/usr/bin/bash"))
                example_fs_bash_profile ["home"; "u"; "bin"]) as (_ & H & _).
    rewrite H; [vm_compute; reflexivity|reflexivity].
  - destruct (detect_path_update_target_rc_file (example_env_shell (Some "/usr/bin/fish"))
                example_fs_paths ["home"; "u"; "bin"]) as (_ & _ & H & _).
    apply H. reflexivity.
  - destruct (detect_path_update_target_rc_file (example_env_shell (Some "/bin/sh"))
                example_fs_paths ["home"; "u"; "bin"]) as (_ & _ & _ & H & _).
    apply H; vm_compute; discriminate.
  - destruct (detect_path_update_target_rc_file (example_env_shell None)
                example_fs_paths ["home"; "u"; "bin"]) as (_ & _ & _ & _ & H).
    apply H. reflexivity.
Defined.

(* ===================================================================== *)
(** * Early exits of [main] *)
(* ===================================================================== *)
Lemma bind_Ok {A B} (m : M A) (k : A → M B) (w w' : world) (a : A) :
  m w = (Ok a, w') → bind m k w = k a w'.
Proof. unfold bind. by intros ->. Qed.

Lemma bind_Raise {A B} (m : M A) (k : A → M B) (w w' : world) (e : exn) :
  m w = (Raise e, w') → bind m k w = (Raise e, w').
Proof. unfold bind. by intros ->. Qed.

Lemma for_each_print {A} (f : A → string) (l : list A) (w : world) :
  for_each l (λ x, print (f x)) w
  = (Ok tt, World (w_fs w) (w_stdin w) (w_stdout w ++ map f l)).
Proof.
  revert w. induction l as [|x l IH]; intros w.
  - destruct w. simpl. unfold ret. simpl. by rewrite app_nil_r.
  - cbn [for_each]. unfold bind at 1. unfold print at 1. rewrite IH. simpl.
    by rewrite <- app_assoc.
Qed.

(** Discovery only reads: it returns normally and leaves the world as it is. *)
Lemma discover_source_scripts_total (repo_root : path) (w : world) :
  ∃ valid invalid,
    discover_source_scripts repo_root w = (Ok (repo_root // "bin", valid, invalid), w).
Proof.
  unfold discover_source_scripts.
  rewrite (bind_Ok get_fs _ w w (w_fs w)) by reflexivity.
  destruct (is_dir (w_fs w) (repo_root // "bin")) eqn:Hdir; simpl.
  - destruct (iterdir_is_dir _ _ Hdir) as (q & m & _ & Hiter).
    rewrite (bind_Ok _ _ _ _ _ Hiter).
    destruct (classify _ _ _ _) as [v i]. eauto.
  - by exists [], [].
Qed.

(** C2.  The validation gate.  When discovery returns a non-empty invalid
    list, whatever valid scripts it also returns, the run prints the header,
    one line per invalid name and the request to rename, ends with status 2,
    and leaves the file system (and the terminal input) exactly as it was. *)
Theorem invalid_names_abort (env : environ) (args : Args) (w : world)
    (source_dir : path) (valid invalid : list path) :
  discover_source_scripts (detect_repo_root env (w_fs w)) w
    = (Ok (source_dir, valid, invalid), w) →
  invalid ≠ [] →
  run env args w =
    (2, World (w_fs w) (w_stdin w)
          (w_stdout w
           ++ ["The following bin scripts do not follow lowercase kebab-case naming:"]
           ++ map (λ p, "  - " +:+ path_name p) invalid
           ++ ["Rename these files before installing."])).
Proof.
  intros Hdisc Hne. unfold run, main.
  rewrite (bind_Ok get_fs _ w w (w_fs w)) by reflexivity.
  rewrite (bind_Ok _ _ _ _ _ Hdisc).
  destruct invalid as [|p invalid]; [done|].
  unfold bind at 1. unfold print at 1.
  unfold bind at 1. rewrite for_each_print.
  unfold bind, print, ret. simpl.
  by rewrite <- !app_assoc.
Qed.

Lemma invalid_names_abort_witness :
  run example_env (example_args true) (World example_fs_invalid [] [])
  = (2, World example_fs_invalid [] [
          "The following bin scripts do not follow lowercase kebab-case naming:";
          "  - BadName";
          "Rename these files before installing." ]).
Proof.
  rewrite (invalid_names_abort example_env (example_args true)
             (World example_fs_invalid [] []) ["repo"; "bin"]
             [["repo"; "bin"; "baz.sh"]; ["repo"; "bin"; "foo-bar"]]
             [["repo"; "bin"; "BadName"]]).
  - reflexivity.
  - vm_compute. reflexivity.
  - discriminate.
Defined.

(** C10.  A missing source directory is not an error.  When the repository
    root has no [bin] directory, discovery returns both lists empty without
    raising, and the run prints that nothing is installable, ends with
    status 0 and changes nothing in the file system. *)
Theorem missing_bin_directory (env : environ) (args : Args) (w : world)
    (repo_root : path) :
  is_dir (w_fs w) (repo_root // "bin") = false →
  discover_source_scripts repo_root w = (Ok (repo_root // "bin", [], []), w)
  ∧ (detect_repo_root env (w_fs w) = repo_root →
     run env args w =
       (0, World (w_fs w) (w_stdin w)
             (w_stdout w ++ ["No installable scripts found in "
                             +:+ path_str (repo_root // "bin") +:+ "."]))).
Proof.
  intros Hdir.
  assert (Hdisc : discover_source_scripts repo_root w
                  = (Ok (repo_root // "bin", [], []), w)).
  { unfold discover_source_scripts.
    rewrite (bind_Ok get_fs _ w w (w_fs w)) by reflexivity.
    by rewrite Hdir. }
  split; [done|]. intros Hroot.
  unfold run, main.
  rewrite (bind_Ok get_fs _ w w (w_fs w)) by reflexivity.
  rewrite Hroot, (bind_Ok _ _ _ _ _ Hdisc).
  reflexivity.
Qed.

Lemma missing_bin_directory_witness :
  is_dir example_fs_no_bin (["repo"; "tools"] // "bin") = false
  ∧ discover_source_scripts ["repo"; "tools"] (World example_fs_no_bin [] [])
    = (Ok (["repo"; "tools"; "bin"], [], []), World example_fs_no_bin [] [])
  ∧ run example_env (example_args true) (World example_fs_no_bin [] [])
    = (0, World example_fs_no_bin [] [
            "No installable scripts found in /repo/tools/bin." ]).
Proof.
  assert (Hdir : is_dir example_fs_no_bin (["repo"; "tools"] // "bin") = false)
    by (vm_compute; reflexivity).
  destruct (missing_bin_directory example_env (example_args true)
              (World example_fs_no_bin [] []) ["repo"; "tools"] Hdir) as [Hd Hr].
  split_and!; [exact Hdir|exact Hd|].
  rewrite Hr; [reflexivity|]. vm_compute. reflexivity.
Defined.

(** ** Canonical directories and the walk *)

Lemma real_dir_nil (fs : gmap path node) : real_dir fs [].
Proof. intros pre Hpre Hne. apply prefix_nil_inv in Hpre. done. Qed.

Lemma prefix_snoc_inv {A} (pre d : list A) (c : A) :
  pre `prefix_of` d ++ [c] → pre = d ++ [c] ∨ pre `prefix_of` d.
Proof.
  intros [k Hk]. destruct k as [|x k _] using rev_ind.
  - left. by rewrite app_nil_r in Hk.
  - right. rewrite app_assoc in Hk. apply app_inj_tail in Hk as [-> _].
    by exists k.
Qed.

Lemma real_dir_snoc (fs : gmap path node) (d : path) (c : string) (m : Z) :
  real_dir fs d → fs !! (d ++ [c]) = Some (Dir m) → real_dir fs (d ++ [c]).
Proof.
  intros Hd Hc pre Hpre Hne.
  apply prefix_snoc_inv in Hpre as [-> | Hpre]; [eauto|by apply Hd].
Qed.

Lemma real_dir_prefix (fs : gmap path node) (d d' : path) :
  real_dir fs d → d' `prefix_of` d → real_dir fs d'.
Proof. intros Hd Hpre pre Hpre' Hne. apply Hd; [by etrans|done]. Qed.

Lemma removelast_prefix (d : path) : removelast d `prefix_of` d.
Proof.
  destruct d as [|c d] using rev_ind; [done|].
  rewrite removelast_last. by apply prefix_app_r.
Qed.

Lemma real_dir_node_at (fs : gmap path node) (d : path) :
  real_dir fs d → ∃ m, node_at fs d = Some (Dir m).
Proof.
  intros Hd. destruct d as [|c d]; [by eexists|].
  apply (Hd (c :: d)); done.
Qed.

(** Whatever the walk finds below a canonical directory, it first found the
    directory that holds the last component. *)
Lemma walk_found_parent (fuel : nat) (fs : gmap path node) (follow : bool)
    (cur : path) (rest : list string) (c : string) (q : path) (n : node) :
  real_dir fs cur →
  walk fuel fs follow cur (rest ++ [c]) = Found q n →
  ∃ d m, walk fuel fs true cur rest = Found d (Dir m).
Proof.
  revert cur rest. induction fuel as [|fuel IHf]; [done|].
  intros cur rest. revert cur. induction rest as [|c' rest IHr]; intros cur Hcur.
  - intros _. rewrite walk_nil.
    destruct (real_dir_node_at _ _ Hcur) as [m ->]. eauto.
  - rewrite <- app_comm_cons, !walk_cons.
    destruct (String.eqb c' "."); [by apply IHr|].
    destruct (String.eqb c' "..").
    { apply IHr. eapply real_dir_prefix; [done|apply removelast_prefix]. }
    destruct (fs !! (cur ++ [c'])) as [[m d|m|t]|] eqn:Hlook.
    + by destruct rest.
    + apply IHr. by eapply real_dir_snoc.
    + rewrite app_assoc.
      assert (walk fuel fs follow [] ((t ++ rest) ++ [c]) = Found q n →
              ∃ d m, walk fuel fs true [] (t ++ rest) = Found d (Dir m)) as IH.
      { apply IHf, real_dir_nil. }
      destruct rest; simpl; [|exact IH].
      destruct follow; exact IH.
    + by destruct rest.
Qed.

Lemma destination_exists_is_dir (fs : gmap path node) (d : path) (name : string) :
  destination_exists fs (d // name) = true → is_dir fs d = true.
Proof.
  intros (q & n & Hl)%destination_exists_iff_lstat.
  unfold lstat, path_join in Hl.
  apply walk_found_parent in Hl as (d' & m & Hd); [|apply real_dir_nil].
  unfold is_dir, stat. by rewrite Hd.
Qed.

(** ** An existing directory is left alone by [mkdir] *)

Lemma os_mkdir_exists (env : environ) (p : path) (w : world) :
  is_dir (w_fs w) p = true →
  os_mkdir env p w = (Raise (os_error EEXIST p), w).
Proof.
  unfold is_dir. intros Hdir. unfold os_mkdir.
  rewrite (bind_Ok get_fs _ w w (w_fs w)) by reflexivity.
  destruct (stat (w_fs w) p) as [q n| |] eqn:Hs; try discriminate.
  destruct (stat_lstat _ _ _ _ Hs) as (q' & n' & ->). reflexivity.
Qed.

Lemma mkdir_parents_is_dir (env : environ) (p : path) (w : world) :
  is_dir (w_fs w) p = true → mkdir_parents env p w = (Ok tt, w).
Proof.
  intros Hdir. unfold mkdir_parents.
  assert (Hmk := os_mkdir_exists env p w Hdir).
  rewrite <- (rev_involutive p) in Hmk, Hdir.
  destruct (rev p) as [|c rp]; cbn [mkdir_parents_rev];
    rewrite Hmk; unfold os_error; by rewrite Hdir.
Qed.

Lemma confirm_overwrites_declined (p : path) (ps : list path) (w : world)
    (response : string) (rest : list string) :
  w_stdin w = response :: rest →
  affirmative (lower (strip response)) = false →
  confirm_overwrites (p :: ps) false w =
    (Ok false,
     World (w_fs w) rest
       (w_stdout w ++ ["The following files already exist and will be replaced:"]
        ++ map (λ p, "  - " +:+ path_str p) (p :: ps)
        ++ ["Continue with overwrite? [y/N]: "])).
Proof.
  intros Hin Hno. unfold confirm_overwrites.
  unfold bind at 1. unfold print at 1.
  unfold bind at 1. rewrite for_each_print.
  unfold bind, input, ret. cbn [w_fs w_stdin w_stdout]. rewrite Hin, Hno.
  by rewrite <- !app_assoc.
Qed.

(** C5.  Declining the overwrite.  When some destination already exists,
    [--yes] is absent and the answer typed is not [y] or [yes] (after
    stripping and lower-casing; the empty answer included), the run ends with
    status 1 after the cancellation message, and the file system is exactly
    what it was: nothing was removed, replaced or created. *)
Theorem declined_overwrite_aborts (env : environ) (args : Args) (w : world)
    (source_dir : path) (sources : list path) (s : path)
    (response : string) (rest : list string) :
  discover_source_scripts (detect_repo_root env (w_fs w)) w
    = (Ok (source_dir, sources, []), w) →
  s ∈ sources →
  destination_exists (w_fs w)
    (resolve (w_fs w) (install_dir_arg args) // path_name s) = true →
  yes_arg args = false →
  w_stdin w = response :: rest →
  affirmative (lower (strip response)) = false →
  ∃ out, run env args w
         = (1, World (w_fs w) rest (w_stdout w ++ out ++ ["Installation cancelled."])).
Proof.
  intros Hdisc Hs Hdest Hyes Hin Hno. unfold run, main.
  rewrite (bind_Ok get_fs _ w w (w_fs w)) by reflexivity.
  rewrite (bind_Ok _ _ _ _ _ Hdisc). unfold expanduser.
  set (install_dir := resolve (w_fs w) (install_dir_arg args)) in *.
  destruct sources as [|s0 sources]; [by apply elem_of_nil in Hs|].
  rewrite (bind_Ok _ _ _ _ _ (mkdir_parents_is_dir env install_dir w
             (destination_exists_is_dir _ _ _ Hdest))).
  rewrite (bind_Ok get_fs _ w w (w_fs w)) by reflexivity.
  set (overwrite_paths := filter _ _).
  assert (Hmem : install_dir // path_name s ∈ overwrite_paths).
  { apply list_elem_of_filter. split; [done|].
    apply (list_elem_of_fmap_2 (λ source_path, install_dir // path_name source_path)).
    done. }
  destruct overwrite_paths as [|p ps]; [by apply elem_of_nil in Hmem|].
  rewrite Hyes.
  rewrite (bind_Ok _ _ _ _ _ (confirm_overwrites_declined p ps w response rest Hin Hno)).
  cbn [negb]. unfold bind, print, ret. cbn [w_fs w_stdin w_stdout exit_status].
  exists (["The following files already exist and will be replaced:"]
          ++ map (λ p, "  - " +:+ path_str p) (p :: ps)
          ++ ["Continue with overwrite? [y/N]: "]).
  by rewrite <- !app_assoc.
Qed.

Lemma declined_overwrite_aborts_witness :
  ∃ out, run example_env (example_args false) (World example_fs_installed ["n"] [])
         = (1, World example_fs_installed [] ([] ++ out ++ ["Installation cancelled."])).
Proof.
  apply (declined_overwrite_aborts example_env (example_args false)
           (World example_fs_installed ["n"] []) ["repo"; "bin"]
           [["repo"; "bin"; "hello"]] ["repo"; "bin"; "hello"] "n" []).
  - vm_compute. reflexivity.
  - apply list_elem_of_here.
  - vm_compute. reflexivity.
  - reflexivity.
  - reflexivity.
  - vm_compute. reflexivity.
Defined.

(* ===================================================================== *)
(** * The install loop *)
(* ===================================================================== *)

(** ** Walking through a canonical directory *)

Lemma plain_name_eqb (c : string) :
  plain_name c → String.eqb c "." = false ∧ String.eqb c ".." = false.
Proof. intros [H1 H2]. by rewrite !String.eqb_neq. Qed.

Lemma walk_through (fuel : nat) (fs : gmap path node) (follow : bool)
    (cur d : path) (rest : list string) :
  real_dir fs (cur ++ d) → Forall plain_name d →
  walk (S fuel) fs follow cur (d ++ rest) = walk (S fuel) fs follow (cur ++ d) rest.
Proof.
  revert cur. induction d as [|c d IH]; intros cur Hreal Hplain.
  - by rewrite app_nil_r.
  - apply Forall_cons in Hplain as [Hc Hd].
    destruct (plain_name_eqb c Hc) as [E1 E2].
    rewrite <- app_comm_cons, walk_cons, E1, E2.
    destruct (Hreal (cur ++ [c])) as [m ->].
    + rewrite (cons_middle c cur d), app_assoc. by apply prefix_app_r.
    + by destruct cur.
    + rewrite (cons_middle c cur d), app_assoc in Hreal |- *. by apply IH.
Qed.

Lemma lstat_canonical (fs : gmap path node) (d : path) (name : string) :
  real_dir fs d → Forall plain_name d → plain_name name →
  lstat fs (d // name) =
  match fs !! (d ++ [name]) with
  | None => Absent d name
  | Some n => Found (d ++ [name]) n
  end.
Proof.
  intros Hreal Hplain Hname. unfold lstat, path_join.
  rewrite (walk_through _ _ _ [] d [name]) by done. cbn [app].
  destruct (plain_name_eqb name Hname) as [E1 E2].
  rewrite walk_cons, E1, E2.
  destruct (fs !! (d ++ [name])) as [[perm data|m|t]|] eqn:Hlook; try done.
  rewrite walk_nil. unfold node_at. rewrite Hlook. by destruct d.
Qed.

Lemma stat_canonical (fs : gmap path node) (d : path) (name : string) :
  real_dir fs d → Forall plain_name d → plain_name name →
  stat fs (d // name) =
  match fs !! (d ++ [name]) with
  | None => Absent d name
  | Some (Symlink t) => walk MAXSYMLINKS fs true [] t
  | Some n => Found (d ++ [name]) n
  end.
Proof.
  intros Hreal Hplain Hname. unfold stat, path_join.
  rewrite (walk_through _ _ _ [] d [name]) by done. cbn [app].
  destruct (plain_name_eqb name Hname) as [E1 E2].
  rewrite walk_cons, E1, E2.
  destruct (fs !! (d ++ [name])) as [[perm data|m|t]|] eqn:Hlook; try done.
  - rewrite walk_nil. unfold node_at. rewrite Hlook. by destruct d.
  - by rewrite app_nil_r.
Qed.

(** A walk that found a node finds it again after a node was added at a
    place that was free. *)
Lemma walk_insert_fresh (fuel : nat) (fs : gmap path node) (follow : bool)
    (cur : path) (rest : list string) (q k : path) (n v : node) :
  fs !! k = None →
  walk fuel fs follow cur rest = Found q n →
  walk fuel (<[k := v]> fs) follow cur rest = Found q n.
Proof.
  intros Hk. revert cur rest. induction fuel as [|fuel IHf]; [done|].
  intros cur rest. revert cur. induction rest as [|c rest IHr]; intros cur.
  - rewrite !walk_nil. unfold node_at. destruct cur as [|c cur]; [done|].
    destruct (fs !! (c :: cur)) as [n'|] eqn:Hlook; [|done].
    rewrite lookup_insert_ne; [by rewrite Hlook|congruence].
  - rewrite !walk_cons.
    destruct (String.eqb c "."); [apply IHr|].
    destruct (String.eqb c ".."); [apply IHr|].
    destruct (fs !! (cur ++ [c])) as [n'|] eqn:Hlook.
    + rewrite lookup_insert_ne by congruence. rewrite Hlook.
      destruct n' as [perm data|m|t]; [done|apply IHr|].
      destruct rest; [destruct follow|]; [apply IHf|done|apply IHf].
    + by destruct rest.
Qed.

Lemma real_dir_insert_child (fs : gmap path node) (d : path) (name : string) (v : node) :
  real_dir fs d → real_dir (<[d ++ [name] := v]> fs) d.
Proof.
  intros Hreal pre Hpre Hne. rewrite lookup_insert_ne; [by apply Hreal|].
  intros <-. by apply prefix_snoc_not in Hpre.
Qed.

Lemma real_dir_delete_child (fs : gmap path node) (d : path) (name : string) :
  real_dir fs d → real_dir (delete (d ++ [name]) fs) d.
Proof.
  intros Hreal pre Hpre Hne. rewrite lookup_delete_ne; [by apply Hreal|].
  intros <-. by apply prefix_snoc_not in Hpre.
Qed.

(** ** The file operations on an entry of a canonical directory *)

Section canonical_entry.
Context (env : environ) (w : world) (d : path) (name : string).
Hypothesis Hreal : real_dir (w_fs w) d.
Hypothesis Hplain : Forall plain_name d.
Hypothesis Hname : plain_name name.

Lemma get_fs_eq : get_fs w = (Ok (w_fs w), w).
Proof. reflexivity. Qed.

Lemma unlink_canonical (n : node) :
  w_fs w !! (d ++ [name]) = Some n → (∀ m, n ≠ Dir m) →
  unlink (d // name) w = (Ok tt, with_fs w (delete (d ++ [name]) (w_fs w))).
Proof.
  intros Hlook Hn. unfold unlink. rewrite (bind_Ok _ _ _ _ _ get_fs_eq).
  rewrite (lstat_canonical _ _ _ Hreal Hplain Hname). rewrite Hlook.
  destruct n as [perm data|m|t]; try reflexivity. exfalso. by apply (Hn m).
Qed.

Lemma symlink_to_canonical (target : path) :
  w_fs w !! (d ++ [name]) = None →
  symlink_to (d // name) target w
  = (Ok tt, with_fs w (<[d ++ [name] := Symlink target]> (w_fs w))).
Proof.
  intros Hlook. unfold symlink_to. rewrite (bind_Ok _ _ _ _ _ get_fs_eq).
  rewrite (lstat_canonical _ _ _ Hreal Hplain Hname). by rewrite Hlook.
Qed.

Lemma write_text_canonical (text : string) :
  w_fs w !! (d ++ [name]) = None →
  write_text env (d // name) text w
  = (Ok tt, with_fs w (<[d ++ [name] := File (create_perm env 438) text]> (w_fs w))).
Proof.
  intros Hlook. unfold write_text. rewrite (bind_Ok _ _ _ _ _ get_fs_eq).
  rewrite (stat_canonical _ _ _ Hreal Hplain Hname). by rewrite Hlook.
Qed.

Lemma chmod_canonical (perm : Z) (data : string) (mode : Z) :
  w_fs w !! (d ++ [name]) = Some (File perm data) →
  chmod (d // name) mode w
  = (Ok tt, with_fs w (<[d ++ [name] := File (S_IMODE mode) data]> (w_fs w))).
Proof.
  intros Hlook. unfold chmod. rewrite (bind_Ok _ _ _ _ _ get_fs_eq).
  rewrite (stat_canonical _ _ _ Hreal Hplain Hname). by rewrite Hlook.
Qed.

Lemma stat_st_mode_canonical (perm : Z) (data : string) :
  w_fs w !! (d ++ [name]) = Some (File perm data) →
  stat_st_mode (d // name) w = (Ok (st_mode (File perm data)), w).
Proof.
  intros Hlook. unfold stat_st_mode. rewrite (bind_Ok _ _ _ _ _ get_fs_eq).
  rewrite (stat_canonical _ _ _ Hreal Hplain Hname). by rewrite Hlook.
Qed.

End canonical_entry.

Lemma S_IMODE_idemp (mode : Z) : S_IMODE (S_IMODE mode) = S_IMODE mode.
Proof. unfold S_IMODE. by rewrite <- Z.land_assoc. Qed.

Lemma S_IMODE_after_chmod (mode : Z) :
  S_IMODE (Z.lor (Z.lor S_IFREG (S_IMODE mode)) S_IXUSR) = Z.lor (S_IMODE mode) S_IXUSR.
Proof.
  unfold S_IMODE, S_IFREG, S_IXUSR.
  rewrite !Z.land_lor_distr_l, <- Z.land_assoc. reflexivity.
Qed.

Lemma with_fs_id (w : world) : with_fs w (w_fs w) = w.
Proof. by destruct w. Qed.

(** The removal of what is in the way, before the copy or the link. *)
Lemma install_one_clear (w : world) (d : path) (name : string) :
  real_dir (w_fs w) d → Forall plain_name d → plain_name name →
  (let* fs := get_fs in
   if destination_exists fs (d // name) then
     if is_dir fs (d // name) && negb (is_symlink fs (d // name)) then
       raise (OSError EISDIR ("Cannot replace directory with script file: "
                              +:+ path_str (d // name)))
     else unlink (d // name)
   else ret tt) w
  = match w_fs w !! (d ++ [name]) with
    | Some (Dir _) => (Raise (cannot_replace_directory (d // name)), w)
    | _ => (Ok tt, with_fs w (delete (d ++ [name]) (w_fs w)))
    end.
Proof.
  intros Hreal Hplain Hname.
  rewrite (bind_Ok _ _ _ _ _ (get_fs_eq w)).
  unfold destination_exists, path_exists, is_dir, is_symlink.
  rewrite (lstat_canonical _ _ _ Hreal Hplain Hname).
  rewrite (stat_canonical _ _ _ Hreal Hplain Hname).
  destruct (w_fs w !! (d ++ [name])) as [[perm data|m|t]|] eqn:Hlook.
  - cbn. by apply (unlink_canonical w d name Hreal Hplain Hname (File perm data)).
  - reflexivity.
  - rewrite orb_true_r, andb_false_r.
    by apply (unlink_canonical w d name Hreal Hplain Hname (Symlink t)).
  - cbn. by rewrite delete_id, with_fs_id.
Qed.

(** [copy2] onto a free place of a canonical directory. *)
Lemma copy2_canonical (env : environ) (w : world) (d : path) (name : string)
    (s : path) :
  real_dir (w_fs w) d → Forall plain_name d → plain_name name →
  w_fs w !! (d ++ [name]) = None →
  copy2 env s (d // name) w
  = match stat (w_fs w) s with
    | Found _ (File perm data) =>
        (Ok tt, with_fs w (<[d ++ [name] :=
                   File (S_IMODE (st_mode (File perm data))) data]> (w_fs w)))
    | Found _ _ => (Raise (os_error EISDIR s), w)
    | Absent _ _ => (Raise (os_error ENOENT s), w)
    | Fail e => (Raise (os_error e s), w)
    end.
Proof.
  intros Hreal Hplain Hname Hfree.
  assert (Hdst : stat (w_fs w) (d // name) = Absent d name).
  { rewrite (stat_canonical _ _ _ Hreal Hplain Hname). by rewrite Hfree. }
  unfold copy2.
  rewrite (bind_Ok _ _ _ _ _ (get_fs_eq w)).
  unfold is_dir. rewrite Hdst. cbv beta iota.
  assert (Hsame : samefile (w_fs w) s (d // name) = false).
  { unfold samefile. rewrite Hdst. by destruct (stat (w_fs w) s). }
  rewrite Hsame.
  assert (Hread : read_text s w =
                  match stat (w_fs w) s with
                  | Found _ (File _ data) => (Ok data, w)
                  | Found _ _ => (Raise (os_error EISDIR s), w)
                  | Absent _ _ => (Raise (os_error ENOENT s), w)
                  | Fail e => (Raise (os_error e s), w)
                  end).
  { unfold read_text. rewrite (bind_Ok _ _ _ _ _ (get_fs_eq w)).
    by destruct (stat (w_fs w) s) as [q [| |]| |]. }
  destruct (stat (w_fs w) s) as [q [perm data|m|t]| |] eqn:Hsrc;
    try (by rewrite (bind_Raise _ _ _ _ _ Hread)).
  rewrite (bind_Ok _ _ _ _ _ Hread).
  set (fs2 := <[d ++ [name] := File (create_perm env 438) data]> (w_fs w)).
  rewrite (bind_Ok _ _ _ _ _ (write_text_canonical env w d name Hreal Hplain Hname data Hfree)).
  fold fs2.
  assert (Hreal2 : real_dir (w_fs (with_fs w fs2)) d) by by apply real_dir_insert_child.
  assert (Hmode : stat_st_mode s (with_fs w fs2)
                  = (Ok (st_mode (File perm data)), with_fs w fs2)).
  { unfold stat_st_mode. rewrite (bind_Ok _ _ _ _ _ (get_fs_eq _)).
    cbn [w_fs with_fs]. unfold stat, fs2.
    by rewrite (walk_insert_fresh _ _ _ _ _ _ _ _ _ Hfree Hsrc). }
  rewrite (bind_Ok _ _ _ _ _ Hmode).
  rewrite (chmod_canonical (with_fs w fs2) d name Hreal2 Hplain Hname
             (create_perm env 438) data); [|apply lookup_insert_eq].
  cbn [w_fs with_fs w_stdin w_stdout]. unfold fs2.
  by rewrite insert_insert_eq, S_IMODE_idemp.
Qed.

(** The copy and the change of mode that follows it. *)
Lemma install_one_copy (env : environ) (w : world) (d : path) (name : string)
    (s : path) :
  real_dir (w_fs w) d → Forall plain_name d → plain_name name →
  w_fs w !! (d ++ [name]) = None →
  (copy2 env s (d // name) >>
   let* mode := stat_st_mode (d // name) in
   chmod (d // name) (Z.lor mode S_IXUSR)) w
  = match stat (w_fs w) s with
    | Found _ (File perm data) =>
        (Ok tt, with_fs w (<[d ++ [name] :=
                   File (Z.lor (S_IMODE (st_mode (File perm data))) S_IXUSR) data]>
                 (w_fs w)))
    | Found _ _ => (Raise (os_error EISDIR s), w)
    | Absent _ _ => (Raise (os_error ENOENT s), w)
    | Fail e => (Raise (os_error e s), w)
    end.
Proof.
  intros Hreal Hplain Hname Hfree.
  assert (Hcopy := copy2_canonical env w d name s Hreal Hplain Hname Hfree).
  destruct (stat (w_fs w) s) as [q [perm data|m|t]| |] eqn:Hsrc;
    try (by rewrite (bind_Raise _ _ _ _ _ Hcopy)).
  rewrite (bind_Ok _ _ _ _ _ Hcopy).
  set (fs3 := <[d ++ [name] := File (S_IMODE (st_mode (File perm data))) data]> (w_fs w)).
  assert (Hreal3 : real_dir (w_fs (with_fs w fs3)) d) by by apply real_dir_insert_child.
  assert (Hlook3 : w_fs (with_fs w fs3) !! (d ++ [name])
                   = Some (File (S_IMODE (st_mode (File perm data))) data))
    by apply lookup_insert_eq.
  rewrite (bind_Ok _ _ _ _ _
             (stat_st_mode_canonical (with_fs w fs3) d name Hreal3 Hplain Hname _ _ Hlook3)).
  rewrite (chmod_canonical (with_fs w fs3) d name Hreal3 Hplain Hname _ _ _ Hlook3).
  cbn [w_fs with_fs w_stdin w_stdout]. unfold fs3.
  rewrite insert_insert_eq.
  change (st_mode (File (S_IMODE (st_mode (File perm data))) data))
    with (Z.lor S_IFREG (S_IMODE (st_mode (File perm data)))).
  by rewrite S_IMODE_after_chmod.
Qed.

Lemma install_one_spec (env : environ) (w : world) (d : path) (use_symlink : bool)
    (s : path) :
  real_dir (w_fs w) d → Forall plain_name d → plain_name (path_name s) →
  install_one env d use_symlink s w = install_one_outcome w d use_symlink s.
Proof.
  intros Hreal Hplain Hname. unfold install_one, install_one_outcome. cbv zeta.
  unfold bind at 1. rewrite (install_one_clear w d (path_name s) Hreal Hplain Hname).
  set (kd := d ++ [path_name s]). set (fs1 := delete kd (w_fs w)).
  assert (Hreal1 : real_dir (w_fs (with_fs w fs1)) d) by by apply real_dir_delete_child.
  assert (Hfree : w_fs (with_fs w fs1) !! kd = None) by apply lookup_delete_eq.
  assert (Hgo : (let* _ := (if use_symlink
                   then let* fs := get_fs in symlink_to (d // path_name s) (resolve fs s)
                   else copy2 env s (d // path_name s) >>
                        let* mode := stat_st_mode (d // path_name s) in
                        chmod (d // path_name s) (Z.lor mode S_IXUSR)) in
                 ret (d // path_name s)) (with_fs w fs1)
                = if use_symlink then
                    (Ok (d // path_name s),
                     with_fs w (<[kd := Symlink (resolve fs1 s)]> fs1))
                  else
                    match stat fs1 s with
                    | Found _ (File perm data) =>
                        (Ok (d // path_name s),
                         with_fs w (<[kd := File (Z.lor (S_IMODE (st_mode (File perm data)))
                                                   S_IXUSR) data]> fs1))
                    | Found _ _ => (Raise (os_error EISDIR s), with_fs w fs1)
                    | Absent _ _ => (Raise (os_error ENOENT s), with_fs w fs1)
                    | Fail e => (Raise (os_error e s), with_fs w fs1)
                    end).
  { destruct use_symlink.
    - unfold bind at 1. rewrite (bind_Ok _ _ _ _ _ (get_fs_eq _)).
      by rewrite (symlink_to_canonical (with_fs w fs1) d (path_name s)
                    Hreal1 Hplain Hname _ Hfree).
    - unfold bind at 1.
      rewrite (install_one_copy env (with_fs w fs1) d (path_name s) s
                 Hreal1 Hplain Hname Hfree).
      cbn [w_fs with_fs w_stdin w_stdout].
      by destruct (stat fs1 s) as [q [| |]| |]. }
  destruct (w_fs w !! kd) as [[perm data|m|t]|]; try exact Hgo. reflexivity.
Qed.

(** ** Invariants of one round and of the loop *)

Lemma install_one_outcome_inv (w w' : world) (d : path) (use_symlink : bool)
    (s : path) (r : result path) :
  real_dir (w_fs w) d →
  install_one_outcome w d use_symlink s = (r, w') →
  real_dir (w_fs w') d
  ∧ (∀ k m, w_fs w !! k = Some (Dir m) → w_fs w' !! k = Some (Dir m))
  ∧ (∀ k, k ≠ d ++ [path_name s] → w_fs w' !! k = w_fs w !! k)
  ∧ w_stdin w' = w_stdin w ∧ w_stdout w' = w_stdout w
  ∧ (∀ e, r = Raise e → is_OSError e)
  ∧ (∀ p, r = Ok p → p = d // path_name s).
Proof.
  intros Hreal. unfold install_one_outcome.
  set (kd := d ++ [path_name s]). set (fs1 := delete kd (w_fs w)).
  assert (Hdel : real_dir fs1 d
                 ∧ (∀ k m, w_fs w !! k = Some (Dir m) → k ≠ kd → fs1 !! k = Some (Dir m))
                 ∧ (∀ k, k ≠ kd → fs1 !! k = w_fs w !! k)).
  { split_and!.
    - by apply real_dir_delete_child.
    - intros k m Hk Hne. unfold fs1. by rewrite lookup_delete_ne.
    - intros k Hne. unfold fs1. by rewrite lookup_delete_ne. }
  destruct Hdel as (Hreal1 & Hdir1 & Hother1).
  assert (Hins : ∀ v, (∀ m, w_fs w !! kd ≠ Some (Dir m)) →
            real_dir (<[kd := v]> fs1) d
            ∧ (∀ k m, w_fs w !! k = Some (Dir m) → <[kd := v]> fs1 !! k = Some (Dir m))
            ∧ (∀ k, k ≠ kd → <[kd := v]> fs1 !! k = w_fs w !! k)).
  { intros v Hnd. split_and!.
    - by apply real_dir_insert_child.
    - intros k m Hk. destruct (decide (k = kd)) as [->|Hne]; [by destruct (Hnd m)|].
      rewrite lookup_insert_ne by done. by apply Hdir1.
    - intros k Hne. rewrite lookup_insert_ne by done. by apply Hother1. }
  assert (Herr : ∀ n p, is_OSError (os_error n p)) by (intros; by eexists _, _).
  destruct (w_fs w !! kd) as [[perm data|m|t]|] eqn:Hlook.
  2:{ intros [= <- <-]. split_and!; try done.
      intros e [= <-]. by eexists _, _. }
  all: match type of Hins with
       | ∀ v, ?P → _ => assert (Hnd : P) by (intros m'; discriminate)
       end.
  all: destruct use_symlink.
  all: try (intros [= <- <-];
            destruct (Hins (Symlink (resolve fs1 s)) Hnd) as (? & ? & ?);
            split_and!; try done; by intros p [= <-]).
  all: destruct (stat fs1 s) as [q [perm' data'|m'|t']| |]; intros [= <- <-].
  all: try (destruct (Hins (File (Z.lor (S_IMODE (st_mode (File perm' data'))) S_IXUSR)
                             data') Hnd) as (? & ? & ?);
            split_and!; try done; by intros p [= <-]).
  all: split_and!; try done.
  all: first [ intros k m0 Hk; cbn [w_fs with_fs]; apply Hdir1; [done|];
               intros ->; congruence
             | intros e0 [= <-]; apply Herr ].
Qed.

Lemma install_loop_cons (env : environ) (s : path) (rest : list path) (d : path)
    (use_symlink : bool) (acc : list path) (w : world) :
  install_loop env (s :: rest) d use_symlink acc w =
  match install_one env d use_symlink s w with
  | (Ok p, w1) => install_loop env rest d use_symlink (acc ++ [p]) w1
  | (Raise e, w1) => (Raise e, w1)
  end.
Proof. reflexivity. Qed.

Lemma install_loop_app (env : environ) (l1 l2 : list path) (d : path)
    (use_symlink : bool) (acc : list path) (w : world) :
  install_loop env (l1 ++ l2) d use_symlink acc w =
  match install_loop env l1 d use_symlink acc w with
  | (Ok ps, w1) => install_loop env l2 d use_symlink ps w1
  | (Raise e, w1) => (Raise e, w1)
  end.
Proof.
  revert acc w. induction l1 as [|s l1 IH]; intros acc w; [done|].
  rewrite <- app_comm_cons, !install_loop_cons.
  destruct (install_one env d use_symlink s w) as [[p|e] w1]; [apply IH|done].
Qed.

Section install_loop.
Context (env : environ) (d : path) (use_symlink : bool).
Hypothesis Hplain : Forall plain_name d.

Lemma install_loop_inv (l : list path) (acc : list path) (w w' : world)
    (r : result (list path)) :
  real_dir (w_fs w) d →
  Forall (λ s, plain_name (path_name s)) l →
  install_loop env l d use_symlink acc w = (r, w') →
  real_dir (w_fs w') d
  ∧ (∀ k m, w_fs w !! k = Some (Dir m) → w_fs w' !! k = Some (Dir m))
  ∧ (∀ k, (∀ s, s ∈ l → k ≠ d ++ [path_name s]) → w_fs w' !! k = w_fs w !! k)
  ∧ w_stdin w' = w_stdin w ∧ w_stdout w' = w_stdout w
  ∧ (∀ e, r = Raise e → is_OSError e).
Proof.
  revert acc w. induction l as [|s l IH]; intros acc w Hreal Hnames.
  - intros [= <- <-]. split_and!; done.
  - apply Forall_cons in Hnames as [Hs Hl].
    rewrite install_loop_cons, (install_one_spec env w d use_symlink s Hreal Hplain Hs).
    destruct (install_one_outcome w d use_symlink s) as [r1 w1] eqn:Hone.
    destruct (install_one_outcome_inv _ _ _ _ _ _ Hreal Hone)
      as (Hreal1 & Hdir1 & Hother1 & Hin1 & Hout1 & Herr1 & _).
    destruct r1 as [p|e].
    + intros Hloop.
      destruct (IH _ _ Hreal1 Hl Hloop) as (Hreal' & Hdir' & Hother' & Hin' & Hout' & Herr').
      split_and!; try done; try congruence.
      * intros k m Hk. by apply Hdir', Hdir1.
      * intros k Hk. rewrite Hother', Hother1; [done|..].
        -- apply Hk. by left.
        -- intros s' Hs'. apply Hk. by right.
    + intros [= <- <-]. split_and!; try done.
      * intros k Hk. apply Hother1, Hk. by left.
      * intros e' [= <-]. by apply Herr1.
Qed.

(** A directory in the way of some script stops the loop with an error. *)
Lemma install_loop_blocked (l : list path) (acc : list path) (w w' : world)
    (r : result (list path)) (b : path) (m : Z) :
  real_dir (w_fs w) d →
  Forall (λ s, plain_name (path_name s)) l →
  b ∈ l → w_fs w !! (d ++ [path_name b]) = Some (Dir m) →
  install_loop env l d use_symlink acc w = (r, w') →
  ∃ e, r = Raise e ∧ is_OSError e.
Proof.
  revert acc w. induction l as [|s l IH]; intros acc w Hreal Hnames Hb Hdir.
  - by apply elem_of_nil in Hb.
  - apply Forall_cons in Hnames as [Hs Hl].
    rewrite install_loop_cons, (install_one_spec env w d use_symlink s Hreal Hplain Hs).
    destruct (install_one_outcome w d use_symlink s) as [r1 w1] eqn:Hone.
    destruct (install_one_outcome_inv _ _ _ _ _ _ Hreal Hone)
      as (Hreal1 & Hdir1 & Hother1 & Hin1 & Hout1 & Herr1 & _).
    destruct r1 as [p|e].
    + apply elem_of_cons in Hb as [->|Hb].
      * unfold install_one_outcome in Hone. rewrite Hdir in Hone. discriminate.
      * apply (IH _ _ Hreal1 Hl Hb). by apply Hdir1.
    + intros [= <- <-]. exists e. split; [done|]. by apply Herr1.
Qed.

End install_loop.

Lemma install_loop_Ok_split (env : environ) (d : path) (use_symlink : bool)
    (pre : list path) (s : path) (post : list path) (acc paths : list path)
    (w w' : world) :
  install_loop env (pre ++ s :: post) d use_symlink acc w = (Ok paths, w') →
  ∃ ps w_s p w_s',
    install_loop env pre d use_symlink acc w = (Ok ps, w_s)
    ∧ install_one env d use_symlink s w_s = (Ok p, w_s')
    ∧ install_loop env post d use_symlink (ps ++ [p]) w_s' = (Ok paths, w').
Proof.
  rewrite install_loop_app.
  destruct (install_loop env pre d use_symlink acc w) as [[ps|e] w_s]; [|done].
  rewrite install_loop_cons.
  destruct (install_one env d use_symlink s w_s) as [[p|e] w_s'] eqn:Hone; [|done].
  intros Hpost. by exists ps, w_s, p, w_s'.
Qed.

(** C6.  Permissions after a copy.  When the copy-mode install of a list of
    scripts with distinct names into a canonical directory succeeds, then for
    every script of the list: the source was a regular file when its turn
    came (after whatever was at the destination had been removed), the
    destination is in the end a regular file with the same content, and the
    permission bits of the destination are those of the source, as copied,
    or-ed with [S_IXUSR]: no other bit differs. *)
Theorem copy_mode_sets_owner_execute (env : environ) (d : path)
    (pre : list path) (s : path) (post : list path) (w w' : world)
    (paths : list path) :
  real_dir (w_fs w) d → Forall plain_name d →
  Forall (λ s, plain_name (path_name s)) (pre ++ s :: post) →
  NoDup (map path_name (pre ++ s :: post)) →
  install_scripts_with_mode env (pre ++ s :: post) d false w = (Ok paths, w') →
  ∃ ps w_s q perm data perm',
    install_scripts_with_mode env pre d false w = (Ok ps, w_s)
    ∧ stat (delete (d ++ [path_name s]) (w_fs w_s)) s = Found q (File perm data)
    ∧ lstat (w_fs w') (d // path_name s) = Found (d // path_name s) (File perm' data)
    ∧ S_IMODE (st_mode (File perm' data))
      = Z.lor (S_IMODE (st_mode (File perm data))) S_IXUSR.
Proof.
  intros Hreal Hplain Hnames Hnodup Hinstall.
  unfold install_scripts_with_mode in *.
  apply install_loop_Ok_split in Hinstall
    as (ps & w_s & p & w_s' & Hpre & Hone & Hpost).
  apply Forall_app in Hnames as [Hnpre Hnames].
  apply Forall_cons in Hnames as [Hs Hnpost].
  destruct (install_loop_inv env d false Hplain _ _ _ _ _ Hreal Hnpre Hpre)
    as (Hreal_s & _).
  rewrite (install_one_spec env w_s d false s Hreal_s Hplain Hs) in Hone.
  assert (Hinv := install_one_outcome_inv _ _ _ _ _ _ Hreal_s Hone).
  destruct Hinv as (Hreal_s' & _).
  unfold install_one_outcome in Hone.
  set (kd := d ++ [path_name s]) in *.
  destruct (stat (delete kd (w_fs w_s)) s) as [q [perm data|m|t]| |] eqn:Hsrc;
    try (destruct (w_fs w_s !! kd) as [[| |]|]; discriminate).
  set (perm' := Z.lor (S_IMODE (st_mode (File perm data))) S_IXUSR) in *.
  assert (Hfs' : w_fs w_s' = <[kd := File perm' data]> (delete kd (w_fs w_s))).
  { destruct (w_fs w_s !! kd) as [[| |]|]; try discriminate;
      by injection Hone as _ <-. }
  destruct (install_loop_inv env d false Hplain _ _ _ _ _ Hreal_s' Hnpost Hpost)
    as (Hreal' & _ & Hother & _).
  exists ps, w_s, q, perm, data, perm'. split_and!; [done|done| |].
  - rewrite (lstat_canonical _ _ _ Hreal' Hplain Hs). fold kd.
    rewrite Hother.
    + rewrite Hfs'. by rewrite lookup_insert_eq.
    + intros s' Hs' Heq. apply app_inj_tail in Heq as [_ Heq].
      rewrite map_app in Hnodup. apply NoDup_app in Hnodup as (_ & _ & Hnodup).
      cbn [map] in Hnodup. apply NoDup_cons in Hnodup as [Hnotin _].
      apply Hnotin. rewrite Heq. by apply list_elem_of_fmap_2.
  - unfold perm'. cbn [st_mode]. unfold S_IMODE, S_IFREG, S_IXUSR.
    rewrite !Z.land_lor_distr_l, <- !Z.land_assoc. reflexivity.
Qed.

Lemma real_dirb_from_spec (fs : gmap path node) (cur : path) (rest : list string) :
  real_dir fs cur → real_dirb_from fs cur rest = true → real_dir fs (cur ++ rest).
Proof.
  revert cur. induction rest as [|c rest IH]; intros cur Hcur; cbn [real_dirb_from].
  - by rewrite app_nil_r.
  - destruct (fs !! (cur ++ [c])) as [[| m |]|] eqn:Hlook; try discriminate.
    intros H. rewrite (cons_middle c cur rest), app_assoc.
    apply IH; [|done]. by eapply real_dir_snoc.
Qed.

Lemma real_dirb_spec (fs : gmap path node) (d : path) :
  real_dirb fs d = true → real_dir fs d.
Proof. apply (real_dirb_from_spec fs [] d), real_dir_nil. Qed.

Lemma plain_nameb_spec (c : string) : plain_nameb c = true → plain_name c.
Proof.
  unfold plain_nameb, plain_name. rewrite andb_true_iff, !negb_true_iff.
  by rewrite !String.eqb_neq.
Qed.

Lemma Forall_plain_nameb {A} (f : A → string) (l : list A) :
  forallb (λ x, plain_nameb (f x)) l = true → Forall (λ x, plain_name (f x)) l.
Proof.
  induction l as [|x l IH]; cbn [forallb]; [constructor|].
  rewrite andb_true_iff. intros [Hx Hl]. constructor; [by apply plain_nameb_spec|auto].
Qed.

Lemma copy_mode_sets_owner_execute_witness :
  let d := ["home"; "u"; "bin"] in
  let hello := ["repo"; "bin"; "hello"] in
  let world := ["repo"; "bin"; "world"] in
  let w := World example_fs_two [] [] in
  let w' := snd (install_scripts_with_mode example_env [hello; world] d false w) in
  ∃ ps w_s q perm data perm',
    install_scripts_with_mode example_env [hello] d false w = (Ok ps, w_s)
    ∧ stat (delete (d ++ [path_name world]) (w_fs w_s)) world = Found q (File perm data)
    ∧ lstat (w_fs w') (d // path_name world) = Found (d // path_name world) (File perm' data)
    ∧ S_IMODE (st_mode (File perm' data))
      = Z.lor (S_IMODE (st_mode (File perm data))) S_IXUSR.
Proof.
  intros d hello world w w'.
  apply (copy_mode_sets_owner_execute example_env d [hello] world [] w w'
           [d // "hello"; d // "world"]).
  - apply real_dirb_spec. vm_compute. reflexivity.
  - apply (Forall_plain_nameb id). vm_compute. reflexivity.
  - apply (Forall_plain_nameb path_name). vm_compute. reflexivity.
  - match goal with |- ?P => apply (bool_decide_unpack P) end. vm_compute. exact I.
  - vm_compute. reflexivity.
Defined.

(* ===================================================================== *)
(** * A directory in the way of a script *)
(* ===================================================================== *)

(** ** What [resolve] returns for an existing directory *)

Lemma realpath_nil (fuel : nat) (fs : gmap path node) (cur : path) :
  realpath (S fuel) fs cur [] = cur.
Proof. reflexivity. Qed.

Lemma realpath_cons (fuel : nat) (fs : gmap path node) (cur : path) (c : string)
    (rest : list string) :
  realpath (S fuel) fs cur (c :: rest) =
  if String.eqb c "." then realpath (S fuel) fs cur rest
  else if String.eqb c ".." then realpath (S fuel) fs (removelast cur) rest
  else match fs !! (cur ++ [c]) with
       | Some (Symlink t) =>
           match fuel with
           | O => (cur ++ [c]) ++ rest
           | S _ => realpath fuel fs [] (t ++ rest)
           end
       | _ => realpath (S fuel) fs (cur ++ [c]) rest
       end.
Proof. reflexivity. Qed.

Lemma Forall_removelast {A} (P : A → Prop) (l : list A) :
  Forall P l → Forall P (removelast l).
Proof.
  intros H. destruct l as [|x l _] using rev_ind; [done|].
  rewrite removelast_last. by apply Forall_app in H as [H _].
Qed.

Lemma realpath_walk (fuel : nat) (fs : gmap path node) (cur : path)
    (rest : list string) (q : path) (n : node) :
  real_dir fs cur → Forall plain_name cur →
  walk fuel fs true cur rest = Found q n →
  realpath fuel fs cur rest = q ∧ Forall plain_name q
  ∧ (∀ m, n = Dir m → real_dir fs q).
Proof.
  revert cur rest. induction fuel as [|fuel IHf]; [done|].
  intros cur rest. revert cur. induction rest as [|c rest IHr]; intros cur Hreal Hplain.
  - rewrite walk_nil, realpath_nil.
    destruct (node_at fs cur); [|done]. intros [= <- <-]. done.
  - rewrite walk_cons, realpath_cons.
    destruct (String.eqb c ".") eqn:E1; [by apply IHr|].
    destruct (String.eqb c "..") eqn:E2.
    { apply IHr; [|by apply Forall_removelast].
      eapply real_dir_prefix; [done|apply removelast_prefix]. }
    assert (Hc : plain_name c) by (by split; apply String.eqb_neq).
    assert (Hplain' : Forall plain_name (cur ++ [c])).
    { apply Forall_app. split; [done|]. by constructor. }
    destruct (fs !! (cur ++ [c])) as [[perm data|m|t]|] eqn:Hlook.
    + destruct rest; [|done]. intros [= <- <-]. rewrite realpath_nil. done.
    + apply IHr; [|done]. by eapply real_dir_snoc.
    + assert (walk fuel fs true [] (t ++ rest) = Found q n →
              realpath fuel fs [] (t ++ rest) = q ∧ Forall plain_name q
              ∧ (∀ m, n = Dir m → real_dir fs q)) as IH.
      { apply IHf; [apply real_dir_nil|constructor]. }
      destruct fuel as [|fuel]; [by destruct rest|].
      by destruct rest.
    + by destruct rest.
Qed.

Lemma resolve_existing_dir (fs : gmap path node) (p q : path) (m : Z) :
  stat fs p = Found q (Dir m) →
  resolve fs p = q ∧ real_dir fs q ∧ Forall plain_name q.
Proof.
  intros Hstat. unfold stat in Hstat.
  apply realpath_walk in Hstat as (Hres & Hplain & Hreal);
    [|apply real_dir_nil|constructor].
  split_and!; [done|by eapply Hreal|done].
Qed.

Lemma stat_real_dir (fs : gmap path node) (d : path) :
  real_dir fs d → Forall plain_name d → ∃ m, stat fs d = Found d (Dir m).
Proof.
  intros Hreal Hplain. unfold stat.
  assert (H := walk_through MAXSYMLINKS fs true [] d [] Hreal Hplain).
  rewrite app_nil_r in H. rewrite H. cbn [app]. rewrite walk_nil.
  destruct (real_dir_node_at _ _ Hreal) as [m ->]. eauto.
Qed.

(** ** The names discovery lets through *)

Lemma pattern_match_plain (name : string) :
  SCRIPT_NAME_PATTERN_match name = true → plain_name name.
Proof.
  intros H. split; intros ->; vm_compute in H; discriminate.
Qed.

Lemma discover_source_scripts_names (repo_root : path) (w w' : world)
    (source_dir : path) (valid invalid : list path) :
  discover_source_scripts repo_root w = (Ok (source_dir, valid, invalid), w') →
  Forall (λ s, SCRIPT_NAME_PATTERN_match (path_name s) = true) valid.
Proof.
  unfold discover_source_scripts.
  rewrite (bind_Ok _ _ _ _ _ (get_fs_eq w)).
  destruct (is_dir (w_fs w) (repo_root // "bin")) eqn:Hdir; cbn [negb].
  - destruct (iterdir_is_dir _ _ Hdir) as (q & m & _ & Hiter).
    rewrite (bind_Ok _ _ _ _ _ Hiter), classify_spec. cbn [app].
    intros [= _ <- _]. apply Forall_forall. intros s Hs.
    apply list_elem_of_In, filter_In in Hs as [_ Hs].
    unfold is_source_script in Hs. by apply andb_true_iff in Hs as [_ Hs].
  - intros [= _ <- _]. constructor.
Qed.

(** ** The confirmation never touches the file system *)

Lemma confirm_overwrites_cases (l : list path) (yes : bool) (w w' : world)
    (r : result bool) :
  confirm_overwrites l yes w = (r, w') →
  w_fs w' = w_fs w
  ∧ (r = Ok true ∨ r = Ok false ∨ r = Raise EOFError)
  ∧ (yes = true → r = Ok true).
Proof.
  unfold confirm_overwrites. destruct l as [|p l].
  { intros [= <- <-]. auto. }
  unfold bind at 1. unfold print at 1.
  unfold bind at 1. rewrite for_each_print. cbn [w_fs w_stdin w_stdout].
  destruct yes.
  - intros [= <- <-]. auto.
  - unfold bind, input, ret. cbn [w_fs w_stdin w_stdout].
    destruct (w_stdin w) as [|response rest]; intros [= <- <-]; cbn [w_fs].
    + split_and!; auto. done.
    + split_and!; [done| |done].
      destruct (affirmative (lower (strip response))); auto.
Qed.

(** ** The loop depends on the world through the file system only *)

Lemma install_one_outcome_same_fs (w0 w : world) (d : path) (use_symlink : bool)
    (s : path) :
  w_fs w0 = w_fs w →
  fst (install_one_outcome w0 d use_symlink s) = fst (install_one_outcome w d use_symlink s)
  ∧ w_fs (snd (install_one_outcome w0 d use_symlink s))
    = w_fs (snd (install_one_outcome w d use_symlink s)).
Proof.
  intros Hfs. unfold install_one_outcome. rewrite Hfs.
  destruct (w_fs w !! (d ++ [path_name s])) as [[| |]|]; try done;
    destruct use_symlink; try done;
    by destruct (stat (delete (d ++ [path_name s]) (w_fs w)) s) as [? [| |]| |].
Qed.

Lemma install_loop_same_fs (env : environ) (d : path) (use_symlink : bool)
    (l acc : list path) (w0 w : world) :
  Forall plain_name d → real_dir (w_fs w) d →
  Forall (λ s, plain_name (path_name s)) l →
  w_fs w0 = w_fs w →
  fst (install_loop env l d use_symlink acc w0) = fst (install_loop env l d use_symlink acc w)
  ∧ w_fs (snd (install_loop env l d use_symlink acc w0))
    = w_fs (snd (install_loop env l d use_symlink acc w)).
Proof.
  intros Hplain. revert acc w0 w. induction l as [|s l IH]; intros acc w0 w Hreal Hnames Hfs.
  - done.
  - apply Forall_cons in Hnames as [Hs Hl].
    assert (Hreal0 : real_dir (w_fs w0) d) by by rewrite Hfs.
    rewrite !install_loop_cons.
    rewrite (install_one_spec env w d use_symlink s Hreal Hplain Hs).
    rewrite (install_one_spec env w0 d use_symlink s Hreal0 Hplain Hs).
    destruct (install_one_outcome_same_fs w0 w d use_symlink s Hfs) as [Hr Hw].
    destruct (install_one_outcome w d use_symlink s) as [r1 w1] eqn:Hone.
    destruct (install_one_outcome w0 d use_symlink s) as [r0 w0'] eqn:Hone0.
    cbn [fst snd] in Hr, Hw. subst r0.
    destruct r1 as [p|e]; [|done].
    apply IH; [|done|done].
    by destruct (install_one_outcome_inv _ _ _ _ _ _ Hreal Hone) as (? & _).
Qed.

(** C4.  A directory in the way.  Let discovery return the valid scripts
    [pre ++ b :: post] and no invalid one, let the install directory exist,
    [q] being its canonical place, and let [q / b.name] be a real directory.
    Then, whatever the mode and the answers typed: the run ends with status 1;
    that directory is still there afterwards; the install loop, once the
    scripts before [b] are installed, raises the error for [b] and leaves
    the world as those installs made it (nothing is rolled back, nothing of
    [b] or after it is touched); and under [--yes] the run ends with exactly
    that file system. *)
Theorem directory_in_the_way (env : environ) (args : Args) (w : world)
    (source_dir : path) (pre : list path) (b : path) (post : list path)
    (q : path) (m0 m : Z) :
  discover_source_scripts (detect_repo_root env (w_fs w)) w
    = (Ok (source_dir, pre ++ b :: post, []), w) →
  stat (w_fs w) (install_dir_arg args) = Found q (Dir m0) →
  w_fs w !! (q ++ [path_name b]) = Some (Dir m) →
  fst (run env args w) = 1
  ∧ w_fs (snd (run env args w)) !! (q ++ [path_name b]) = Some (Dir m)
  ∧ (∀ w0 ps w1,
       w_fs w0 = w_fs w →
       install_scripts_with_mode env pre q (symlink_arg args) w0 = (Ok ps, w1) →
       install_scripts_with_mode env (pre ++ b :: post) q (symlink_arg args) w0
       = (Raise (cannot_replace_directory (q // path_name b)), w1))
  ∧ (yes_arg args = true → ∀ ps w1,
       install_scripts_with_mode env pre q (symlink_arg args) w = (Ok ps, w1) →
       w_fs (snd (run env args w)) = w_fs w1).
Proof.
  intros Hdisc Hstat Hdir.
  destruct (resolve_existing_dir _ _ _ _ Hstat) as (Hres & Hreal & Hplain).
  assert (Hnames : Forall (λ s, plain_name (path_name s)) (pre ++ b :: post)).
  { eapply Forall_impl; [exact (discover_source_scripts_names _ _ _ _ _ _ Hdisc)|].
    intros s. apply pattern_match_plain. }
  assert (Hnpre : Forall (λ s, plain_name (path_name s)) pre)
    by by apply Forall_app in Hnames as [? _].
  assert (Hb : plain_name (path_name b)).
  { apply Forall_app in Hnames as [_ H]. by apply Forall_cons in H as [? _]. }
  set (sym := symlink_arg args).
  (* the install itself, from any world with this file system *)
  assert (Hstop : ∀ w0 ps w1, w_fs w0 = w_fs w →
            install_scripts_with_mode env pre q sym w0 = (Ok ps, w1) →
            install_scripts_with_mode env (pre ++ b :: post) q sym w0
            = (Raise (cannot_replace_directory (q // path_name b)), w1)).
  { intros w0 ps w1 Hfs Hpre. unfold install_scripts_with_mode in *.
    assert (Hreal0 : real_dir (w_fs w0) q) by by rewrite Hfs.
    rewrite install_loop_app, Hpre, install_loop_cons.
    destruct (install_loop_inv env q sym Hplain _ _ _ _ _ Hreal0 Hnpre Hpre)
      as (Hreal1 & Hdir1 & _).
    rewrite (install_one_spec env w1 q sym b Hreal1 Hplain Hb).
    unfold install_one_outcome. rewrite (Hdir1 _ m); [done|]. by rewrite Hfs. }
  assert (Hrun : ∀ w0, w_fs w0 = w_fs w →
            ∃ e w', install_scripts_with_mode env (pre ++ b :: post) q sym w0 = (Raise e, w')
                    ∧ is_OSError e
                    ∧ w_fs w' !! (q ++ [path_name b]) = Some (Dir m)
                    ∧ (∀ ps w1, install_scripts_with_mode env pre q sym w = (Ok ps, w1) →
                                w_fs w' = w_fs w1)).
  { intros w0 Hfs. unfold install_scripts_with_mode in *.
    assert (Hreal0 : real_dir (w_fs w0) q) by by rewrite Hfs.
    destruct (install_loop env (pre ++ b :: post) q sym [] w0) as [r w'] eqn:Hloop.
    assert (Hin : b ∈ pre ++ b :: post) by (apply elem_of_app; right; by left).
    assert (Hdir0 : w_fs w0 !! (q ++ [path_name b]) = Some (Dir m)) by by rewrite Hfs.
    destruct (install_loop_blocked env q sym Hplain _ _ _ _ _ b m Hreal0 Hnames
                Hin Hdir0 Hloop) as (e & -> & He).
    destruct (install_loop_inv env q sym Hplain _ _ _ _ _ Hreal0 Hnames Hloop)
      as (_ & Hdir' & _).
    exists e, w'. split_and!; [done|done|apply Hdir'; by rewrite Hfs|].
    intros ps w1 Hpre.
    destruct (install_loop_same_fs env q sym pre [] w0 w Hplain Hreal Hnpre Hfs)
      as [Hr Hw].
    rewrite Hpre in Hr, Hw. cbn [fst snd] in Hr, Hw.
    destruct (install_loop env pre q sym [] w0) as [r0 w0'] eqn:Hpre0.
    cbn [fst snd] in Hr, Hw. subst r0.
    rewrite (Hstop w0 ps w0' Hfs Hpre0) in Hloop. by injection Hloop as _ <-. }
  (* the run *)
  assert (Hmain : ∃ r w', main env args w = (r, w')
            ∧ exit_status r = 1
            ∧ w_fs w' !! (q ++ [path_name b]) = Some (Dir m)
            ∧ (yes_arg args = true → ∀ ps w1,
                 install_scripts_with_mode env pre q sym w = (Ok ps, w1) →
                 w_fs w' = w_fs w1)).
  { unfold main.
    rewrite (bind_Ok _ _ _ _ _ (get_fs_eq w)).
    rewrite (bind_Ok _ _ _ _ _ Hdisc). unfold expanduser. rewrite Hres.
    remember (pre ++ b :: post) as sources eqn:Hsources.
    destruct sources as [|s0 sources]; [by destruct pre|].
    destruct (stat_real_dir _ _ Hreal Hplain) as [m' Hq].
    assert (Hisdir : is_dir (w_fs w) q = true) by (unfold is_dir; by rewrite Hq).
    rewrite (bind_Ok _ _ _ _ _ (mkdir_parents_is_dir env q w Hisdir)).
    rewrite (bind_Ok _ _ _ _ _ (get_fs_eq w)).
    set (overwrite_paths := filter _ _).
    destruct (confirm_overwrites overwrite_paths (yes_arg args) w) as [rc wc] eqn:Hconf.
    destruct (confirm_overwrites_cases _ _ _ _ _ Hconf) as (Hfs & Hrc & Hyes).
    destruct Hrc as [-> | [-> | ->]].
    - rewrite (bind_Ok _ _ _ _ _ Hconf). cbn [negb].
      destruct (Hrun wc Hfs) as (e & w' & Hinst & (n & msg & ->) & Hdir' & Hsame).
      fold sym. unfold bind at 1. unfold try_except_OSError at 1.
      unfold bind at 1. rewrite Hinst.
      unfold bind, print, ret. cbn [w_fs w_stdin w_stdout].
      eexists _, _. split; [reflexivity|]. cbn [exit_status w_fs]. auto.
    - rewrite (bind_Ok _ _ _ _ _ Hconf). cbn [negb].
      unfold bind, print, ret. cbn [w_fs w_stdin w_stdout].
      eexists _, _. split; [reflexivity|]. cbn [exit_status w_fs].
      split_and!; [done|by rewrite Hfs|]. intros Hy. by apply Hyes in Hy.
    - rewrite (bind_Raise _ _ _ _ _ Hconf).
      eexists _, _. split; [reflexivity|]. cbn [exit_status].
      split_and!; [done|by rewrite Hfs|]. intros Hy. by apply Hyes in Hy. }
  destruct Hmain as (r & w' & Hmain & Hstatus & Hdir' & Hsame).
  unfold run. rewrite Hmain. cbn [fst snd]. auto.
Qed.

Lemma directory_in_the_way_witness :
  let d := ["home"; "u"; "bin"] in
  let a := ["repo"; "bin"; "a"] in
  let w := World example_fs_blocked [] [] in
  fst (run example_env (example_args true) w) = 1
  ∧ w_fs (snd (run example_env (example_args true) w)) !! (d ++ ["b"]) = Some (Dir 493)
  ∧ w_fs (snd (run example_env (example_args true) w))
    = w_fs (snd (install_scripts_with_mode example_env [a] d false w)).
Proof.
  intros d a w.
  destruct (directory_in_the_way example_env (example_args true) w
              ["repo"; "bin"] [a] ["repo"; "bin"; "b"] [["repo"; "bin"; "c"]]
              d 493 493) as (H1 & H2 & _ & H4).
  - vm_compute. reflexivity.
  - vm_compute. reflexivity.
  - vm_compute. reflexivity.
  - split_and!; [exact H1|exact H2|].
    apply (H4 eq_refl [d // "a"]). vm_compute. reflexivity.
Defined.

(* ===================================================================== *)
(** * The PATH advisor: appending the block and finding it again *)
(* ===================================================================== *)

(** ** Strings *)

Lemma append_nil_l (s : string) : EmptyString +:+ s = s.
Proof. reflexivity. Qed.

Lemma append_cons (x : ascii) (a b : string) : String x a +:+ b = String x (a +:+ b).
Proof. reflexivity. Qed.

Lemma append_assoc (a b c : string) : (a +:+ b) +:+ c = a +:+ (b +:+ c).
Proof.
  induction a as [|x a IH]; [done|]. by rewrite !append_cons, IH.
Qed.

Lemma append_nil_r (a : string) : a +:+ EmptyString = a.
Proof.
  induction a as [|x a IH]; [done|]. by rewrite append_cons, IH.
Qed.

Lemma prefix_append (v b : string) : String.prefix v (v +:+ b) = true.
Proof.
  induction v as [|x v IH]; [by destruct b|].
  rewrite append_cons. cbn [String.prefix].
  destruct (ascii_dec x x); [done|congruence].
Qed.

Lemma contains_self_append (v b : string) : contains (v +:+ b) v = true.
Proof.
  destruct v as [|x v].
  - rewrite append_nil_l. by destruct b.
  - rewrite append_cons. cbn [contains].
    by rewrite <- append_cons, prefix_append.
Qed.

Lemma contains_append_l (a s sub : string) :
  contains s sub = true → contains (a +:+ s) sub = true.
Proof.
  intros H. induction a as [|x a IH]; [done|].
  rewrite append_cons. cbn [contains]. by rewrite IH, orb_true_r.
Qed.

Lemma contains_middle (a v b : string) : contains (a +:+ v +:+ b) v = true.
Proof. apply contains_append_l, contains_self_append. Qed.

Lemma string_none_append (f : ascii → bool) (a b : string) :
  string_none f (a +:+ b) = string_none f a && string_none f b.
Proof.
  induction a as [|x a IH]; [done|].
  rewrite append_cons. cbn [string_none]. by rewrite IH, andb_assoc.
Qed.

Lemma replace_char_absent (old : ascii) (new s : string) :
  string_none (Ascii.eqb old) s = true → replace_char old new s = s.
Proof.
  induction s as [|x s IH]; cbn [string_none replace_char]; [done|].
  rewrite andb_true_iff, negb_true_iff. intros [Hx Hs].
  rewrite Ascii.eqb_sym, Hx. by rewrite IH.
Qed.

Lemma rstrip_last_nonspace (s : string) (c : ascii) :
  isspace c = false →
  rstrip (s +:+ String c EmptyString) = s +:+ String c EmptyString.
Proof.
  intros Hc. induction s as [|x s IH].
  - rewrite append_nil_l. cbn [rstrip]. by rewrite Hc.
  - rewrite append_cons. cbn [rstrip]. rewrite IH. by destruct s.
Qed.

(** ** Lines *)

Lemma splitlines_aux_line (a cur rest : string) :
  string_none is_linebreak a = true →
  splitlines_aux cur (a +:+ String LF rest) = (cur +:+ a) :: splitlines_aux EmptyString rest.
Proof.
  revert cur. induction a as [|x a IH]; intros cur.
  - intros _. by rewrite append_nil_l, append_nil_r.
  - cbn [string_none]. rewrite andb_true_iff, negb_true_iff. intros [Hx Ha].
    rewrite append_cons. cbn [splitlines_aux]. rewrite Hx.
    assert (Ascii.eqb x CR = false) as ->.
    { destruct (Ascii.eqb_spec x CR) as [->|]; [by vm_compute in Hx|done]. }
    rewrite IH by done. by rewrite append_assoc.
Qed.

Lemma splitlines_aux_until_LF (n : nat) (p cur rest : string) :
  (String.length p ≤ n)%nat →
  ∃ l, splitlines_aux cur (p +:+ String LF rest) = l ++ splitlines_aux EmptyString rest.
Proof.
  revert p cur. induction n as [|n IH]; intros p cur Hlen.
  - destruct p; [|cbn in Hlen; lia]. by exists [cur].
  - destruct p as [|x p]; [by exists [cur]|].
    cbn [String.length] in Hlen. rewrite append_cons. cbn [splitlines_aux].
    destruct (Ascii.eqb x CR).
    + destruct p as [|y p].
      * rewrite append_nil_l. by exists [cur].
      * rewrite append_cons. cbn [String.length] in Hlen.
        destruct (Ascii.eqb y LF).
        -- destruct (IH p EmptyString) as [l ->]; [lia|]. by exists (cur :: l).
        -- destruct (IH (String y p) EmptyString) as [l Hl]; [cbn; lia|].
           rewrite append_cons in Hl. rewrite Hl. by exists (cur :: l).
    + destruct (is_linebreak x).
      * destruct (IH p EmptyString) as [l ->]; [lia|]. by exists (cur :: l).
      * apply IH. lia.
Qed.

Lemma endswith_append (s suf : string) :
  endswith s suf = true → ∃ e, s = e +:+ suf.
Proof.
  induction s as [|x s IH]; cbn [endswith].
  - rewrite orb_false_r. intros ->%String.eqb_eq. by exists EmptyString.
  - intros [->%String.eqb_eq | H]%orb_true_iff; [by exists EmptyString|].
    destruct (IH H) as [e ->]. by exists (String x e).
Qed.

Lemma append_NL (a rest : string) : a +:+ NL +:+ rest = a +:+ String LF rest.
Proof. reflexivity. Qed.

Lemma block_shape (line : string) :
  PATH_UPDATE_MARKER +:+ NL +:+ line +:+ NL
  = PATH_UPDATE_MARKER +:+ String LF (line +:+ String LF EmptyString).
Proof. reflexivity. Qed.

(** The lines of a file that ends with the appended block end with the
    marker and the suggested line. *)
Lemma splitlines_appended_block (existing line : string) :
  string_none is_linebreak line = true →
  ∃ l, splitlines (existing +:+ appended_block existing line)
       = l ++ [PATH_UPDATE_MARKER; line].
Proof.
  intros Hline.
  assert (Hblock : ∀ cur, splitlines_aux cur
            (PATH_UPDATE_MARKER +:+ NL +:+ line +:+ NL)
            = [cur +:+ PATH_UPDATE_MARKER; line]).
  { intros cur. rewrite block_shape.
    rewrite splitlines_aux_line by (vm_compute; reflexivity).
    rewrite splitlines_aux_line by done. reflexivity. }
  assert (Hafter : ∀ p, ∃ l, splitlines_aux EmptyString
            (p +:+ String LF (PATH_UPDATE_MARKER +:+ NL +:+ line +:+ NL))
            = l ++ [PATH_UPDATE_MARKER; line]).
  { intros p.
    destruct (splitlines_aux_until_LF (String.length p) p EmptyString
                (PATH_UPDATE_MARKER +:+ NL +:+ line +:+ NL)) as [l ->]; [lia|].
    rewrite Hblock. by exists l. }
  unfold splitlines, appended_block.
  destruct (String.eqb_spec existing EmptyString) as [->|Hne]; cbn [negb andb].
  - exists []. rewrite !append_nil_l. apply Hblock.
  - destruct (endswith existing NL) eqn:Hends; cbn [negb].
    + apply endswith_append in Hends as [e ->].
      rewrite append_nil_l, append_assoc. apply (Hafter e).
    + apply (Hafter existing).
Qed.

Lemma lstrip_first_nonspace (c : ascii) (s : string) :
  isspace c = false → lstrip (String c s) = String c s.
Proof. intros H. cbn [lstrip]. by rewrite H. Qed.

(** A line that the scan accepts is found after the block was appended. *)
Lemma appended_block_detected (existing line token : string) (tokens : list string) :
  In token tokens →
  string_none is_linebreak line = true →
  strip line = line →
  line ≠ EmptyString →
  startswith line "#" = false →
  contains line "PATH" || contains line "fish_add_path" = true →
  contains line token = true →
  content_has_path_entry tokens (existing +:+ appended_block existing line) = true.
Proof.
  intros Htok Hlb Hstrip Hne Hhash Hpath Hcontains.
  unfold content_has_path_entry.
  destruct (splitlines_appended_block existing line Hlb) as [l ->].
  rewrite existsb_app. apply orb_true_iff. right.
  cbn [existsb]. apply orb_true_iff. right. rewrite orb_false_r.
  rewrite Hstrip.
  apply String.eqb_neq in Hne. rewrite Hne, Hhash. cbn [orb].
  apply orb_true_iff in Hpath.
  assert (negb (contains line "PATH") && negb (contains line "fish_add_path") = false)
    as ->.
  { destruct Hpath as [-> | ->]; [done|by rewrite andb_false_r]. }
  apply existsb_exists. eauto.
Qed.

Lemma export_line_facts (v : string) :
  string_none is_linebreak v = true →
  string_none is_linebreak (export_line v) = true
  ∧ strip (export_line v) = export_line v
  ∧ export_line v ≠ EmptyString
  ∧ startswith (export_line v) "#" = false
  ∧ contains (export_line v) "PATH" = true
  ∧ contains (export_line v) v = true.
Proof.
  intros Hv. unfold export_line. split_and!.
  - rewrite !string_none_append, Hv. reflexivity.
  - unfold strip. rewrite (append_cons "e"), lstrip_first_nonspace by reflexivity.
    rewrite <- (append_cons "e"), <- !append_assoc.
    by apply rstrip_last_nonspace.
  - by rewrite (append_cons "e").
  - by rewrite (append_cons "e").
  - apply (contains_middle "export " "PATH").
  - rewrite <- append_assoc. apply contains_middle.
Qed.

Lemma fish_line_facts (v : string) :
  string_none is_linebreak v = true →
  string_none is_linebreak (fish_line v) = true
  ∧ strip (fish_line v) = fish_line v
  ∧ fish_line v ≠ EmptyString
  ∧ startswith (fish_line v) "#" = false
  ∧ contains (fish_line v) "fish_add_path" = true
  ∧ contains (fish_line v) v = true.
Proof.
  intros Hv. unfold fish_line. split_and!.
  - rewrite !string_none_append, Hv. reflexivity.
  - unfold strip. rewrite (append_cons "f"), lstrip_first_nonspace by reflexivity.
    rewrite <- (append_cons "f"), <- !append_assoc.
    by apply rstrip_last_nonspace.
  - by rewrite (append_cons "f").
  - by rewrite (append_cons "f").
  - apply (contains_self_append "fish_add_path").
  - rewrite <- append_assoc. apply contains_middle.
Qed.

(** The scan finds the block the advisor appended, for every earlier
    content of the file, as long as the rendered path holds neither a double
    quote nor a line break. *)
Lemma path_update_idempotent_plain (existing install_dir_str value : string)
    (fish : bool) :
  string_none (Ascii.eqb (chr 34)) value = true →
  string_none is_linebreak value = true →
  let escaped := replace_char (chr 34) BACKSLASH_DQUOTE value in
  let line := if fish then fish_line escaped else export_line escaped in
  content_has_path_entry [install_dir_str; value]
    (existing +:+ appended_block existing line) = true.
Proof.
  intros Hq Hlb escaped line. subst escaped line.
  rewrite (replace_char_absent _ _ _ Hq).
  assert (Hin : In value [install_dir_str; value]) by (right; by left).
  destruct fish.
  - destruct (fish_line_facts value Hlb) as (H1 & H2 & H3 & H4 & H5 & H6).
    apply (appended_block_detected _ _ value); try done.
    by rewrite H5, orb_true_r.
  - destruct (export_line_facts value Hlb) as (H1 & H2 & H3 & H4 & H5 & H6).
    apply (appended_block_detected _ _ value); done.
Qed.

(** ** The advisor on a start-up file in a canonical directory *)

Lemma path_line_shape (env : environ) (fs : gmap path node) (install_dir : path) :
  let value := format_posix_path_value fs install_dir (env_HOME env) in
  let escaped := replace_char (chr 34) BACKSLASH_DQUOTE value in
  ∃ fish : bool,
    path_line (detect_path_update_target env fs install_dir)
    = if fish then fish_line escaped else export_line escaped.
Proof.
  intros value escaped. unfold detect_path_update_target, expanduser.
  fold value. fold escaped.
  destruct (String.eqb _ "zsh"); [by exists false|].
  destruct (String.eqb _ "bash"); [by exists false|].
  destruct (String.eqb _ "fish"); [by exists true|by exists false].
Qed.

Lemma real_dir_insert_non_dir (fs : gmap path node) (p k : path) (v : node) :
  real_dir fs p → (∀ m, fs !! k ≠ Some (Dir m)) → real_dir (<[k := v]> fs) p.
Proof.
  intros Hreal Hk pre Hpre Hne.
  destruct (Hreal pre Hpre Hne) as [m Hm].
  exists m. rewrite lookup_insert_ne; [done|]. intros ->. by apply (Hk m).
Qed.

Lemma resolve_real_dir (fs : gmap path node) (p : path) :
  real_dir fs p → Forall plain_name p → resolve fs p = p.
Proof.
  intros Hreal Hplain. destruct (stat_real_dir _ _ Hreal Hplain) as [m Hm].
  by destruct (resolve_existing_dir _ _ _ _ Hm) as (-> & _).
Qed.

Lemma path_parent_join (d : path) (name : string) : path_parent (d // name) = d.
Proof. apply removelast_last. Qed.

Lemma append_text_canonical (env : environ) (w : world) (d : path) (name text : string) :
  real_dir (w_fs w) d → Forall plain_name d → plain_name name →
  append_text env (d // name) text w =
  match w_fs w !! (d ++ [name]) with
  | None => (Ok tt, with_fs w (<[d ++ [name] := File (create_perm env 438) text]> (w_fs w)))
  | Some (File perm data) =>
      (Ok tt, with_fs w (<[d ++ [name] := File perm (data +:+ text)]> (w_fs w)))
  | Some (Dir _) => (Raise (os_error EISDIR (d // name)), w)
  | Some (Symlink t) => append_text env (d // name) text w
  end.
Proof.
  intros Hreal Hplain Hname.
  destruct (w_fs w !! (d ++ [name])) as [[perm data|m|t]|] eqn:Hlook; [| |done|].
  all: unfold append_text; rewrite (bind_Ok _ _ _ _ _ (get_fs_eq w));
    rewrite (stat_canonical _ _ _ Hreal Hplain Hname); by rewrite Hlook.
Qed.

Lemma read_text_canonical (w : world) (d : path) (name : string) (perm : Z)
    (data : string) :
  real_dir (w_fs w) d → Forall plain_name d → plain_name name →
  w_fs w !! (d ++ [name]) = Some (File perm data) →
  read_text (d // name) w = (Ok data, w).
Proof.
  intros Hreal Hplain Hname Hlook.
  unfold read_text. rewrite (bind_Ok _ _ _ _ _ (get_fs_eq w)).
  rewrite (stat_canonical _ _ _ Hreal Hplain Hname). by rewrite Hlook.
Qed.

Lemma path_exists_canonical (fs : gmap path node) (d : path) (name : string) :
  real_dir fs d → Forall plain_name d → plain_name name →
  path_exists fs (d // name) =
  match fs !! (d ++ [name]) with
  | None => false
  | Some (Symlink t) => path_exists fs (d // name)
  | Some _ => true
  end.
Proof.
  intros Hreal Hplain Hname.
  destruct (fs !! (d ++ [name])) as [[perm data|m|t]|] eqn:Hlook; [| |done|].
  all: unfold path_exists; rewrite (stat_canonical _ _ _ Hreal Hplain Hname);
    by rewrite Hlook.
Qed.

(** The same at the level of the program: with canonical install and home
    directories, a start-up file that is absent or a regular file in a
    canonical directory, and a rendered path without double quote and line
    break, the update succeeds and the scan of the updated file reports the
    entry, so that a second run appends nothing. *)
Lemma path_update_idempotent_run (env : environ) (w : world) (install_dir d : path)
    (name : string) :
  let home := env_HOME env in
  let target := detect_path_update_target env (w_fs w) install_dir in
  let value := format_posix_path_value (w_fs w) install_dir home in
  real_dir (w_fs w) install_dir → Forall plain_name install_dir →
  real_dir (w_fs w) home → Forall plain_name home →
  rc_file target = d // name →
  real_dir (w_fs w) d → Forall plain_name d → plain_name name →
  (w_fs w !! (d ++ [name]) = None
   ∨ ∃ perm existing, w_fs w !! (d ++ [name]) = Some (File perm existing)) →
  string_none (Ascii.eqb (chr 34)) value = true →
  string_none is_linebreak value = true →
  ∃ w1, append_path_update env target w = (Ok tt, w1)
        ∧ rc_file_has_path_entry env target install_dir w1 = (Ok true, w1).
Proof.
  intros home target value Hri Hpi Hrh Hph Hrc Hrd Hpd Hname Hfile Hq Hlb.
  destruct (path_line_shape env (w_fs w) install_dir) as [fish Hline].
  fold target value in Hline.
  set (line := path_line target) in *.
  (* what the file holds before and after *)
  set (existing := match w_fs w !! (d ++ [name]) with
                   | Some (File _ data) => data
                   | _ => EmptyString
                   end).
  set (perm' := match w_fs w !! (d ++ [name]) with
                | Some (File perm _) => perm
                | _ => create_perm env 438
                end).
  set (fs1 := <[d ++ [name] := File perm' (existing +:+ appended_block existing line)]>
                (w_fs w)).
  assert (Hnd : ∀ m, w_fs w !! (d ++ [name]) ≠ Some (Dir m)).
  { intros m. destruct Hfile as [-> | (? & ? & ->)]; discriminate. }
  assert (Happend : append_path_update env target w = (Ok tt, with_fs w fs1)).
  { unfold append_path_update. rewrite Hrc, path_parent_join.
    destruct (stat_real_dir _ _ Hrd Hpd) as [m Hd].
    assert (Hisdir : is_dir (w_fs w) d = true) by (unfold is_dir; by rewrite Hd).
    rewrite (bind_Ok _ _ _ _ _ (mkdir_parents_is_dir env d w Hisdir)).
    rewrite (bind_Ok _ _ _ _ _ (get_fs_eq w)).
    rewrite (path_exists_canonical _ _ _ Hrd Hpd Hname).
    fold line. unfold fs1, perm', existing, appended_block.
    destruct Hfile as [Hnone | (perm & data & Hsome)].
    - rewrite Hnone.
      rewrite (bind_Ok (ret false) _ w w false) by reflexivity.
      rewrite (append_text_canonical env w d name _ Hrd Hpd Hname), Hnone.
      reflexivity.
    - rewrite Hsome.
      assert (Hneeds : try_except_OSError
                (let* existing := read_text (d // name) in
                 ret (negb (String.eqb existing EmptyString)
                      && negb (endswith existing NL)))
                (λ _ _, ret false) w
              = (Ok (negb (String.eqb data EmptyString) && negb (endswith data NL)), w)).
      { unfold try_except_OSError.
        by rewrite (bind_Ok _ _ _ _ _ (read_text_canonical w d name perm data
                                        Hrd Hpd Hname Hsome)). }
      rewrite (bind_Ok _ _ _ _ _ Hneeds).
      rewrite (append_text_canonical env w d name _ Hrd Hpd Hname), Hsome.
      reflexivity. }
  exists (with_fs w fs1). split; [done|].
  assert (Hrd1 : real_dir fs1 d) by by apply real_dir_insert_child.
  assert (Hvalue1 : format_posix_path_value fs1 install_dir home = value).
  { unfold value, format_posix_path_value, expanduser.
    rewrite !resolve_real_dir; try done; by apply real_dir_insert_non_dir. }
  assert (Hlook1 : fs1 !! (d ++ [name])
                   = Some (File perm' (existing +:+ appended_block existing line)))
    by apply lookup_insert_eq.
  unfold rc_file_has_path_entry. rewrite Hrc.
  rewrite (bind_Ok _ _ _ _ _ (get_fs_eq _)). cbn [w_fs with_fs].
  rewrite (path_exists_canonical _ _ _ Hrd1 Hpd Hname), Hlook1. cbn [negb].
  assert (Hread : try_except_OSError
            (let* text := read_text (d // name) in ret (Some text))
            (λ _ _, ret None) (with_fs w fs1)
          = (Ok (Some (existing +:+ appended_block existing line)), with_fs w fs1)).
  { unfold try_except_OSError.
    by rewrite (bind_Ok _ _ _ _ _ (read_text_canonical (with_fs w fs1) d name _ _
                                    Hrd1 Hpd Hname Hlook1)). }
  rewrite (bind_Ok _ _ _ _ _ Hread).
  rewrite (bind_Ok _ _ _ _ _ (get_fs_eq _)). cbn [w_fs with_fs].
  unfold ret. unfold expanduser. fold home. rewrite Hvalue1.
  assert (Hscan := path_update_idempotent_plain existing (path_str install_dir)
                      value fish Hq Hlb).
  cbv zeta in Hscan. do 2 f_equal. rewrite Hline. exact Hscan.
Qed.

(** C3.  The update is not idempotent for every install directory.  For the
    directory [/opt/my?tools], where [?] stands for a double quote, under
    bash with no [~/.bashrc] yet: the block is appended, the scan of the
    resulting file does not find the entry (the line holds the quote
    escaped, the scan looks for the path as it is), and a second run of the
    advisor under [--yes] appends the block a second time. *)
Theorem path_update_repeats_for_quoted_dir :
  let w0 := World example_fs_quoted [] [] in
  let target := detect_path_update_target example_env (w_fs w0) example_quoted_dir in
  let block :=
    PATH_UPDATE_MARKER +:+ NL
    +:+ export_line ("/opt/my" +:+ BACKSLASH_DQUOTE +:+ "tools") +:+ NL in
  let w1 := snd (append_path_update example_env target w0) in
  let w2 := snd (maybe_offer_path_update example_env example_quoted_dir true
                   (snd (maybe_offer_path_update example_env example_quoted_dir true w0))) in
  rc_file target = ["home"; "u"; ".bashrc"]
  ∧ fst (append_path_update example_env target w0) = Ok tt
  ∧ w_fs w1 !! ["home"; "u"; ".bashrc"] = Some (File 420 block)
  ∧ fst (rc_file_has_path_entry example_env target example_quoted_dir w1) = Ok false
  ∧ w_fs w2 !! ["home"; "u"; ".bashrc"] = Some (File 420 (block +:+ block)).
Proof. vm_compute. split_and!; reflexivity. Qed.

(* ===================================================================== *)
(** * More on the install loop *)
(* ===================================================================== *)

Lemma install_one_Ok_path (env : environ) (d : path) (use_symlink : bool)
    (s : path) (w w' : world) (p : path) :
  install_one env d use_symlink s w = (Ok p, w') → p = destination_of d s.
Proof.
  unfold install_one, destination_of. cbv zeta. unfold bind at 1.
  match goal with |- context [match ?m w with _ => _ end] =>
    destruct (m w) as [[[]|e] w1] end; [|done].
  unfold bind at 1.
  match goal with |- context [match ?m w1 with _ => _ end] =>
    destruct (m w1) as [[[]|e] w2] end; [|done].
  by intros [= <- <-].
Qed.

Lemma install_loop_Ok_paths (env : environ) (d : path) (use_symlink : bool)
    (l acc ps : list path) (w w' : world) :
  install_loop env l d use_symlink acc w = (Ok ps, w') →
  ps = acc ++ map (destination_of d) l.
Proof.
  revert acc w. induction l as [|s l IH]; intros acc w.
  - intros [= <- <-]. by rewrite app_nil_r.
  - rewrite install_loop_cons.
    destruct (install_one env d use_symlink s w) as [[p|e] w1] eqn:Hone; [|done].
    apply install_one_Ok_path in Hone as ->.
    intros H%IH. by rewrite H, <- app_assoc.
Qed.

Lemma real_dir_delete_non_dir (fs : gmap path node) (p k : path) :
  real_dir fs p → (∀ m, fs !! k ≠ Some (Dir m)) → real_dir (delete k fs) p.
Proof.
  intros Hreal Hk pre Hpre Hne.
  destruct (Hreal pre Hpre Hne) as [m Hm].
  exists m. rewrite lookup_delete_ne; [done|]. intros ->. by apply (Hk m).
Qed.

Lemma resolve_regular_file (fs : gmap path node) (b : path) (name : string)
    (perm : Z) (data : string) :
  real_dir fs b → Forall plain_name b → plain_name name →
  fs !! (b ++ [name]) = Some (File perm data) →
  resolve fs (b // name) = b // name.
Proof.
  intros Hreal Hplain Hname Hfile.
  assert (Hstat := stat_canonical fs b name Hreal Hplain Hname).
  rewrite Hfile in Hstat. unfold stat in Hstat.
  apply realpath_walk in Hstat as (Hres & _); [|apply real_dir_nil|constructor].
  exact Hres.
Qed.

(** One round of the loop for a regular file of another canonical
    directory. *)

Lemma install_one_regular (env : environ) (w : world) (d b : path)
    (use_symlink : bool) (name : string) (perm : Z) (data : string) :
  real_dir (w_fs w) d → Forall plain_name d →
  real_dir (w_fs w) b → Forall plain_name b → b ≠ d →
  plain_name name →
  w_fs w !! (b ++ [name]) = Some (File perm data) →
  (∀ m, w_fs w !! (d ++ [name]) ≠ Some (Dir m)) →
  install_one env d use_symlink (b // name) w
  = (Ok (d // name),
     with_fs w (<[d ++ [name] := installed_node use_symlink (b // name) perm data]>
                  (w_fs w))).
Proof.
  intros Hd Hpd Hb Hpb Hne Hname Hfile Hfree.
  rewrite install_one_spec; [|done|done|by rewrite path_name_join].
  unfold install_one_outcome. rewrite path_name_join. cbv zeta.
  set (kd := d ++ [name]) in *.
  assert (Hb1 : real_dir (delete kd (w_fs w)) b) by by apply real_dir_delete_non_dir.
  assert (Hfile1 : delete kd (w_fs w) !! (b ++ [name]) = Some (File perm data)).
  { rewrite lookup_delete_ne; [done|]. unfold kd. intros [? _]%app_inj_tail. done. }
  assert (Hnodir : match w_fs w !! kd with Some (Dir _) => False | _ => True end).
  { destruct (w_fs w !! kd) as [[| |]|] eqn:E; try done. by apply (Hfree st_perm). }
  destruct (w_fs w !! kd) as [[| |]|] eqn:E; try done; destruct use_symlink;
    unfold installed_node;
    rewrite ?(resolve_regular_file _ _ _ _ _ Hb1 Hpb Hname Hfile1),
            ?(stat_canonical _ _ _ Hb1 Hpb Hname), ?Hfile1, ?insert_delete_eq; done.
Qed.

Lemma destination_of_join (d b : path) (name : string) :
  destination_of d (b // name) = d ++ [name].
Proof. unfold destination_of. by rewrite path_name_join. Qed.

Lemma install_loop_regular (env : environ) (d b : path) (use_symlink : bool)
    (sources acc : list path) (w : world) :
  Forall plain_name d → Forall plain_name b → b ≠ d →
  real_dir (w_fs w) d → real_dir (w_fs w) b →
  regular_files_of (w_fs w) b sources →
  no_directory_in_the_way (w_fs w) d sources →
  ∃ fs',
    install_loop env sources d use_symlink acc w
      = (Ok (acc ++ map (destination_of d) sources), with_fs w fs')
    ∧ (∀ s perm data, s ∈ sources → w_fs w !! s = Some (File perm data) →
         fs' !! destination_of d s = Some (installed_node use_symlink s perm data))
    ∧ (∀ k, k ∉ map (destination_of d) sources → fs' !! k = w_fs w !! k).
Proof.
  intros Hpd Hpb Hne. revert acc w.
  induction sources as [|s l IH]; intros acc w Hd Hb Hreg Hfree.
  - exists (w_fs w). cbn [install_loop map]. rewrite app_nil_r, with_fs_id.
    split_and!; [done| |done]. intros s perm data Hs. by apply elem_of_nil in Hs.
  - apply Forall_cons in Hreg as [(name & perm & data & -> & Hname & Hfile) Hreg].
    apply Forall_cons in Hfree as [Hfree_s Hfree].
    rewrite destination_of_join in Hfree_s.
    rewrite install_loop_cons.
    rewrite (install_one_regular env w d b use_symlink name perm data) by done.
    set (v := installed_node use_symlink (b // name) perm data).
    set (fs1 := <[d ++ [name] := v]> (w_fs w)).
    assert (Hv : ∀ m, v ≠ Dir m) by (intros m; unfold v, installed_node; by destruct use_symlink).
    assert (Hkey : ∀ name', b ++ [name'] ≠ d ++ [name]).
    { intros name' [? _]%app_inj_tail. done. }
    destruct (IH (acc ++ [d // name]) (with_fs w fs1)) as (fs' & Hrun & Hdest & Hother).
    + by apply real_dir_insert_child.
    + by apply real_dir_insert_non_dir.
    + eapply Forall_impl; [exact Hreg|]. cbn [w_fs with_fs].
      intros s (name' & perm' & data' & -> & Hname' & Hfile').
      exists name', perm', data'. split_and!; [done|done|].
      unfold fs1. rewrite lookup_insert_ne; [done|]. intros E. by apply (Hkey name').
    + eapply Forall_impl; [exact Hfree|]. cbn [w_fs with_fs].
      intros s Hs m. unfold fs1.
      destruct (decide (d ++ [name] = destination_of d s)) as [<-|Hk].
      * rewrite lookup_insert_eq. intros [= E]. by apply (Hv m).
      * by rewrite lookup_insert_ne.
    + cbn [w_fs with_fs] in *. exists fs'. split_and!.
      * rewrite Hrun. cbn [map]. rewrite destination_of_join.
        rewrite <- app_assoc. reflexivity.
      * intros s perm' data' Hs Hlook.
        destruct (decide (s ∈ l)) as [Hin|Hnin].
        -- apply Hdest; [done|].
           apply Forall_forall with (x := s) in Hreg as (name' & ? & ? & -> & _); [|done].
           unfold fs1. rewrite lookup_insert_ne; [done|]. intros E. by apply (Hkey name').
        -- apply elem_of_cons in Hs as [->|Hs]; [|done].
           destruct (decide (destination_of d (b // name) ∈ map (destination_of d) l))
             as [Hin'|Hnin'].
           ++ apply list_elem_of_fmap in Hin' as (s' & E & Hs').
              apply Forall_forall with (x := s') in Hreg as (name' & ? & ? & -> & _); [|done].
              rewrite !destination_of_join in E. apply app_inj_tail in E as [_ ->].
              done.
           ++ rewrite (Hother _ Hnin'), destination_of_join. unfold fs1.
              rewrite lookup_insert_eq. unfold v. congruence.
      * intros k Hk. cbn [map] in Hk. apply not_elem_of_cons in Hk as [Hk1 Hk2].
        rewrite (Hother _ Hk2). unfold fs1. rewrite lookup_insert_ne; [done|].
        by rewrite destination_of_join in Hk1.
Qed.

Lemma install_loop_symlink (env : environ) (d : path) (sources acc : list path)
    (w : world) :
  Forall plain_name d → real_dir (w_fs w) d →
  Forall (λ s, plain_name (path_name s)) sources →
  no_directory_in_the_way (w_fs w) d sources →
  ∃ fs',
    install_loop env sources d true acc w
      = (Ok (acc ++ map (destination_of d) sources), with_fs w fs')
    ∧ (∀ s, s ∈ sources → ∃ target, fs' !! destination_of d s = Some (Symlink target))
    ∧ (∀ k, k ∉ map (destination_of d) sources → fs' !! k = w_fs w !! k).
Proof.
  intros Hpd. revert acc w.
  induction sources as [|s l IH]; intros acc w Hd Hnames Hfree.
  - exists (w_fs w). cbn [install_loop map]. rewrite app_nil_r, with_fs_id.
    split_and!; [done| |done]. intros s Hs. by apply elem_of_nil in Hs.
  - apply Forall_cons in Hnames as [Hname Hnames].
    apply Forall_cons in Hfree as [Hfree_s Hfree].
    rewrite install_loop_cons, install_one_spec by done.
    unfold install_one_outcome. cbv zeta.
    unfold destination_of, path_join in Hfree_s.
    set (kd := d ++ [path_name s]) in *.
    set (fs1 := <[kd := Symlink (resolve (delete kd (w_fs w)) s)]> (delete kd (w_fs w))).
    assert (Hstep : match w_fs w !! kd with
                    | Some (Dir _) =>
                        (Raise (cannot_replace_directory (d // path_name s)), w)
                    | _ => (Ok (d // path_name s), with_fs w fs1)
                    end = (Ok (d // path_name s), with_fs w fs1)).
    { destruct (w_fs w !! kd) as [[| |]|] eqn:E; try done. by destruct (Hfree_s st_perm). }
    rewrite Hstep. clear Hstep.
    destruct (IH (acc ++ [d // path_name s]) (with_fs w fs1)) as (fs' & Hrun & Hdest & Hother).
    + cbn [w_fs with_fs]. by apply real_dir_insert_child, real_dir_delete_child.
    + done.
    + eapply Forall_impl; [exact Hfree|]. cbn [w_fs with_fs].
      intros s' Hs' m. unfold fs1.
      destruct (decide (kd = destination_of d s')) as [<-|Hk].
      * by rewrite lookup_insert_eq.
      * rewrite lookup_insert_ne, lookup_delete_ne; done.
    + cbn [w_fs with_fs] in *. exists fs'. split_and!.
      * rewrite Hrun. cbn [map]. by rewrite <- app_assoc.
      * intros s' [->|Hs']%elem_of_cons; [|by apply Hdest].
        destruct (decide (destination_of d s ∈ map (destination_of d) l)) as [Hin|Hnin].
        -- apply list_elem_of_fmap in Hin as (s' & -> & Hs'). by apply Hdest.
        -- rewrite (Hother _ Hnin). unfold fs1, destination_of, path_join. fold kd.
           rewrite lookup_insert_eq. eauto.
      * intros k Hk. cbn [map] in Hk. apply not_elem_of_cons in Hk as [Hk1 Hk2].
        rewrite (Hother _ Hk2). unfold fs1.
        rewrite lookup_insert_ne, lookup_delete_ne; done.
Qed.

Lemma realpath_through (fuel : nat) (fs : gmap path node) (cur d : path)
    (rest : list string) :
  real_dir fs (cur ++ d) → Forall plain_name d →
  realpath (S fuel) fs cur (d ++ rest) = realpath (S fuel) fs (cur ++ d) rest.
Proof.
  revert cur. induction d as [|c d IH]; intros cur Hreal Hplain.
  - by rewrite app_nil_r.
  - apply Forall_cons in Hplain as [Hc Hd].
    destruct (plain_name_eqb c Hc) as [E1 E2].
    rewrite <- app_comm_cons, realpath_cons, E1, E2.
    destruct (Hreal (cur ++ [c])) as [m ->].
    + rewrite (cons_middle c cur d), app_assoc. by apply prefix_app_r.
    + by destruct cur.
    + rewrite (cons_middle c cur d), app_assoc in Hreal |- *. by apply IH.
Qed.

Lemma resolve_missing_entry (fs : gmap path node) (d : path) (name : string) :
  real_dir fs d → Forall plain_name d → plain_name name →
  fs !! (d ++ [name]) = None → resolve fs (d // name) = d // name.
Proof.
  intros Hreal Hplain Hname Hnone. unfold resolve, path_join.
  rewrite (realpath_through _ _ [] d [name]) by done. cbn [app].
  destruct (plain_name_eqb name Hname) as [E1 E2].
  by rewrite realpath_cons, E1, E2, Hnone, realpath_nil.
Qed.

Lemma install_loop_self_symlink (env : environ) (d : path) (sources acc : list path)
    (w : world) :
  Forall plain_name d → real_dir (w_fs w) d →
  regular_files_of (w_fs w) d sources → NoDup sources →
  ∃ fs',
    install_loop env sources d true acc w = (Ok (acc ++ sources), with_fs w fs')
    ∧ (∀ s, s ∈ sources → fs' !! s = Some (Symlink s))
    ∧ (∀ k, k ∉ sources → fs' !! k = w_fs w !! k).
Proof.
  intros Hpd. revert acc w.
  induction sources as [|s l IH]; intros acc w Hd Hreg Hnodup.
  - exists (w_fs w). cbn [install_loop]. rewrite app_nil_r, with_fs_id.
    split_and!; [done| |done]. intros s Hs. by apply elem_of_nil in Hs.
  - apply Forall_cons in Hreg as [(name & perm & data & -> & Hname & Hfile) Hreg].
    apply NoDup_cons in Hnodup as [Hnin Hnodup].
    rewrite install_loop_cons, install_one_spec; [|done|done|by rewrite path_name_join].
    unfold install_one_outcome. rewrite path_name_join. cbv zeta.
    unfold path_join in Hfile. rewrite Hfile.
    rewrite resolve_missing_entry;
      [|by apply real_dir_delete_child|done|done|apply lookup_delete_eq].
    rewrite insert_delete_eq. fold (d // name).
    set (fs1 := <[d // name := Symlink (d // name)]> (w_fs w)).
    destruct (IH (acc ++ [d // name]) (with_fs w fs1)) as (fs' & Hrun & Hdest & Hother).
    + cbn [w_fs with_fs]. by apply real_dir_insert_child.
    + eapply Forall_forall. intros s Hs. cbn [w_fs with_fs].
      apply Forall_forall with (x := s) in Hreg as (name' & perm' & data' & -> & ? & ?);
        [|done].
      exists name', perm', data'. split_and!; [done|done|].
      unfold fs1. rewrite lookup_insert_ne; [done|]. intros E. apply Hnin. by rewrite E.
    + done.
    + cbn [w_fs with_fs] in *. exists fs'. split_and!.
      * rewrite Hrun. by rewrite <- app_assoc.
      * intros s' [->|Hs']%elem_of_cons; [|by apply Hdest].
        rewrite (Hother _ Hnin). unfold fs1. by rewrite lookup_insert_eq.
      * intros k [Hk1 Hk2]%not_elem_of_cons.
        rewrite (Hother _ Hk2). unfold fs1. by rewrite lookup_insert_ne.
Qed.

Lemma stat_self_link (fuel : nat) (fs : gmap path node) (d : path) (name : string) :
  real_dir fs d → Forall plain_name d → plain_name name →
  fs !! (d ++ [name]) = Some (Symlink (d ++ [name])) →
  walk fuel fs true [] (d ++ [name]) = Fail ELOOP.
Proof.
  intros Hreal Hplain Hname Hlink. induction fuel as [|fuel IH]; [done|].
  rewrite (walk_through _ _ _ [] d [name]) by done. cbn [app].
  destruct (plain_name_eqb name Hname) as [E1 E2].
  by rewrite walk_cons, E1, E2, Hlink, app_nil_r.
Qed.

Lemma example_two_regular :
  regular_files_of example_fs_two ["repo"; "bin"]
    [["repo"; "bin"; "hello"]; ["repo"; "bin"; "world"]].
Proof.
  repeat apply Forall_cons_2; [| |apply Forall_nil_2].
  - exists "hello"%string, 420, "#!/bin/sh"%string.
    split_and!; [reflexivity|apply plain_nameb_spec; reflexivity|vm_compute; reflexivity].
  - exists "world"%string, 384, "#!/bin/sh"%string.
    split_and!; [reflexivity|apply plain_nameb_spec; reflexivity|vm_compute; reflexivity].
Qed.

(** X1.  What the install loop returns.  Whenever [install_scripts_with_mode]
    returns at all, in either mode and for any file system, the list it
    returns names [install_dir / source.name] for every source script, in the
    order of the sources. *)
Theorem install_returns_destinations (env : environ) (sources : list path)
    (d : path) (use_symlink : bool) (w w' : world) (installed_paths : list path) :
  install_scripts_with_mode env sources d use_symlink w = (Ok installed_paths, w') →
  installed_paths = map (destination_of d) sources.
Proof. apply install_loop_Ok_paths. Qed.

Lemma install_returns_destinations_witness :
  let d := ["home"; "u"; "bin"] in
  let sources := [["repo"; "bin"; "hello"]; ["repo"; "bin"; "world"]] in
  [d // "hello"; d // "world"] = map (destination_of d) sources.
Proof.
  intros d sources.
  apply (install_returns_destinations example_env sources d false
           (World example_fs_two [] [])
           (snd (install_scripts_with_mode example_env sources d false
                   (World example_fs_two [] [])))).
  vm_compute. reflexivity.
Defined.

(** X2.  The install loop keeps to the destinations.  For a canonical install
    directory and sources with plain names, whether the loop succeeds or
    raises: every entry of the file system other than the destinations
    [install_dir / source.name] is as it was; every directory that existed
    still exists, with its mode; nothing is read from the terminal and
    nothing is printed; and an exception that leaves the loop is an
    [OSError], the kind [main] catches. *)
Theorem install_touches_destinations_only (env : environ) (sources : list path)
    (d : path) (use_symlink : bool) (w w' : world) (r : result (list path)) :
  real_dir (w_fs w) d → Forall plain_name d →
  Forall (λ s, plain_name (path_name s)) sources →
  install_scripts_with_mode env sources d use_symlink w = (r, w') →
  (∀ k, k ∉ map (destination_of d) sources → w_fs w' !! k = w_fs w !! k)
  ∧ (∀ k m, w_fs w !! k = Some (Dir m) → w_fs w' !! k = Some (Dir m))
  ∧ w_stdin w' = w_stdin w ∧ w_stdout w' = w_stdout w
  ∧ (∀ e, r = Raise e → is_OSError e).
Proof.
  intros Hreal Hplain Hnames Hrun.
  destruct (install_loop_inv env d use_symlink Hplain _ _ _ _ _ Hreal Hnames Hrun)
    as (_ & Hdir & Hother & Hin & Hout & Herr).
  split_and!; try done.
  intros k Hk. apply Hother. intros s Hs ->. apply Hk.
  by apply (list_elem_of_fmap_2 (destination_of d)).
Qed.

Lemma install_touches_destinations_only_witness :
  let d := ["home"; "u"; "bin"] in
  let sources := [["repo"; "bin"; "a"]; ["repo"; "bin"; "b"]; ["repo"; "bin"; "c"]] in
  let w := World example_fs_blocked ["y"] ["$ install"] in
  let r := fst (install_scripts_with_mode example_env sources d true w) in
  let w' := snd (install_scripts_with_mode example_env sources d true w) in
  (∀ k, k ∉ map (destination_of d) sources → w_fs w' !! k = w_fs w !! k)
  ∧ (∀ k m, w_fs w !! k = Some (Dir m) → w_fs w' !! k = Some (Dir m))
  ∧ w_stdin w' = w_stdin w ∧ w_stdout w' = w_stdout w
  ∧ (∀ e, r = Raise e → is_OSError e).
Proof.
  intros d sources w r w'.
  apply (install_touches_destinations_only example_env sources d true w w' r).
  - apply real_dirb_spec. vm_compute. reflexivity.
  - apply (Forall_plain_nameb id). vm_compute. reflexivity.
  - apply (Forall_plain_nameb path_name). vm_compute. reflexivity.
  - vm_compute. reflexivity.
Defined.

(** X3.  Installing regular files.  Let the sources be regular files of a
    canonical directory [b], the install directory [d] be another canonical
    directory, and no directory lie at a destination.  Then the loop
    succeeds in both modes; it returns the destinations; each destination
    holds, in copy mode, a regular file with the text of its source whose
    permission bits are those of the source or-ed with [S_IXUSR], and in
    symlink mode a link to the source; and no other entry is changed. *)
Theorem install_regular_files (env : environ) (d b : path) (use_symlink : bool)
    (sources : list path) (w : world) :
  Forall plain_name d → Forall plain_name b → b ≠ d →
  real_dir (w_fs w) d → real_dir (w_fs w) b →
  regular_files_of (w_fs w) b sources →
  no_directory_in_the_way (w_fs w) d sources →
  ∃ w',
    install_scripts_with_mode env sources d use_symlink w
      = (Ok (map (destination_of d) sources), w')
    ∧ (∀ s perm data, s ∈ sources → w_fs w !! s = Some (File perm data) →
         w_fs w' !! destination_of d s = Some (installed_node use_symlink s perm data))
    ∧ (∀ k, k ∉ map (destination_of d) sources → w_fs w' !! k = w_fs w !! k)
    ∧ w_stdin w' = w_stdin w ∧ w_stdout w' = w_stdout w.
Proof.
  intros Hpd Hpb Hne Hd Hb Hreg Hfree.
  destruct (install_loop_regular env d b use_symlink sources [] w
              Hpd Hpb Hne Hd Hb Hreg Hfree) as (fs' & Hrun & Hdest & Hother).
  exists (with_fs w fs'). split_and!; done.
Qed.

Lemma install_regular_files_witness :
  let d := ["home"; "u"; "bin"] in
  let sources := [["repo"; "bin"; "hello"]; ["repo"; "bin"; "world"]] in
  let w := World example_fs_two [] [] in
  ∃ w',
    install_scripts_with_mode example_env sources d false w
      = (Ok (map (destination_of d) sources), w')
    ∧ (∀ s perm data, s ∈ sources → w_fs w !! s = Some (File perm data) →
         w_fs w' !! destination_of d s = Some (installed_node false s perm data))
    ∧ (∀ k, k ∉ map (destination_of d) sources → w_fs w' !! k = w_fs w !! k)
    ∧ w_stdin w' = w_stdin w ∧ w_stdout w' = w_stdout w.
Proof.
  intros d sources w.
  apply (install_regular_files example_env d ["repo"; "bin"] false sources w).
  - apply (Forall_plain_nameb id). vm_compute. reflexivity.
  - apply (Forall_plain_nameb id). vm_compute. reflexivity.
  - discriminate.
  - apply real_dirb_spec. vm_compute. reflexivity.
  - apply real_dirb_spec. vm_compute. reflexivity.
  - exact example_two_regular.
  - repeat apply Forall_cons_2; [| |apply Forall_nil_2]; intros m; vm_compute; discriminate.
Defined.

(** X4.  Installing twice.  After a successful install of regular files of a
    canonical directory [b] into another canonical directory [d], running the
    same install again succeeds, returns the same paths and leaves the
    world exactly as the first run made it. *)
Theorem reinstall_changes_nothing (env : environ) (d b : path) (use_symlink : bool)
    (sources : list path) (w w' : world) (installed_paths : list path) :
  Forall plain_name d → Forall plain_name b → b ≠ d →
  real_dir (w_fs w) d → real_dir (w_fs w) b →
  regular_files_of (w_fs w) b sources →
  install_scripts_with_mode env sources d use_symlink w = (Ok installed_paths, w') →
  install_scripts_with_mode env sources d use_symlink w' = (Ok installed_paths, w').
Proof.
  intros Hpd Hpb Hne Hd Hb Hreg Hrun.
  assert (Hget : ∀ s, s ∈ sources → ∃ name perm data,
             s = b // name ∧ plain_name name ∧ w_fs w !! s = Some (File perm data)).
  { by apply Forall_forall. }
  assert (Hnames : Forall (λ s, plain_name (path_name s)) sources).
  { eapply Forall_impl; [exact Hreg|]. intros s (name & ? & ? & -> & Hname & _).
    by rewrite path_name_join. }
  assert (Hfree : no_directory_in_the_way (w_fs w) d sources).
  { apply Forall_forall. intros s Hs m Hm.
    destruct (install_loop_blocked env d use_symlink Hpd sources [] w w' _ s m
                Hd Hnames Hs Hm Hrun) as (e & [=] & _). }
  destruct (install_loop_regular env d b use_symlink sources [] w
              Hpd Hpb Hne Hd Hb Hreg Hfree) as (fs' & Hrun' & Hdest & Hother).
  unfold install_scripts_with_mode in Hrun. rewrite Hrun in Hrun'.
  injection Hrun' as -> ->. cbn [app w_fs with_fs] in *.
  assert (Hkey : ∀ s, s ∈ sources → s ∉ map (destination_of d) sources).
  { intros s Hs Hin. apply list_elem_of_fmap in Hin as (s' & E & Hs').
    destruct (Hget s Hs) as (name & ? & ? & -> & _).
    destruct (Hget s' Hs') as (name' & ? & ? & -> & _).
    rewrite destination_of_join in E. unfold path_join in E.
    apply app_inj_tail in E as [? _]. done. }
  assert (Hreg' : regular_files_of fs' b sources).
  { apply Forall_forall. intros s Hs.
    assert (Hs0 := Hs). destruct (Hget s Hs) as (name & perm & data & -> & Hname & Hfile).
    exists name, perm, data. split_and!; [done|done|].
    rewrite Hother; [done|]. by apply Hkey. }
  assert (Hfree' : no_directory_in_the_way fs' d sources).
  { apply Forall_forall. intros s Hs m.
    assert (Hs0 := Hs). destruct (Hget s Hs) as (name & perm & data & -> & Hname & Hfile).
    rewrite (Hdest _ _ _ Hs0 Hfile). unfold installed_node. by destruct use_symlink. }
  destruct (install_loop_regular env d b use_symlink sources [] (with_fs w fs')
              Hpd Hpb Hne) as (fs'' & Hrun'' & Hdest'' & Hother''); cbn [w_fs with_fs]; try done.
  { intros pre Hpre Hn. destruct (Hd pre Hpre Hn) as [m Hm].
    destruct (install_loop_inv env d use_symlink Hpd _ _ _ _ _ Hd Hnames Hrun)
      as (_ & Hdir & _). exists m. by apply (Hdir pre m). }
  { intros pre Hpre Hn. destruct (Hb pre Hpre Hn) as [m Hm].
    destruct (install_loop_inv env d use_symlink Hpd _ _ _ _ _ Hd Hnames Hrun)
      as (_ & Hdir & _). exists m. by apply (Hdir pre m). }
  unfold install_scripts_with_mode. rewrite Hrun''. cbn [app w_fs with_fs] in *.
  f_equal. unfold with_fs. cbn [w_stdin w_stdout w_fs]. f_equal.
  apply map_eq. intros k.
  destruct (decide (k ∈ map (destination_of d) sources)) as [Hin|Hnin].
  - apply list_elem_of_fmap in Hin as (s & -> & Hs).
    assert (Hs0 := Hs). destruct (Hget s Hs) as (name & perm & data & -> & Hname & Hfile).
    rewrite (Hdest _ _ _ Hs0 Hfile). apply Hdest''; [done|].
    rewrite Hother; [done|]. by apply Hkey.
  - by apply Hother''.
Qed.

Lemma reinstall_changes_nothing_witness :
  let d := ["home"; "u"; "bin"] in
  let sources := [["repo"; "bin"; "hello"]; ["repo"; "bin"; "world"]] in
  let w := World example_fs_two [] [] in
  let w' := snd (install_scripts_with_mode example_env sources d true w) in
  install_scripts_with_mode example_env sources d true w'
  = (Ok [d // "hello"; d // "world"], w').
Proof.
  intros d sources w w'.
  apply (reinstall_changes_nothing example_env d ["repo"; "bin"] true sources w w').
  - apply (Forall_plain_nameb id). vm_compute. reflexivity.
  - apply (Forall_plain_nameb id). vm_compute. reflexivity.
  - discriminate.
  - apply real_dirb_spec. vm_compute. reflexivity.
  - apply real_dirb_spec. vm_compute. reflexivity.
  - exact example_two_regular.
  - vm_compute. reflexivity.
Defined.

(** X5.  Symlink mode does not look at the sources.  For a canonical install
    directory, plain names and no directory at a destination, the loop in
    symlink mode succeeds whatever the sources are, existing or not: every
    destination ends as a symbolic link and no other entry is changed. *)
Theorem symlink_mode_needs_no_source (env : environ) (d : path)
    (sources : list path) (w : world) :
  Forall plain_name d → real_dir (w_fs w) d →
  Forall (λ s, plain_name (path_name s)) sources →
  no_directory_in_the_way (w_fs w) d sources →
  ∃ w',
    install_scripts_with_mode env sources d true w
      = (Ok (map (destination_of d) sources), w')
    ∧ (∀ s, s ∈ sources →
         ∃ target, w_fs w' !! destination_of d s = Some (Symlink target))
    ∧ (∀ k, k ∉ map (destination_of d) sources → w_fs w' !! k = w_fs w !! k).
Proof.
  intros Hpd Hd Hnames Hfree.
  destruct (install_loop_symlink env d sources [] w Hpd Hd Hnames Hfree)
    as (fs' & Hrun & Hdest & Hother).
  by exists (with_fs w fs').
Qed.

Lemma symlink_mode_needs_no_source_witness :
  let d := ["home"; "u"; "bin"] in
  let sources := [["repo"; "bin"; "ghost"]] in
  let w := World example_fs_paths [] [] in
  ∃ w',
    install_scripts_with_mode example_env sources d true w
      = (Ok (map (destination_of d) sources), w')
    ∧ (∀ s, s ∈ sources →
         ∃ target, w_fs w' !! destination_of d s = Some (Symlink target))
    ∧ (∀ k, k ∉ map (destination_of d) sources → w_fs w' !! k = w_fs w !! k).
Proof.
  intros d sources w.
  apply (symlink_mode_needs_no_source example_env d sources w).
  - apply (Forall_plain_nameb id). vm_compute. reflexivity.
  - apply real_dirb_spec. vm_compute. reflexivity.
  - apply (Forall_plain_nameb path_name). vm_compute. reflexivity.
  - repeat apply Forall_cons_2; [|apply Forall_nil_2]; intros m; vm_compute; discriminate.
Defined.

(** X6.  Copying into the source directory itself.  When the install
    directory is the canonical directory that holds the first script, a
    regular file, the loop in copy mode removes that script (it is its own
    destination), then fails to copy it: it raises the [ENOENT] error for
    the script and leaves a file system in which the script is gone. *)
Theorem copy_into_source_directory_loses_script (env : environ) (d : path)
    (name : string) (perm : Z) (data : string) (rest : list path) (w : world) :
  Forall plain_name d → real_dir (w_fs w) d → plain_name name →
  w_fs w !! (d // name) = Some (File perm data) →
  install_scripts_with_mode env (d // name :: rest) d false w
  = (Raise (os_error ENOENT (d // name)), with_fs w (delete (d // name) (w_fs w))).
Proof.
  intros Hpd Hd Hname Hfile. unfold install_scripts_with_mode.
  rewrite install_loop_cons, install_one_spec; [|done|done|by rewrite path_name_join].
  unfold install_one_outcome. rewrite path_name_join. cbv zeta.
  unfold path_join in Hfile. rewrite Hfile.
  rewrite (stat_canonical _ d name); [|by apply real_dir_delete_child|done|done].
  by rewrite lookup_delete_eq.
Qed.

Lemma copy_into_source_directory_loses_script_witness :
  let d := ["repo"; "bin"] in
  let w := World example_fs_two [] [] in
  install_scripts_with_mode example_env [d // "hello"; d // "world"] d false w
  = (Raise (os_error ENOENT (d // "hello")),
     with_fs w (delete (d // "hello") (w_fs w))).
Proof.
  intros d w.
  apply (copy_into_source_directory_loses_script example_env d "hello" 420 "#!/bin/sh"
           [d // "world"] w).
  - apply (Forall_plain_nameb id). vm_compute. reflexivity.
  - apply real_dirb_spec. vm_compute. reflexivity.
  - apply plain_nameb_spec. reflexivity.
  - vm_compute. reflexivity.
Defined.

(** X7.  Linking into the source directory itself.  When the install
    directory is the canonical directory that holds the scripts, regular
    files, the loop in symlink mode succeeds and replaces every script by a
    symbolic link to its own path: its text is gone and following the path
    fails with [ELOOP].  No other entry is changed. *)
Theorem symlink_into_source_directory_self_links (env : environ) (d : path)
    (sources : list path) (w : world) :
  Forall plain_name d → real_dir (w_fs w) d →
  regular_files_of (w_fs w) d sources → NoDup sources →
  ∃ w',
    install_scripts_with_mode env sources d true w = (Ok sources, w')
    ∧ (∀ s, s ∈ sources → w_fs w' !! s = Some (Symlink s)
                          ∧ stat (w_fs w') s = Fail ELOOP)
    ∧ (∀ k, k ∉ sources → w_fs w' !! k = w_fs w !! k).
Proof.
  intros Hpd Hd Hreg Hnodup.
  destruct (install_loop_self_symlink env d sources [] w Hpd Hd Hreg Hnodup)
    as (fs' & Hrun & Hdest & Hother).
  exists (with_fs w fs'). cbn [w_fs with_fs]. split_and!; [done| |done].
  intros s Hs. split; [by apply Hdest|].
  assert (Hd' : real_dir fs' d).
  { intros pre Hpre Hn. destruct (Hd pre Hpre Hn) as [m Hm]. exists m.
    rewrite Hother; [done|]. intros Hin.
    apply Forall_forall with (x := pre) in Hreg as (? & ? & ? & _ & _ & Hfile); [|done].
    congruence. }
  assert (Hlink := Hdest s Hs).
  apply Forall_forall with (x := s) in Hreg as (name & ? & ? & -> & Hname & _); [|done].
  unfold stat. by apply stat_self_link.
Qed.

Lemma symlink_into_source_directory_self_links_witness :
  let d := ["repo"; "bin"] in
  let sources := [d // "hello"; d // "world"] in
  let w := World example_fs_two [] [] in
  ∃ w',
    install_scripts_with_mode example_env sources d true w = (Ok sources, w')
    ∧ (∀ s, s ∈ sources → w_fs w' !! s = Some (Symlink s)
                          ∧ stat (w_fs w') s = Fail ELOOP)
    ∧ (∀ k, k ∉ sources → w_fs w' !! k = w_fs w !! k).
Proof.
  intros d sources w.
  apply (symlink_into_source_directory_self_links example_env d sources w).
  - apply (Forall_plain_nameb id). vm_compute. reflexivity.
  - apply real_dirb_spec. vm_compute. reflexivity.
  - exact example_two_regular.
  - match goal with |- ?P => apply (bool_decide_unpack P) end. vm_compute. exact I.
Defined.

(* ===================================================================== *)
(** * What every run respects *)
(* ===================================================================== *)

Lemma walk_Found_node_at (fuel : nat) (fs : gmap path node) (follow : bool)
    (cur : path) (rest : list string) (q : path) (n : node) :
  walk fuel fs follow cur rest = Found q n → node_at fs q = Some n.
Proof.
  revert cur rest. induction fuel as [|fuel IHf]; [done|].
  intros cur rest. revert cur. induction rest as [|c rest IHr]; intros cur.
  - rewrite walk_nil. destruct (node_at fs cur) eqn:E; [|done]. by intros [= <- <-].
  - rewrite walk_cons.
    destruct (String.eqb c "."); [apply IHr|].
    destruct (String.eqb c ".."); [apply IHr|].
    destruct (fs !! (cur ++ [c])) as [[perm data|m|t]|] eqn:E.
    + destruct rest; [|done]. intros [= <- <-]. unfold node_at.
      rewrite E. by destruct cur.
    + apply IHr.
    + destruct rest, follow; try apply IHf.
      intros [= <- <-]. unfold node_at. rewrite E. by destruct cur.
    + by destruct rest.
Qed.

Lemma walk_Absent_None (fuel : nat) (fs : gmap path node) (follow : bool)
    (cur : path) (rest : list string) (d : path) (c : string) :
  walk fuel fs follow cur rest = Absent d c → fs !! (d ++ [c]) = None.
Proof.
  revert cur rest. induction fuel as [|fuel IHf]; [done|].
  intros cur rest. revert cur. induction rest as [|c' rest IHr]; intros cur.
  - rewrite walk_nil. by destruct (node_at fs cur).
  - rewrite walk_cons.
    destruct (String.eqb c' "."); [apply IHr|].
    destruct (String.eqb c' ".."); [apply IHr|].
    destruct (fs !! (cur ++ [c'])) as [[perm data|m|t]|] eqn:E.
    + by destruct rest.
    + apply IHr.
    + destruct rest, follow; try apply IHf. done.
    + destruct rest; [|done]. by intros [= <- <-].
Qed.

Lemma Found_not_dir_key (fs : gmap path node) (q : path) (n : node) :
  node_at fs q = Some n → (∀ m, n ≠ Dir m) → ∀ m, fs !! q ≠ Some (Dir m).
Proof.
  destruct q as [|c q]; cbn [node_at].
  - intros [= <-] Hn. by destruct (Hn 493).
  - intros -> Hn m [= ->]. by apply (Hn m).
Qed.

Section orderly.
Context (quiet : bool).

Lemma orderly_refl (w : world) : orderly quiet w w.
Proof. split_and!; eauto. Qed.

Lemma orderly_trans (w1 w2 w3 : world) :
  orderly quiet w1 w2 → orderly quiet w2 w3 → orderly quiet w1 w3.
Proof.
  intros (Hd & Ho & Hi & Hq) (Hd' & Ho' & Hi' & Hq'). split_and!.
  - intros k m Hk. destruct (Hd k m Hk) as [m' Hm']. eauto.
  - by etrans.
  - by etrans.
  - intros Hy. by rewrite Hq', Hq.
Qed.

(** A change of the file system that keeps the directories. *)
Lemma orderly_with_fs (w : world) (fs' : gmap path node) :
  (∀ k m, w_fs w !! k = Some (Dir m) → ∃ m', fs' !! k = Some (Dir m')) →
  orderly quiet w (World fs' (w_stdin w) (w_stdout w)).
Proof. intros Hd. split_and!; done. Qed.

Lemma orderly_insert_free (w : world) (k : path) (v : node) :
  (∀ m, w_fs w !! k ≠ Some (Dir m)) →
  orderly quiet w (World (<[k := v]> (w_fs w)) (w_stdin w) (w_stdout w)).
Proof.
  intros Hk. apply orderly_with_fs. intros k' m Hm. exists m.
  rewrite lookup_insert_ne; [done|]. intros ->. by apply (Hk m).
Qed.

Lemma orderly_insert_dir (w : world) (k : path) (m : Z) :
  orderly quiet w (World (<[k := Dir m]> (w_fs w)) (w_stdin w) (w_stdout w)).
Proof.
  apply orderly_with_fs. intros k' m' Hm.
  destruct (decide (k = k')) as [->|Hne].
  - rewrite lookup_insert_eq. eauto.
  - rewrite lookup_insert_ne by done. eauto.
Qed.

Lemma orderly_delete (w : world) (k : path) :
  (∀ m, w_fs w !! k ≠ Some (Dir m)) →
  orderly quiet w (World (delete k (w_fs w)) (w_stdin w) (w_stdout w)).
Proof.
  intros Hk. apply orderly_with_fs. intros k' m Hm. exists m.
  rewrite lookup_delete_ne; [done|]. intros ->. by apply (Hk m).
Qed.

Lemma preserves_ret {A} (a : A) : preserves (orderly quiet) (ret a).
Proof. intros w r w' [= <- <-]. apply orderly_refl. Qed.

Lemma preserves_raise {A} (e : exn) : preserves (orderly quiet) (@raise A e).
Proof. intros w r w' [= <- <-]. apply orderly_refl. Qed.

Lemma preserves_get_fs : preserves (orderly quiet) get_fs.
Proof. intros w r w' [= <- <-]. apply orderly_refl. Qed.

Lemma preserves_print (line : string) : preserves (orderly quiet) (print line).
Proof.
  intros w r w' [= <- <-]. split_and!; cbn [w_fs w_stdin w_stdout]; eauto.
  by apply prefix_app_r.
Qed.

Lemma preserves_bind {A B} (m : M A) (k : A → M B) :
  preserves (orderly quiet) m → (∀ a, preserves (orderly quiet) (k a)) →
  preserves (orderly quiet) (bind m k).
Proof.
  intros Hm Hk w r w'. unfold bind.
  destruct (m w) as [[a|e] w1] eqn:E.
  - intros Hka. eapply orderly_trans; [by eapply Hm|by eapply Hk].
  - intros [= <- <-]. by eapply Hm.
Qed.

Lemma preserves_try {A} (m : M A) (h : errno → string → M A) :
  preserves (orderly quiet) m → (∀ e msg, preserves (orderly quiet) (h e msg)) →
  preserves (orderly quiet) (try_except_OSError m h).
Proof.
  intros Hm Hh w r w'. unfold try_except_OSError.
  destruct (m w) as [[a|[e msg|]] w1] eqn:E.
  - intros [= <- <-]. by eapply Hm.
  - intros Hhe. eapply orderly_trans; [by eapply Hm|by eapply Hh].
  - intros [= <- <-]. by eapply Hm.
Qed.

Lemma preserves_for_each {A} (l : list A) (body : A → M unit) :
  (∀ a, preserves (orderly quiet) (body a)) →
  preserves (orderly quiet) (for_each l body).
Proof.
  intros Hbody. induction l as [|x l IH]; cbn [for_each].
  - apply preserves_ret.
  - apply preserves_bind; [apply Hbody|]. intros _. apply IH.
Qed.

Lemma preserves_os_mkdir (env : environ) (p : path) :
  preserves (orderly quiet) (os_mkdir env p).
Proof.
  intros w r w'. unfold os_mkdir, bind, get_fs, put_fs, raise.
  destruct (lstat (w_fs w) p) as [q n|d c|e] eqn:E; intros [= <- <-];
    try apply orderly_refl.
  apply orderly_insert_dir.
Qed.

Lemma preserves_unlink (p : path) : preserves (orderly quiet) (unlink p).
Proof.
  intros w r w'. unfold unlink, bind, get_fs, put_fs, raise.
  destruct (lstat (w_fs w) p) as [q n|d c|e] eqn:E;
    [destruct n as [perm data|m|t]|..]; intros [= <- <-];
    try apply orderly_refl;
    apply orderly_delete;
    (eapply Found_not_dir_key; [by eapply walk_Found_node_at|done]).
Qed.

Lemma preserves_symlink_to (p target : path) :
  preserves (orderly quiet) (symlink_to p target).
Proof.
  intros w r w'. unfold symlink_to, bind, get_fs, put_fs, raise.
  destruct (lstat (w_fs w) p) as [q n|d c|e] eqn:E; intros [= <- <-];
    try apply orderly_refl.
  apply orderly_insert_free. intros m.
  by rewrite (walk_Absent_None _ _ _ _ _ _ _ E).
Qed.

Lemma preserves_read_text (p : path) : preserves (orderly quiet) (read_text p).
Proof.
  intros w r w'. unfold read_text, bind, get_fs, ret, raise.
  destruct (stat (w_fs w) p) as [q [perm data|m|t]|d c|e]; intros [= <- <-];
    apply orderly_refl.
Qed.

Lemma preserves_stat_st_mode (p : path) : preserves (orderly quiet) (stat_st_mode p).
Proof.
  intros w r w'. unfold stat_st_mode, bind, get_fs, ret, raise.
  destruct (stat (w_fs w) p) as [q n|d c|e]; intros [= <- <-]; apply orderly_refl.
Qed.

Lemma preserves_iterdir (p : path) : preserves (orderly quiet) (iterdir p).
Proof.
  intros w r w'. unfold iterdir, bind, get_fs, ret, raise.
  destruct (stat (w_fs w) p) as [q [perm data|m|t]|d c|e]; intros [= <- <-];
    apply orderly_refl.
Qed.

Lemma preserves_write_text (env : environ) (p : path) (text : string) :
  preserves (orderly quiet) (write_text env p text).
Proof.
  intros w r w'. unfold write_text, bind, get_fs, put_fs, raise.
  destruct (stat (w_fs w) p) as [q [perm data|m|t]|d c|e] eqn:E; intros [= <- <-];
    try apply orderly_refl.
  - apply orderly_insert_free.
    eapply Found_not_dir_key; [by eapply walk_Found_node_at|done].
  - apply orderly_insert_free. intros m.
    by rewrite (walk_Absent_None _ _ _ _ _ _ _ E).
Qed.

Lemma preserves_append_text (env : environ) (p : path) (text : string) :
  preserves (orderly quiet) (append_text env p text).
Proof.
  intros w r w'. unfold append_text, bind, get_fs, put_fs, raise.
  destruct (stat (w_fs w) p) as [q [perm data|m|t]|d c|e] eqn:E; intros [= <- <-];
    try apply orderly_refl.
  - apply orderly_insert_free.
    eapply Found_not_dir_key; [by eapply walk_Found_node_at|done].
  - apply orderly_insert_free. intros m.
    by rewrite (walk_Absent_None _ _ _ _ _ _ _ E).
Qed.

Lemma preserves_chmod (p : path) (mode : Z) : preserves (orderly quiet) (chmod p mode).
Proof.
  intros w r w'. unfold chmod, bind, get_fs, put_fs, ret, raise.
  destruct (stat (w_fs w) p) as [q [perm data|m|t]|d c|e] eqn:E;
    [|destruct q|..]; intros [= <- <-]; try apply orderly_refl.
  - apply orderly_insert_free.
    eapply Found_not_dir_key; [by eapply walk_Found_node_at|done].
  - apply orderly_insert_dir.
Qed.

End orderly.

Lemma preserves_input (prompt : string) : preserves (orderly false) (input prompt).
Proof.
  intros w r w'. unfold input.
  destruct (w_stdin w) as [|l rest] eqn:E; intros [= <- <-];
    repeat split; cbn [w_fs w_stdin w_stdout]; eauto;
    try (by apply prefix_app_r); try done; rewrite E; try done.
  by apply suffix_cons_r.
Qed.

Ltac orderly_step :=
  lazymatch goal with
  | |- preserves _ (ret _) => apply preserves_ret
  | |- preserves _ (raise _) => apply preserves_raise
  | |- preserves _ get_fs => apply preserves_get_fs
  | |- preserves _ (print _) => apply preserves_print
  | |- preserves _ (input _) => apply preserves_input
  | |- preserves _ (os_mkdir _ _) => apply preserves_os_mkdir
  | |- preserves _ (unlink _) => apply preserves_unlink
  | |- preserves _ (symlink_to _ _) => apply preserves_symlink_to
  | |- preserves _ (read_text _) => apply preserves_read_text
  | |- preserves _ (stat_st_mode _) => apply preserves_stat_st_mode
  | |- preserves _ (iterdir _) => apply preserves_iterdir
  | |- preserves _ (write_text _ _ _) => apply preserves_write_text
  | |- preserves _ (append_text _ _ _) => apply preserves_append_text
  | |- preserves _ (chmod _ _) => apply preserves_chmod
  | |- preserves _ (bind _ _) => apply preserves_bind; [|intros ?]
  | |- preserves _ (try_except_OSError _ _) => apply preserves_try; [|intros ? ?]
  | |- preserves _ (for_each _ _) => apply preserves_for_each; intros ?
  | |- preserves _ (if ?c then _ else _) => destruct c
  | |- preserves _ (match ?x with _ => _ end) => destruct x
  end.

Ltac orderly := repeat orderly_step.

Section orderly_script.
Context (quiet : bool) (env : environ).

Lemma preserves_mkdir_exist_ok (p : path) :
  preserves (orderly quiet) (mkdir_exist_ok env p).
Proof.
  intros w r w'. unfold mkdir_exist_ok.
  destruct (os_mkdir env p w) as [[[]|[e msg|]] w1] eqn:E;
    [|destruct (is_dir (w_fs w1) p)|]; intros [= <- <-];
    by apply (preserves_os_mkdir quiet env p w _ _ E).
Qed.

Lemma preserves_mkdir_parents_rev (rp : list string) :
  preserves (orderly quiet) (mkdir_parents_rev env rp).
Proof.
  induction rp as [|c rp IH]; intros w r w'; cbn [mkdir_parents_rev];
    destruct (os_mkdir env _ w) as [[[]|[e msg|]] w1] eqn:E;
    assert (H1 := preserves_os_mkdir quiet env _ w _ _ E).
  - by intros [= <- <-].
  - destruct e, (is_dir (w_fs w1) (rev [])); by intros [= <- <-].
  - by intros [= <- <-].
  - by intros [= <- <-].
  - assert (Hrest : preserves (orderly quiet)
                      (mkdir_parents_rev env rp >> mkdir_exist_ok env (rev (c :: rp)))).
    { apply preserves_bind; [apply IH|]. intros _. apply preserves_mkdir_exist_ok. }
    destruct e; try (destruct (is_dir (w_fs w1) (rev (c :: rp))); by intros [= <- <-]).
    intros Hr. eapply orderly_trans; [exact H1|by eapply Hrest].
  - by intros [= <- <-].
Qed.

Lemma preserves_mkdir_parents (p : path) :
  preserves (orderly quiet) (mkdir_parents env p).
Proof. apply preserves_mkdir_parents_rev. Qed.

Lemma preserves_copy2 (src dst : path) : preserves (orderly quiet) (copy2 env src dst).
Proof. unfold copy2. cbv zeta. orderly. Qed.

Lemma preserves_discover_source_scripts (repo_root : path) :
  preserves (orderly quiet) (discover_source_scripts repo_root).
Proof. unfold discover_source_scripts. cbv zeta. orderly. Qed.

Lemma preserves_install_one (install_dir : path) (use_symlink : bool) (source_path : path) :
  preserves (orderly quiet) (install_one env install_dir use_symlink source_path).
Proof. unfold install_one. cbv zeta. orderly; apply preserves_copy2. Qed.

Lemma preserves_install_loop (sources : list path) (install_dir : path)
    (use_symlink : bool) (acc : list path) :
  preserves (orderly quiet) (install_loop env sources install_dir use_symlink acc).
Proof.
  revert acc. induction sources as [|s l IH]; intros acc; cbn [install_loop].
  - apply preserves_ret.
  - apply preserves_bind; [apply preserves_install_one|]. intros p. apply IH.
Qed.

Lemma preserves_rc_file_has_path_entry (target : PathUpdateTarget) (install_dir : path) :
  preserves (orderly quiet) (rc_file_has_path_entry env target install_dir).
Proof. unfold rc_file_has_path_entry. cbv zeta. orderly. Qed.

Lemma preserves_append_path_update (target : PathUpdateTarget) :
  preserves (orderly quiet) (append_path_update env target).
Proof.
  unfold append_path_update. orderly; apply preserves_mkdir_parents.
Qed.

End orderly_script.

Lemma preserves_confirm_overwrites (l : list path) (yes : bool) :
  preserves (orderly yes) (confirm_overwrites l yes).
Proof. unfold confirm_overwrites. destruct yes; orderly. Qed.

Lemma preserves_maybe_offer_path_update (env : environ) (install_dir : path) (yes : bool) :
  preserves (orderly yes) (maybe_offer_path_update env install_dir yes).
Proof.
  unfold maybe_offer_path_update. cbv zeta.
  destruct yes; orderly;
    first [apply preserves_rc_file_has_path_entry | apply preserves_append_path_update].
Qed.

Lemma preserves_main (env : environ) (args : Args) :
  preserves (orderly (yes_arg args)) (main env args).
Proof.
  unfold main. cbv zeta.
  apply preserves_bind; [apply preserves_get_fs|]. intros fs.
  apply preserves_bind; [apply preserves_discover_source_scripts|].
  intros [[source_dir source_scripts] invalid_script_names].
  destruct invalid_script_names, source_scripts; orderly;
    first [ apply preserves_mkdir_parents | apply preserves_confirm_overwrites
          | apply preserves_install_loop | apply preserves_maybe_offer_path_update ].
Qed.

(** X8.  No run removes a directory.  Whatever the environment, the command
    line, the file system and the answers typed, and however the run ends,
    every path that held a directory before the run holds a directory after
    it. *)
Theorem run_keeps_directories (env : environ) (args : Args) (w : world)
    (k : path) (m : Z) :
  w_fs w !! k = Some (Dir m) →
  ∃ m', w_fs (snd (run env args w)) !! k = Some (Dir m').
Proof.
  intros Hk. unfold run.
  destruct (main env args w) as [r w'] eqn:Hmain. cbn [snd].
  destruct (preserves_main env args w r w' Hmain) as (Hdirs & _).
  by apply (Hdirs k m).
Qed.

Lemma run_keeps_directories_witness :
  ∃ m', w_fs (snd (run example_env (example_args true) (World example_fs_two [] [])))
          !! ["home"; "u"; "bin"] = Some (Dir m').
Proof.
  apply (run_keeps_directories example_env (example_args true)
           (World example_fs_two [] []) ["home"; "u"; "bin"] 493).
  vm_compute. reflexivity.
Defined.

(** X9.  Under [--yes] nothing is read.  With [-y/--yes] on the command line
    the run, however it ends, takes no line from the terminal input; and
    what was on the output before is still there, in front of what the run
    wrote. *)
Theorem yes_reads_no_input (env : environ) (args : Args) (w : world) :
  yes_arg args = true →
  w_stdin (snd (run env args w)) = w_stdin w
  ∧ w_stdout w `prefix_of` w_stdout (snd (run env args w)).
Proof.
  intros Hyes. unfold run.
  destruct (main env args w) as [r w'] eqn:Hmain. cbn [snd].
  destruct (preserves_main env args w r w' Hmain) as (_ & Hout & _ & Hin).
  split; [by apply Hin|done].
Qed.

Lemma yes_reads_no_input_witness :
  let w := World example_fs_installed ["n"; "n"] ["$ install-helper-scripts -y"] in
  w_stdin (snd (run example_env (example_args true) w)) = w_stdin w
  ∧ w_stdout w `prefix_of` w_stdout (snd (run example_env (example_args true) w)).
Proof.
  intros w. apply (yes_reads_no_input example_env (example_args true) w).
  reflexivity.
Defined.

Lemma returns_ret {A} (P : A → Prop) (a : A) : P a → returns P (ret a).
Proof. intros Ha w a' w' [= <- <-]. exact Ha. Qed.

Lemma returns_bind {A B} (P : B → Prop) (m : M A) (k : A → M B) :
  (∀ a, returns P (k a)) → returns P (bind m k).
Proof.
  intros Hk w b w'. unfold bind.
  destruct (m w) as [[a|e] w1]; [|done]. apply Hk.
Qed.

Ltac returns_step :=
  lazymatch goal with
  | |- returns _ (ret _) => apply returns_ret; auto
  | |- returns _ (bind _ _) => apply returns_bind; intros ?
  | |- returns _ (if ?c then _ else _) => destruct c
  | |- returns _ (match ?x with _ => _ end) => destruct x
  end.

Lemma main_start (env : environ) (args : Args) (w : world) :
  ∃ source_dir valid invalid,
    discover_source_scripts (detect_repo_root env (w_fs w)) w
      = (Ok (source_dir, valid, invalid), w).
Proof.
  destruct (discover_source_scripts_total (detect_repo_root env (w_fs w)) w)
    as (valid & invalid & H). eauto.
Qed.

Lemma main_invalid_status (env : environ) (args : Args) (w : world)
    (source_dir : path) (valid invalid : list path) :
  discover_source_scripts (detect_repo_root env (w_fs w)) w
    = (Ok (source_dir, valid, invalid), w) →
  invalid ≠ [] → fst (run env args w) = 2.
Proof.
  intros Hdisc Hne. unfold run, main.
  rewrite (bind_Ok get_fs _ w w (w_fs w)) by reflexivity.
  rewrite (bind_Ok _ _ _ _ _ Hdisc).
  destruct invalid as [|p invalid]; [done|].
  unfold bind at 1. unfold print at 1.
  unfold bind at 1. rewrite for_each_print. reflexivity.
Qed.

Lemma main_valid_status (env : environ) (args : Args) (w : world)
    (source_dir : path) (valid : list path) :
  discover_source_scripts (detect_repo_root env (w_fs w)) w
    = (Ok (source_dir, valid, []), w) →
  fst (run env args w) = 0 ∨ fst (run env args w) = 1.
Proof.
  intros Hdisc. unfold run.
  destruct (main env args w) as [[code|e] w'] eqn:Hmain; [|by right].
  cbn [fst exit_status]. revert Hmain. unfold main.
  rewrite (bind_Ok get_fs _ w w (w_fs w)) by reflexivity.
  rewrite (bind_Ok _ _ _ _ _ Hdisc).
  match goal with |- ?m w = _ → _ =>
    assert (Hret : returns (λ c, c = 0 ∨ c = 1) m) end.
  { cbv zeta. repeat returns_step. }
  apply Hret.
Qed.

(** X10.  The exit status once the command line is parsed.  For every parsed
    command line [args], the body of [main] that follows
    [parser.parse_args()] ends the process with status 0, 1 or 2 (an
    exception that leaves it counts as 1), and with status 2 exactly when
    discovery reports at least one invalid script name.  The statement does
    not cover the parsing itself: [argparse] ends the process with status 2
    on a malformed command line, before discovery runs. *)
Theorem exit_status_meaning (env : environ) (args : Args) (w : world) :
  (fst (run env args w) = 0 ∨ fst (run env args w) = 1 ∨ fst (run env args w) = 2)
  ∧ (fst (run env args w) = 2 ↔
     ∃ source_dir valid invalid,
       discover_source_scripts (detect_repo_root env (w_fs w)) w
         = (Ok (source_dir, valid, invalid), w)
       ∧ invalid ≠ []).
Proof.
  destruct (main_start env args w) as (source_dir & valid & invalid & Hdisc).
  destruct invalid as [|p invalid].
  - destruct (main_valid_status env args w _ _ Hdisc) as [H|H]; rewrite H.
    + split; [auto|]. split; [done|].
      intros (sd & v & i & Hd & Hi). rewrite Hdisc in Hd. by injection Hd as _ _ <-.
    + split; [auto|]. split; [done|].
      intros (sd & v & i & Hd & Hi). rewrite Hdisc in Hd. by injection Hd as _ _ <-.
  - rewrite (main_invalid_status env args w _ _ _ Hdisc) by done.
    split; [auto|]. split; [|done]. intros _. by exists source_dir, valid, (p :: invalid).
Qed.

(** X11.  End of input at the overwrite prompt.  When some destination
    already exists, [--yes] is absent and the terminal input is exhausted,
    [main] does not return: [EOFError] leaves it right after the prompt, so
    the process ends with status 1, without the cancellation message, and
    the file system is exactly what it was. *)
Theorem end_of_input_at_prompt (env : environ) (args : Args) (w : world)
    (source_dir : path) (sources : list path) (s : path) :
  discover_source_scripts (detect_repo_root env (w_fs w)) w
    = (Ok (source_dir, sources, []), w) →
  s ∈ sources →
  destination_exists (w_fs w)
    (resolve (w_fs w) (install_dir_arg args) // path_name s) = true →
  yes_arg args = false →
  w_stdin w = [] →
  ∃ out, main env args w
         = (Raise EOFError,
            World (w_fs w) [] (w_stdout w ++ out ++ ["Continue with overwrite? [y/N]: "]))
         ∧ fst (run env args w) = 1
         ∧ "Installation cancelled."%string ∉ out.
Proof.
  intros Hdisc Hs Hdest Hyes Hin.
  set (install_dir := resolve (w_fs w) (install_dir_arg args)) in *.
  set (overwrite_paths :=
         filter (λ destination_path, destination_exists (w_fs w) destination_path = true)
                (map (λ source_path, install_dir // path_name source_path) sources)).
  exists (["The following files already exist and will be replaced:"]
          ++ map (λ p, "  - " +:+ path_str p) overwrite_paths).
  assert (Hmain : main env args w
         = (Raise EOFError,
            World (w_fs w) []
              (w_stdout w ++ (["The following files already exist and will be replaced:"]
               ++ map (λ p, "  - " +:+ path_str p) overwrite_paths)
               ++ ["Continue with overwrite? [y/N]: "]))).
  { unfold main.
    rewrite (bind_Ok get_fs _ w w (w_fs w)) by reflexivity.
    rewrite (bind_Ok _ _ _ _ _ Hdisc). unfold expanduser. fold install_dir.
    destruct sources as [|s0 sources]; [by apply elem_of_nil in Hs|].
    rewrite (bind_Ok _ _ _ _ _ (mkdir_parents_is_dir env install_dir w
               (destination_exists_is_dir _ _ _ Hdest))).
    rewrite (bind_Ok get_fs _ w w (w_fs w)) by reflexivity.
    fold overwrite_paths.
    assert (Hmem : install_dir // path_name s ∈ overwrite_paths).
    { apply list_elem_of_filter. split; [done|].
      apply (list_elem_of_fmap_2 (λ source_path, install_dir // path_name source_path)).
      done. }
    destruct overwrite_paths as [|p ps]; [by apply elem_of_nil in Hmem|].
    rewrite Hyes.
    assert (Hconfirm : confirm_overwrites (p :: ps) false w
              = (Raise EOFError,
                 World (w_fs w) []
                   (w_stdout w ++ (["The following files already exist and will be replaced:"]
                    ++ map (λ p, "  - " +:+ path_str p) (p :: ps))
                    ++ ["Continue with overwrite? [y/N]: "]))).
    { unfold confirm_overwrites.
      unfold bind at 1. unfold print at 1.
      unfold bind at 1. rewrite for_each_print.
      unfold bind, input, ret. cbn [w_fs w_stdin w_stdout]. rewrite Hin.
      by rewrite <- !app_assoc. }
    by rewrite (bind_Raise _ _ _ _ _ Hconfirm). }
  split_and!; [done|unfold run; by rewrite Hmain|].
  intros [Hh|Hl]%elem_of_cons; [done|].
  apply list_elem_of_fmap in Hl as (p & Hp & _).
  discriminate.
Qed.

Lemma end_of_input_at_prompt_witness :
  let w := World example_fs_installed [] [] in
  ∃ out, main example_env (example_args false) w
         = (Raise EOFError,
            World (w_fs w) [] (w_stdout w ++ out ++ ["Continue with overwrite? [y/N]: "]))
         ∧ fst (run example_env (example_args false) w) = 1
         ∧ "Installation cancelled."%string ∉ out.
Proof.
  intros w.
  apply (end_of_input_at_prompt example_env (example_args false) w ["repo"; "bin"]
           [["repo"; "bin"; "hello"]] ["repo"; "bin"; "hello"]).
  - vm_compute. reflexivity.
  - apply list_elem_of_here.
  - vm_compute. reflexivity.
  - reflexivity.
  - reflexivity.
Defined.

(* ===================================================================== *)
(** * The advisor and the start-up file *)
(* ===================================================================== *)

Lemma read_text_cases (p : path) (w : world) :
  (∃ q perm data, stat (w_fs w) p = Found q (File perm data)
                  ∧ read_text p w = (Ok data, w))
  ∨ (∃ e msg, read_text p w = (Raise (OSError e msg), w)
              ∧ ∀ q perm data, stat (w_fs w) p ≠ Found q (File perm data)).
Proof.
  unfold read_text. rewrite (bind_Ok _ _ _ _ _ (get_fs_eq w)).
  destruct (stat (w_fs w) p) as [q [perm data|m|t]|d c|e]; unfold os_error, raise, ret;
    eauto 10.
Qed.



Lemma append_path_update_canonical (env : environ) (w : world)
    (target : PathUpdateTarget) (d : path) (name : string) :
  rc_file target = d // name →
  real_dir (w_fs w) d → Forall plain_name d → plain_name name →
  (∀ m, w_fs w !! (d // name) ≠ Some (Dir m)) →
  (∀ t, w_fs w !! (d // name) ≠ Some (Symlink t)) →
  append_path_update env target w
  = (Ok tt,
     with_fs w
       (<[d // name :=
            File (file_perm_after_append env (w_fs w) (d // name))
                 (file_text (w_fs w) (d // name)
                  +:+ appended_block (file_text (w_fs w) (d // name)) (path_line target))]>
          (w_fs w))).
Proof.
  intros Hrc Hrd Hpd Hname Hnodir Hnolink.
  unfold append_path_update. rewrite Hrc, path_parent_join.
  destruct (stat_real_dir _ _ Hrd Hpd) as [m Hd].
  assert (Hisdir : is_dir (w_fs w) d = true) by (unfold is_dir; by rewrite Hd).
  rewrite (bind_Ok _ _ _ _ _ (mkdir_parents_is_dir env d w Hisdir)).
  rewrite (bind_Ok _ _ _ _ _ (get_fs_eq w)).
  rewrite (path_exists_canonical _ _ _ Hrd Hpd Hname).
  unfold file_text, file_perm_after_append, appended_block, path_join in *.
  destruct (w_fs w !! (d ++ [name])) as [[perm data|m'|t]|] eqn:Hlook.
  - assert (Hneeds : try_except_OSError
              (let* existing := read_text (d // name) in
               ret (negb (String.eqb existing EmptyString)
                    && negb (endswith existing NL)))
              (λ _ _, ret false) w
            = (Ok (negb (String.eqb data EmptyString) && negb (endswith data NL)), w)).
    { unfold try_except_OSError.
      by rewrite (bind_Ok _ _ _ _ _ (read_text_canonical w d name perm data
                                      Hrd Hpd Hname Hlook)). }
    unfold path_join in Hneeds. rewrite (bind_Ok _ _ _ _ _ Hneeds).
    assert (Happ := append_text_canonical env w d name). unfold path_join in Happ.
    rewrite Happ, Hlook by done. reflexivity.
  - by destruct (Hnodir m').
  - by destruct (Hnolink t).
  - rewrite (bind_Ok (ret false) _ w w false) by reflexivity.
    assert (Happ := append_text_canonical env w d name). unfold path_join in Happ.
    rewrite Happ, Hlook by done. reflexivity.
Qed.



(* ===================================================================== *)
(** * The advice given twice *)
(* ===================================================================== *)

Lemma rc_file_has_path_entry_scan (env : environ) (target : PathUpdateTarget)
    (install_dir : path) (w : world) :
  rc_file_has_path_entry env target install_dir w
  = (Ok (rc_scan env target install_dir (w_fs w)), w).
Proof.
  unfold rc_file_has_path_entry, rc_scan.
  rewrite (bind_Ok _ _ _ _ _ (get_fs_eq w)). unfold path_exists, expanduser.
  destruct (read_text_cases (rc_file target) w)
    as [(q & perm & data & Hstat & Hread)|(e & msg & Hread & Hno)].
  - rewrite Hstat. cbn [negb].
    assert (Htry : try_except_OSError
              (let* text := read_text (rc_file target) in ret (Some text))
              (λ _ _, ret None) w = (Ok (Some data), w)).
    { unfold try_except_OSError. by rewrite (bind_Ok _ _ _ _ _ Hread). }
    by rewrite (bind_Ok _ _ _ _ _ Htry), (bind_Ok _ _ _ _ _ (get_fs_eq w)).
  - assert (Htry : try_except_OSError
              (let* text := read_text (rc_file target) in ret (Some text))
              (λ _ _, ret None) w = (Ok None, w)).
    { unfold try_except_OSError. by rewrite (bind_Raise _ _ _ _ _ Hread). }
    destruct (stat (w_fs w) (rc_file target)) as [q [perm data|m|t]|d c|e'] eqn:Hstat;
      cbn [negb]; try done.
    + by destruct (Hno q perm data).
    + by rewrite (bind_Ok _ _ _ _ _ Htry).
    + by rewrite (bind_Ok _ _ _ _ _ Htry).
Qed.


Lemma with_output_app (w : world) (l1 l2 : list string) :
  with_output (with_output w l1) l2 = with_output w (l1 ++ l2).
Proof. unfold with_output. cbn [w_fs w_stdin w_stdout]. by rewrite <- app_assoc. Qed.

Lemma print_eq (line : string) (w : world) : print line w = (Ok tt, with_output w [line]).
Proof. reflexivity. Qed.

Lemma maybe_offer_configured (env : environ) (install_dir : path) (yes : bool) (w : world) :
  let target := detect_path_update_target env (w_fs w) install_dir in
  is_in_path env (w_fs w) install_dir = false →
  rc_scan env target install_dir (w_fs w) = true →
  maybe_offer_path_update env install_dir yes w
  = (Ok tt, with_output w (advice_lines install_dir target ++ [already_configured_line target])).
Proof.
  intros target Hin Hscan. unfold maybe_offer_path_update.
  rewrite (bind_Ok _ _ _ _ _ (get_fs_eq w)), Hin. cbv zeta. fold target.
  rewrite (bind_Ok _ _ _ _ _ (rc_file_has_path_entry_scan env target install_dir w)).
  rewrite Hscan.
  rewrite (bind_Ok _ _ _ _ _ (print_eq _ _)).
  rewrite (bind_Ok _ _ _ _ _ (print_eq _ _)).
  rewrite (bind_Ok _ _ _ _ _ (print_eq _ _)).
  rewrite print_eq, !with_output_app. reflexivity.
Qed.

Lemma maybe_offer_updates (env : environ) (install_dir : path) (w : world)
    (fs' : gmap path node) :
  let target := detect_path_update_target env (w_fs w) install_dir in
  is_in_path env (w_fs w) install_dir = false →
  rc_scan env target install_dir (w_fs w) = false →
  (∀ w0, w_fs w0 = w_fs w → append_path_update env target w0 = (Ok tt, with_fs w0 fs')) →
  maybe_offer_path_update env install_dir true w
  = (Ok tt, with_fs (with_output w (advice_lines install_dir target ++ updated_lines target))
              fs').
Proof.
  intros target Hin Hscan Happend. unfold maybe_offer_path_update.
  rewrite (bind_Ok _ _ _ _ _ (get_fs_eq w)), Hin. cbv zeta. fold target.
  rewrite (bind_Ok _ _ _ _ _ (rc_file_has_path_entry_scan env target install_dir w)).
  rewrite Hscan.
  rewrite (bind_Ok _ _ _ _ _ (print_eq _ _)).
  rewrite (bind_Ok _ _ _ _ _ (print_eq _ _)).
  rewrite (bind_Ok _ _ _ _ _ (print_eq _ _)).
  rewrite !with_output_app.
  match goal with |- context [bind (bind (print ?l) ?k) _ ?w0] =>
    assert (Hyes : bind (print l) k w0 = (Ok true, with_output w0 [l])) by reflexivity
  end.
  rewrite (bind_Ok _ _ _ _ _ Hyes). rewrite with_output_app.
  match goal with |- context [bind (try_except_OSError ?m ?h) _ ?w0] =>
    assert (Htry : try_except_OSError m h w0 = (Ok true, with_fs w0 fs'));
      [unfold try_except_OSError;
       rewrite (bind_Ok _ _ _ _ _ (Happend w0 eq_refl)); reflexivity|]
  end.
  rewrite (bind_Ok _ _ _ _ _ Htry).
  rewrite (bind_Ok _ _ _ _ _ (print_eq _ _)), print_eq.
  unfold with_fs, with_output, advice_lines, updated_lines.
  cbn [w_fs w_stdin w_stdout]. by rewrite <- !app_assoc.
Qed.

(** [resolve] looks at the links only. *)
Lemma realpath_insert_nonlink (fuel : nat) (fs : gmap path node) (k : path) (v : node)
    (cur : path) (rest : list string) :
  (∀ t, fs !! k ≠ Some (Symlink t)) → (∀ t, v ≠ Symlink t) →
  realpath fuel (<[k := v]> fs) cur rest = realpath fuel fs cur rest.
Proof.
  intros Hk Hv. revert cur rest. induction fuel as [|fuel IHf]; [done|].
  intros cur rest. revert cur. induction rest as [|c rest IHr]; intros cur.
  - by rewrite !realpath_nil.
  - rewrite !realpath_cons.
    destruct (String.eqb c "."); [apply IHr|].
    destruct (String.eqb c ".."); [apply IHr|].
    destruct (decide (cur ++ [c] = k)) as [E|E].
    + subst k. rewrite lookup_insert_eq.
      destruct v as [| |t]; [| |by destruct (Hv t)];
        (destruct (fs !! (cur ++ [c])) as [[| |t]|] eqn:Hl; [| |by destruct (Hk t)|]);
        apply IHr.
    + rewrite lookup_insert_ne by done.
      destruct (fs !! (cur ++ [c])) as [[| |t]|]; try apply IHr.
      destruct fuel; [done|]. apply IHf.
Qed.

Lemma resolve_insert_nonlink (fs : gmap path node) (k : path) (v : node) (p : path) :
  (∀ t, fs !! k ≠ Some (Symlink t)) → (∀ t, v ≠ Symlink t) →
  resolve (<[k := v]> fs) p = resolve fs p.
Proof. apply realpath_insert_nonlink. Qed.

Lemma existsb_pointwise {A} (f g : A → bool) (l : list A) :
  (∀ x, f x = g x) → existsb f l = existsb g l.
Proof. intros H. induction l as [|x l IH]; [done|]. cbn [existsb]. by rewrite H, IH. Qed.

Lemma is_in_path_insert_nonlink (env : environ) (fs : gmap path node) (k : path)
    (v : node) (directory : path) :
  (∀ t, fs !! k ≠ Some (Symlink t)) → (∀ t, v ≠ Symlink t) →
  is_in_path env (<[k := v]> fs) directory = is_in_path env fs directory.
Proof.
  intros Hk Hv. unfold is_in_path. cbv zeta.
  apply existsb_pointwise. intros entry.
  by rewrite !resolve_insert_nonlink.
Qed.

Lemma format_posix_path_value_insert_nonlink (fs : gmap path node) (k : path)
    (v : node) (p home_dir : path) :
  (∀ t, fs !! k ≠ Some (Symlink t)) → (∀ t, v ≠ Symlink t) →
  format_posix_path_value (<[k := v]> fs) p home_dir = format_posix_path_value fs p home_dir.
Proof.
  intros Hk Hv. unfold format_posix_path_value. cbv zeta.
  by rewrite !resolve_insert_nonlink.
Qed.

(** Writing to a regular file changes what the walk finds there, and nothing
    else. *)
Lemma walk_replace_file (fuel : nat) (fs : gmap path node) (follow : bool)
    (k : path) (perm perm' : Z) (data data' : string) (cur : path) (rest : list string) :
  k ≠ [] → fs !! k = Some (File perm data) →
  walk fuel (<[k := File perm' data']> fs) follow cur rest
  = match walk fuel fs follow cur rest with
    | Found q n => Found q (if decide (q = k) then File perm' data' else n)
    | r => r
    end.
Proof.
  intros Hne Hk. revert cur rest. induction fuel as [|fuel IHf]; [done|].
  intros cur rest. revert cur. induction rest as [|c rest IHr]; intros cur.
  - rewrite !walk_nil. unfold node_at. destruct cur as [|c cur].
    + by rewrite decide_False.
    + destruct (decide (c :: cur = k)) as [E|E].
      * by rewrite E, lookup_insert_eq, Hk, decide_True.
      * rewrite lookup_insert_ne by done.
        destruct (fs !! (c :: cur)); [|done]. by rewrite decide_False.
  - rewrite !walk_cons.
    destruct (String.eqb c "."); [apply IHr|].
    destruct (String.eqb c ".."); [apply IHr|].
    destruct (decide (cur ++ [c] = k)) as [E|E].
    + rewrite E, lookup_insert_eq, Hk. destruct rest; [|done]. by rewrite decide_True.
    + rewrite lookup_insert_ne by done.
      destruct (fs !! (cur ++ [c])) as [[p0 d0|m|t]|].
      * destruct rest; [|done]. by rewrite decide_False.
      * apply IHr.
      * destruct rest, follow; try apply IHf. by rewrite decide_False.
      * by destruct rest.
Qed.

Lemma path_exists_replace_file (fs : gmap path node) (k : path) (perm perm' : Z)
    (data data' : string) (p : path) :
  k ≠ [] → fs !! k = Some (File perm data) →
  path_exists (<[k := File perm' data']> fs) p = path_exists fs p.
Proof.
  intros Hne Hk. unfold path_exists, stat.
  rewrite (walk_replace_file _ _ _ _ _ _ _ _ _ _ Hne Hk).
  by destruct (walk _ fs true [] p).
Qed.

Lemma choose_bash_rc_file_stable (fs : gmap path node) (home d : path) (name : string)
    (perm' : Z) (text : string) :
  choose_bash_rc_file fs home = d // name →
  real_dir fs d → Forall plain_name d → plain_name name →
  (fs !! (d ++ [name]) = None ∨ ∃ perm data, fs !! (d ++ [name]) = Some (File perm data)) →
  choose_bash_rc_file (<[d ++ [name] := File perm' text]> fs) home = d // name.
Proof.
  intros Hrc Hrd Hpd Hname [Hnone|(perm & data & Hfile)].
  - assert (Hex : path_exists fs (d // name) = false).
    { by rewrite (path_exists_canonical _ _ _ Hrd Hpd Hname), Hnone. }
    rewrite choose_bash_rc_file_spec in Hrc. cbv zeta in Hrc.
    assert (Hdef : d // name = home // ".bashrc").
    { destruct (path_exists fs (home // ".bashrc")) eqn:E1; [by rewrite <- Hrc in Hex; congruence|].
      destruct (path_exists fs (home // ".bash_profile")) eqn:E2;
        [by rewrite <- Hrc in Hex; congruence|].
      destruct (path_exists fs (home // ".profile")) eqn:E3;
        [by rewrite <- Hrc in Hex; congruence|]. done. }
    rewrite choose_bash_rc_file_spec. cbv zeta. rewrite <- Hdef.
    rewrite (path_exists_canonical _ d name); [|by apply real_dir_insert_child|done|done].
    by rewrite lookup_insert_eq.
  - rewrite <- Hrc, !choose_bash_rc_file_spec. cbv zeta.
    assert (Hne : d ++ [name] ≠ []) by by destruct d.
    by rewrite !(path_exists_replace_file _ _ _ _ _ _ _ Hne Hfile).
Qed.

Lemma detect_path_update_target_stable (env : environ) (fs : gmap path node)
    (install_dir d : path) (name : string) (perm' : Z) (text : string) :
  rc_file (detect_path_update_target env fs install_dir) = d // name →
  real_dir fs d → Forall plain_name d → plain_name name →
  (fs !! (d ++ [name]) = None ∨ ∃ perm data, fs !! (d ++ [name]) = Some (File perm data)) →
  detect_path_update_target env (<[d ++ [name] := File perm' text]> fs) install_dir
  = detect_path_update_target env fs install_dir.
Proof.
  intros Hrc Hrd Hpd Hname Hfile.
  assert (Hk : ∀ t, fs !! (d ++ [name]) ≠ Some (Symlink t)).
  { intros t. destruct Hfile as [-> | (? & ? & ->)]; discriminate. }
  revert Hrc. unfold detect_path_update_target. cbv zeta.
  rewrite format_posix_path_value_insert_nonlink by done.
  destruct (String.eqb _ "zsh"); [done|].
  destruct (String.eqb _ "bash"); [|done].
  cbn [rc_file]. intros Hrc.
  rewrite (choose_bash_rc_file_stable fs _ d name perm' text Hrc Hrd Hpd Hname Hfile).
  by rewrite Hrc.
Qed.

(** X15.  The advice given twice.  Let the install directory not be on
    [PATH], the start-up file of the detected shell be absent or a regular
    file in a canonical directory, and the rendered path hold neither a
    double quote nor a line break.  Then the advisor under [--yes] returns,
    after which the scan finds the entry; and a second run of the advisor
    returns too, leaves the file system exactly as the first run made it,
    and prints the advice followed by the notice that the file already
    appears to include the entry. *)
Theorem second_advice_changes_nothing (env : environ) (w : world)
    (install_dir d : path) (name : string) :
  let target := detect_path_update_target env (w_fs w) install_dir in
  let value := format_posix_path_value (w_fs w) install_dir (env_HOME env) in
  is_in_path env (w_fs w) install_dir = false →
  rc_file target = d // name →
  real_dir (w_fs w) d → Forall plain_name d → plain_name name →
  (w_fs w !! (d // name) = None
   ∨ ∃ perm existing, w_fs w !! (d // name) = Some (File perm existing)) →
  string_none (Ascii.eqb (chr 34)) value = true →
  string_none is_linebreak value = true →
  ∃ w1 w2,
    maybe_offer_path_update env install_dir true w = (Ok tt, w1)
    ∧ rc_scan env target install_dir (w_fs w1) = true
    ∧ maybe_offer_path_update env install_dir true w1 = (Ok tt, w2)
    ∧ w_fs w2 = w_fs w1
    ∧ w_stdout w2
      = w_stdout w1 ++ advice_lines install_dir target ++ [already_configured_line target].
Proof.
  intros target value Hin Hrc Hrd Hpd Hname Hfile Hq Hlb.
  destruct (rc_scan env target install_dir (w_fs w)) eqn:Hscan.
  - (* the entry is there already *)
    assert (H1 := maybe_offer_configured env install_dir true w Hin Hscan).
    cbv zeta in H1. fold target in H1.
    set (w1 := with_output w (advice_lines install_dir target
                              ++ [already_configured_line target])) in *.
    assert (H2 := maybe_offer_configured env install_dir true w1 Hin Hscan).
    cbv zeta in H2. cbn [w_fs w1 with_output] in H2. fold target in H2.
    exists w1, (with_output w1 (advice_lines install_dir target
                                ++ [already_configured_line target])).
    split_and!; done.
  - (* the block is appended *)
    unfold path_join in Hfile.
    set (kd := d ++ [name]) in *.
    set (text := file_text (w_fs w) kd
                 +:+ appended_block (file_text (w_fs w) kd) (path_line target)).
    set (fs1 := <[kd := File (file_perm_after_append env (w_fs w) kd) text]> (w_fs w)).
    assert (Hk : ∀ t, w_fs w !! kd ≠ Some (Symlink t)).
    { intros t. destruct Hfile as [-> | (? & ? & ->)]; discriminate. }
    assert (Hnd : ∀ m, w_fs w !! kd ≠ Some (Dir m)).
    { intros m. destruct Hfile as [-> | (? & ? & ->)]; discriminate. }
    assert (Happend : ∀ w0, w_fs w0 = w_fs w →
              append_path_update env target w0 = (Ok tt, with_fs w0 fs1)).
    { intros w0 Hw0.
      rewrite (append_path_update_canonical env w0 target d name); rewrite ?Hw0; done. }
    assert (H1 := maybe_offer_updates env install_dir w fs1 Hin Hscan Happend).
    cbv zeta in H1. fold target in H1.
    set (w1 := with_fs (with_output w (advice_lines install_dir target
                                       ++ updated_lines target)) fs1) in *.
    assert (Htarget1 : detect_path_update_target env fs1 install_dir = target).
    { by apply detect_path_update_target_stable. }
    assert (Hin1 : is_in_path env fs1 install_dir = false).
    { unfold fs1. by rewrite is_in_path_insert_nonlink. }
    assert (Hvalue1 : format_posix_path_value fs1 install_dir (env_HOME env) = value).
    { unfold fs1. by rewrite format_posix_path_value_insert_nonlink. }
    assert (Hscan1 : rc_scan env target install_dir fs1 = true).
    { unfold rc_scan. rewrite Hrc.
      rewrite (stat_canonical fs1 d name); [|by apply real_dir_insert_child|done|done].
      fold kd. unfold fs1 at 1. rewrite lookup_insert_eq, Hvalue1.
      destruct (path_line_shape env (w_fs w) install_dir) as [fish Hline].
      cbv zeta in Hline. fold target value in Hline.
      assert (Hplain := path_update_idempotent_plain (file_text (w_fs w) kd)
                          (path_str install_dir) value fish Hq Hlb).
      cbv zeta in Hplain. unfold text. rewrite Hline. exact Hplain. }
    assert (H2 := maybe_offer_configured env install_dir true w1).
    cbv zeta in H2. cbn [w_fs w1 with_fs] in H2. rewrite Htarget1 in H2.
    specialize (H2 Hin1 Hscan1).
    exists w1, (with_output w1 (advice_lines install_dir target
                                ++ [already_configured_line target])).
    split_and!; done.
Qed.

Lemma second_advice_changes_nothing_witness :
  let w := World example_fs_bash_profile [] [] in
  let install_dir := ["home"; "u"; "bin"] in
  let target := detect_path_update_target example_env (w_fs w) install_dir in
  ∃ w1 w2,
    maybe_offer_path_update example_env install_dir true w = (Ok tt, w1)
    ∧ rc_scan example_env target install_dir (w_fs w1) = true
    ∧ maybe_offer_path_update example_env install_dir true w1 = (Ok tt, w2)
    ∧ w_fs w2 = w_fs w1
    ∧ w_stdout w2
      = w_stdout w1 ++ advice_lines install_dir target ++ [already_configured_line target].
Proof.
  intros w install_dir target.
  apply (second_advice_changes_nothing example_env w install_dir ["home"; "u"]
           ".bash_profile").
  - vm_compute. reflexivity.
  - vm_compute. reflexivity.
  - apply real_dirb_spec. vm_compute. reflexivity.
  - apply (Forall_plain_nameb id). vm_compute. reflexivity.
  - apply plain_nameb_spec. reflexivity.
  - right. exists 420, "# profile"%string. vm_compute. reflexivity.
  - vm_compute. reflexivity.
  - vm_compute. reflexivity.
Defined.

(* ===================================================================== *)
(** * What the steps of the advisor can raise *)
(* ===================================================================== *)

Section raises_only.
Context (P : exn → Prop).

Lemma raises_only_ret {A} (a : A) : raises_only P (ret a).
Proof. intros w e w' [=]. Qed.

Lemma raises_only_get_fs : raises_only P get_fs.
Proof. intros w e w' [=]. Qed.

Lemma raises_only_print (line : string) : raises_only P (print line).
Proof. intros w e w' [=]. Qed.

Lemma raises_only_raise {A} (e : exn) : P e → raises_only P (@raise A e).
Proof. by intros He w e' w' [= <- _]. Qed.

Lemma raises_only_input (prompt : string) : P EOFError → raises_only P (input prompt).
Proof.
  intros He w e w'. unfold input. destruct (w_stdin w); [|done]. by intros [= <- _].
Qed.

Lemma raises_only_bind {A B} (m : M A) (k : A → M B) :
  raises_only P m → (∀ a, raises_only P (k a)) → raises_only P (bind m k).
Proof.
  intros Hm Hk w e w'. unfold bind.
  destruct (m w) as [[a|e1] w1] eqn:E.
  - apply Hk.
  - intros [= <- <-]. by eapply Hm.
Qed.

Lemma raises_only_try {A} (m : M A) (h : errno → string → M A) :
  raises_only (λ e, is_OSError e ∨ P e) m → (∀ e msg, raises_only P (h e msg)) →
  raises_only P (try_except_OSError m h).
Proof.
  intros Hm Hh w e w'. unfold try_except_OSError.
  destruct (m w) as [[a|[e1 msg|]] w1] eqn:E.
  - done.
  - apply Hh.
  - intros [= <- <-]. destruct (Hm _ _ _ E) as [(? & ? & [=])|H]. exact H.
Qed.

Lemma raises_only_for_each {A} (l : list A) (body : A → M unit) :
  (∀ a, raises_only P (body a)) → raises_only P (for_each l body).
Proof.
  intros Hbody. induction l as [|x l IH]; cbn [for_each].
  - apply raises_only_ret.
  - apply raises_only_bind; [apply Hbody|]. intros _. apply IH.
Qed.

(** The file operations raise [OSError]s. *)
Hypothesis HOS : ∀ e msg, P (OSError e msg).

Lemma raises_only_os_mkdir (env : environ) (p : path) : raises_only P (os_mkdir env p).
Proof.
  intros w e w'. unfold os_mkdir, bind, get_fs, put_fs, raise, os_error.
  destruct (lstat (w_fs w) p) as [q n|d c|e0]; intros [= <- _]; apply HOS.
Qed.

Lemma raises_only_unlink (p : path) : raises_only P (unlink p).
Proof.
  intros w e w'. unfold unlink, bind, get_fs, put_fs, raise, os_error.
  destruct (lstat (w_fs w) p) as [q [perm data|m|t]|d c|e0]; intros [= <- _]; apply HOS.
Qed.

Lemma raises_only_symlink_to (p target : path) : raises_only P (symlink_to p target).
Proof.
  intros w e w'. unfold symlink_to, bind, get_fs, put_fs, raise, os_error.
  destruct (lstat (w_fs w) p) as [q n|d c|e0]; intros [= <- _]; apply HOS.
Qed.

Lemma raises_only_read_text (p : path) : raises_only P (read_text p).
Proof.
  intros w e w'. unfold read_text, bind, get_fs, ret, raise, os_error.
  destruct (stat (w_fs w) p) as [q [perm data|m|t]|d c|e0]; intros [= <- _]; apply HOS.
Qed.

Lemma raises_only_stat_st_mode (p : path) : raises_only P (stat_st_mode p).
Proof.
  intros w e w'. unfold stat_st_mode, bind, get_fs, ret, raise, os_error.
  destruct (stat (w_fs w) p) as [q n|d c|e0]; intros [= <- _]; apply HOS.
Qed.

Lemma raises_only_iterdir (p : path) : raises_only P (iterdir p).
Proof.
  intros w e w'. unfold iterdir, bind, get_fs, ret, raise, os_error.
  destruct (stat (w_fs w) p) as [q [perm data|m|t]|d c|e0]; intros [= <- _]; apply HOS.
Qed.

Lemma raises_only_write_text (env : environ) (p : path) (text : string) :
  raises_only P (write_text env p text).
Proof.
  intros w e w'. unfold write_text, bind, get_fs, put_fs, raise, os_error.
  destruct (stat (w_fs w) p) as [q [perm data|m|t]|d c|e0]; intros [= <- _]; apply HOS.
Qed.

Lemma raises_only_append_text (env : environ) (p : path) (text : string) :
  raises_only P (append_text env p text).
Proof.
  intros w e w'. unfold append_text, bind, get_fs, put_fs, raise, os_error.
  destruct (stat (w_fs w) p) as [q [perm data|m|t]|d c|e0]; intros [= <- _]; apply HOS.
Qed.

Lemma raises_only_chmod (p : path) (mode : Z) : raises_only P (chmod p mode).
Proof.
  intros w e w'. unfold chmod, bind, get_fs, put_fs, ret, raise, os_error.
  destruct (stat (w_fs w) p) as [q [perm data|m|t]|d c|e0];
    [|destruct q|..]; intros [= <- _]; apply HOS.
Qed.

Lemma raises_only_mkdir_exist_ok (env : environ) (p : path) :
  raises_only P (mkdir_exist_ok env p).
Proof.
  intros w e w'. unfold mkdir_exist_ok.
  destruct (os_mkdir env p w) as [[[]|[e0 msg|]] w1] eqn:E;
    [|destruct (is_dir (w_fs w1) p)|]; intros [= <- _]; try apply HOS.
  by apply (raises_only_os_mkdir env p w _ _ E).
Qed.

Lemma raises_only_mkdir_parents_rev (env : environ) (rp : list string) :
  raises_only P (mkdir_parents_rev env rp).
Proof.
  induction rp as [|c rp IH]; intros w e w'; cbn [mkdir_parents_rev];
    destruct (os_mkdir env _ w) as [[[]|[e0 msg|]] w1] eqn:E;
    try assert (H1 := raises_only_os_mkdir env _ w _ _ E).
  - done.
  - destruct e0, (is_dir (w_fs w1) (rev [])); intros [= <- _]; apply HOS.
  - by intros [= <- _].
  - done.
  - assert (Hrest : raises_only P
                      (mkdir_parents_rev env rp >> mkdir_exist_ok env (rev (c :: rp)))).
    { apply raises_only_bind; [apply IH|]. intros _. apply raises_only_mkdir_exist_ok. }
    destruct e0;
      try (destruct (is_dir (w_fs w1) (rev (c :: rp))); intros [= <- _]; apply HOS).
    apply Hrest.
  - by intros [= <- _].
Qed.

End raises_only.

Ltac raises_step :=
  lazymatch goal with
  | |- raises_only _ (ret _) => apply raises_only_ret
  | |- raises_only _ get_fs => apply raises_only_get_fs
  | |- raises_only _ (print _) => apply raises_only_print
  | |- raises_only _ (raise _) => apply raises_only_raise
  | |- raises_only _ (input _) => apply raises_only_input
  | |- raises_only _ (os_mkdir _ _) => apply raises_only_os_mkdir
  | |- raises_only _ (unlink _) => apply raises_only_unlink
  | |- raises_only _ (symlink_to _ _) => apply raises_only_symlink_to
  | |- raises_only _ (read_text _) => apply raises_only_read_text
  | |- raises_only _ (stat_st_mode _) => apply raises_only_stat_st_mode
  | |- raises_only _ (iterdir _) => apply raises_only_iterdir
  | |- raises_only _ (write_text _ _ _) => apply raises_only_write_text
  | |- raises_only _ (append_text _ _ _) => apply raises_only_append_text
  | |- raises_only _ (chmod _ _) => apply raises_only_chmod
  | |- raises_only _ (mkdir_parents _ _) => apply raises_only_mkdir_parents_rev
  | |- raises_only _ (bind _ _) => apply raises_only_bind; [|intros ?]
  | |- raises_only _ (try_except_OSError _ _) => apply raises_only_try; [|intros ? ?]
  | |- raises_only _ (for_each _ _) => apply raises_only_for_each; intros ?
  | |- raises_only _ (if ?c then _ else _) => destruct c
  | |- raises_only _ (match ?x with _ => _ end) => destruct x
  end.

Ltac raises_side :=
  try solve [ auto | done | intros; left; eexists _, _; reflexivity
            | unfold os_error; auto ].

Ltac raises := repeat raises_step; raises_side.

Section raises_script.
Context (P : exn → Prop) (HOS : ∀ e msg, P (OSError e msg)) (env : environ).

Lemma raises_only_append_path_update (target : PathUpdateTarget) :
  raises_only P (append_path_update env target).
Proof. unfold append_path_update. raises. Qed.

End raises_script.



(* ===================================================================== *)
(** * The answers at the prompts *)
(* ===================================================================== *)

Lemma lower_char_y (c : ascii) : lower_char c = "y"%char → c = "y"%char ∨ c = "Y"%char.
Proof.
  destruct c as [[] [] [] [] [] [] [] []]; vm_compute; intros H;
    first [discriminate H | by left | by right].
Qed.

Lemma lower_char_e (c : ascii) : lower_char c = "e"%char → c = "e"%char ∨ c = "E"%char.
Proof.
  destruct c as [[] [] [] [] [] [] [] []]; vm_compute; intros H;
    first [discriminate H | by left | by right].
Qed.

Lemma lower_char_s (c : ascii) : lower_char c = "s"%char → c = "s"%char ∨ c = "S"%char.
Proof.
  destruct c as [[] [] [] [] [] [] [] []]; vm_compute; intros H;
    first [discriminate H | by left | by right].
Qed.

Lemma affirmative_lower (core : string) :
  affirmative (lower core) = true ↔ core ∈ yes_words.
Proof.
  unfold affirmative, yes_words. split.
  - rewrite orb_true_iff, !String.eqb_eq. intros [H|H].
    + destruct core as [|c1 [|c2 ?]]; try discriminate H. cbn [lower] in H.
      injection H as H. destruct (lower_char_y _ H) as [-> | ->]; set_solver.
    + destruct core as [|c1 [|c2 [|c3 [|c4 ?]]]]; try discriminate H. cbn [lower] in H.
      injection H as H1 H2 H3.
      destruct (lower_char_y _ H1) as [-> | ->], (lower_char_e _ H2) as [-> | ->],
        (lower_char_s _ H3) as [-> | ->]; set_solver.
  - intros H. repeat (apply elem_of_cons in H as [->|H]; [reflexivity|]).
    by apply elem_of_nil in H.
Qed.

Lemma lstrip_decomp (s : string) : ∃ a, all_space a = true ∧ s = a +:+ lstrip s.
Proof.
  induction s as [|c s (a & Ha & Hs)]; [by exists EmptyString|].
  cbn [lstrip]. destruct (isspace c) eqn:E.
  - exists (String c a). split.
    + unfold all_space in *. cbn [string_none]. by rewrite E.
    + rewrite append_cons. by f_equal.
  - by exists EmptyString.
Qed.

Lemma rstrip_decomp (s : string) : ∃ b, all_space b = true ∧ s = rstrip s +:+ b.
Proof.
  induction s as [|c s (b & Hb & Hs)]; [by exists EmptyString|].
  cbn [rstrip]. destruct (rstrip s) as [|c' r] eqn:Hr.
  - destruct (isspace c) eqn:E.
    + exists (String c b). split.
      * unfold all_space in *. cbn [string_none]. by rewrite E.
      * rewrite append_nil_l in *. by f_equal.
    + exists b. split; [done|]. rewrite append_cons. by f_equal.
  - exists b. split; [done|]. rewrite append_cons. by f_equal.
Qed.

Lemma lstrip_spaces (a s : string) : all_space a = true → lstrip (a +:+ s) = lstrip s.
Proof.
  unfold all_space. induction a as [|c a IH]; [done|].
  cbn [string_none]. rewrite andb_true_iff, !negb_true_iff, negb_false_iff.
  intros [Hc Ha]. rewrite append_cons. cbn [lstrip]. rewrite Hc. by apply IH.
Qed.

Lemma rstrip_spaces (b : string) : all_space b = true → rstrip b = EmptyString.
Proof.
  unfold all_space. induction b as [|c b IH]; [done|].
  cbn [string_none]. rewrite andb_true_iff, !negb_true_iff, negb_false_iff.
  intros [Hc Hb]. cbn [rstrip]. by rewrite IH, Hc.
Qed.

Lemma rstrip_append_spaces (t b : string) :
  all_space b = true → rstrip (t +:+ b) = rstrip t.
Proof.
  intros Hb. induction t as [|c t IH].
  - rewrite append_nil_l. by apply rstrip_spaces.
  - rewrite append_cons. cbn [rstrip]. by rewrite IH.
Qed.

Lemma strip_core (a core b : string) :
  all_space a = true → all_space b = true → core ∈ yes_words →
  strip (a +:+ core +:+ b) = core.
Proof.
  intros Ha Hb Hcore. unfold strip. rewrite lstrip_spaces by done.
  unfold yes_words in Hcore.
  repeat (apply elem_of_cons in Hcore as [->|Hcore];
          [rewrite append_cons; cbn [lstrip isspace]; 
           match goal with |- rstrip (if ?c then _ else _) = _ =>
             change c with false; cbv iota end;
           rewrite <- append_cons, rstrip_append_spaces by done; reflexivity|]).
  by apply elem_of_nil in Hcore.
Qed.

(** X17.  The answers that count as a yes.  At both prompts the answer is
    stripped and lower-cased and compared with [y] and [yes]: it is accepted
    exactly when it is, between any amount of white space, one of [y], [Y]
    or [yes] in any mix of upper and lower case. *)
Theorem affirmative_answers (response : string) :
  affirmative (lower (strip response)) = true ↔
  ∃ a core b,
    response = a +:+ core +:+ b
    ∧ all_space a = true ∧ all_space b = true ∧ core ∈ yes_words.
Proof.
  split.
  - intros Hyes%affirmative_lower.
    destruct (lstrip_decomp response) as (a & Ha & Hresp).
    destruct (rstrip_decomp (lstrip response)) as (b & Hb & Hl).
    exists a, (strip response), b. split_and!; try done.
    unfold strip. by rewrite <- Hl.
  - intros (a & core & b & -> & Ha & Hb & Hcore).
    rewrite strip_core by done. by apply affirmative_lower.
Qed.

(* ===================================================================== *)
(** * The repository root *)
(* ===================================================================== *)

(** The candidates of [detect_repo_root], from the directory of the script
    up to the root. *)
Lemma find_candidates (f : path → bool) (rp : list string) :
  match find f (rev rp :: path_parents_rev rp) with
  | Some c =>
      c `prefix_of` rev rp ∧ f c = true
      ∧ ∀ c', c `prefix_of` c' → c' `prefix_of` rev rp → f c' = true → c' = c
  | None => ∀ c', c' `prefix_of` rev rp → f c' = false
  end.
Proof.
  induction rp as [|x rp IH].
  - cbn [rev path_parents_rev find]. destruct (f []) eqn:E; cbv beta iota.
    + split_and!; [done|done|]. intros c' _ Hc' _. by apply prefix_nil_inv in Hc'.
    + intros c' Hc'. apply prefix_nil_inv in Hc'. by subst.
  - cbn [path_parents_rev].
    change (find f (rev (x :: rp) :: rev rp :: path_parents_rev rp))
      with (if f (rev (x :: rp)) then Some (rev (x :: rp))
            else find f (rev rp :: path_parents_rev rp)).
    destruct (f (rev (x :: rp))) eqn:E; cbv beta iota.
    + split_and!; [done|done|]. intros c' H1 H2 _. by apply (anti_symm prefix).
    + cbn [rev] in *. destruct (find f (rev rp :: path_parents_rev rp)) as [c|].
      * destruct IH as (Hpre & Hf & Hnear). split_and!; [by apply prefix_app_r|done|].
        intros c' H1 H2 H3. apply prefix_snoc_inv in H2 as [->|H2]; [congruence|].
        by apply Hnear.
      * intros c' [->|Hc']%prefix_snoc_inv; [done|by apply IH].
Qed.

(** X18.  The repository root.  [detect_repo_root] returns the directory of
    the script or one of its ancestors; the directory it returns has a [bin]
    directory, unless no candidate has one, in which case it is the
    directory of the script itself; and it is the nearest such candidate:
    no directory between it and the directory of the script has a [bin]
    directory. *)
Theorem detect_repo_root_nearest (env : environ) (fs : gmap path node) :
  let root := detect_repo_root env fs in
  let script_dir := env_script_dir env in
  root `prefix_of` script_dir
  ∧ (is_dir fs (root // "bin") = true
     ∨ (root = script_dir
        ∧ ∀ c, c `prefix_of` script_dir → is_dir fs (c // "bin") = false))
  ∧ (∀ c, root `prefix_of` c → c `prefix_of` script_dir →
          is_dir fs (c // "bin") = true → c = root).
Proof.
  intros root script_dir. subst root. unfold detect_repo_root. cbv zeta. fold script_dir.
  unfold path_parents.
  assert (H := find_candidates (λ candidate, is_dir fs (candidate // "bin")) (rev script_dir)).
  rewrite rev_involutive in H.
  destruct (find _ _) as [c|].
  - destruct H as (Hpre & Hf & Hnear). split_and!; [done|by left|done].
  - split_and!; [done|by right|].
    intros c _ Hc Hdir. by rewrite (H c Hc) in Hdir.
Qed.

(* ===================================================================== *)
(** * The names the pattern accepts *)
(* ===================================================================== *)

Lemma append_eq_nil (a b : string) :
  a +:+ b = EmptyString → a = EmptyString ∧ b = EmptyString.
Proof. destruct a; [by rewrite append_nil_l|by rewrite append_cons]. Qed.

Lemma append_eq_cons (a b : string) (c : ascii) (s : string) :
  a +:+ b = String c s →
  (a = EmptyString ∧ b = String c s) ∨ (∃ a', a = String c a' ∧ s = a' +:+ b).
Proof.
  destruct a as [|x a].
  - rewrite append_nil_l. by left.
  - rewrite append_cons. intros [= -> <-]. right. by exists a.
Qed.

Lemma nullable_matches (r : regex) : nullable r = true ↔ matches r EmptyString.
Proof.
  split.
  - induction r; cbn [nullable]; try discriminate; intros H.
    + constructor.
    + apply orb_true_iff in H as [H|H]; [apply matches_Alt_l|apply matches_Alt_r]; auto.
    + apply andb_true_iff in H as [H1 H2].
      apply (matches_Seq _ _ EmptyString EmptyString); auto.
    + constructor.
  - intros H. remember EmptyString as s eqn:Hs.
    induction H; cbn [nullable]; try discriminate; try done.
    + by rewrite IHmatches.
    + rewrite IHmatches by done. by rewrite orb_true_r.
    + apply append_eq_nil in Hs as [-> ->]. by rewrite IHmatches1, IHmatches2.
Qed.

Lemma deriv_matches (c : ascii) (r : regex) (s : string) :
  matches (deriv c r) s ↔ matches r (String c s).
Proof.
  split.
  - revert s. induction r; cbn [deriv]; intros s H.
    + inversion H.
    + inversion H.
    + destruct (Ascii.eqb_spec c c0) as [->|]; inversion H. constructor.
    + destruct (range_in lo hi c) eqn:E; inversion H. by constructor.
    + inversion H; subst; [apply matches_Alt_l|apply matches_Alt_r]; auto.
    + destruct (nullable r1) eqn:E.
      * inversion H as [| | | ? ? ? H1 | ? ? ? H1 | | |]; subst.
        -- inversion H1; subst. rewrite <- append_cons. constructor; auto.
        -- apply nullable_matches in E.
           rewrite <- (append_nil_l (String c s)). constructor; auto.
      * inversion H; subst. rewrite <- append_cons. constructor; auto.
    + inversion H; subst. rewrite <- append_cons. constructor; auto.
  - intros H. remember (String c s) as cs eqn:Hcs. revert s Hcs.
    induction H; intros t Hcs; cbn [deriv]; try discriminate.
    + injection Hcs as -> <-. rewrite Ascii.eqb_refl. constructor.
    + injection Hcs as -> <-. rewrite H. constructor.
    + apply matches_Alt_l. auto.
    + apply matches_Alt_r. auto.
    + apply append_eq_cons in Hcs as [[-> ->]|(a' & -> & ->)].
      * apply nullable_matches in H. rewrite H. apply matches_Alt_r. auto.
      * destruct (nullable r1).
        -- apply matches_Alt_l. constructor; auto.
        -- constructor; auto.
    + apply append_eq_cons in Hcs as [[-> ->]|(a' & -> & ->)].
      * cbn [deriv] in IHmatches2. auto.
      * constructor; auto.
Qed.

(** The matcher accepts the strings with a prefix in the language of the
    expression, after which [$] holds. *)
Lemma re_match_anchored_spec (r : regex) (s : string) :
  re_match_anchored r s = true ↔
  ∃ pre rest, s = pre +:+ rest ∧ matches r pre ∧ at_dollar rest = true.
Proof.
  revert r. induction s as [|c s IH]; intros r; cbn [re_match_anchored].
  - rewrite orb_false_r, andb_true_r. rewrite nullable_matches. split.
    + intros H. by exists EmptyString, EmptyString.
    + intros (pre & rest & Hs & Hm & _). symmetry in Hs.
      apply append_eq_nil in Hs as [-> _]. done.
  - rewrite orb_true_iff, andb_true_iff, IH, nullable_matches. split.
    + intros [[Hn Hd]|(pre & rest & -> & Hm & Hd)].
      * exists EmptyString, (String c s). by rewrite append_nil_l.
      * exists (String c pre), rest. rewrite append_cons.
        split_and!; [done| |done]. by apply deriv_matches.
    + intros (pre & rest & Hs & Hm & Hd). symmetry in Hs.
      apply append_eq_cons in Hs as [[-> ->]|(a' & -> & ->)].
      * by left.
      * right. exists a', rest. split_and!; [done| |done]. by apply deriv_matches.
Qed.

(** The language of each part of [SCRIPT_NAME_PATTERN]. *)
Lemma matches_lower_alnum (s : string) :
  matches lower_alnum s ↔ ∃ c, s = String c EmptyString ∧ is_lower_alnum c = true.
Proof.
  unfold lower_alnum, is_lower_alnum. split.
  - intros H. inversion H as [| | | ? ? ? H1 | ? ? ? H1 | | |]; subst;
      inversion H1 as [| |? ? c Hc| | | | |]; subst; exists c; rewrite Hc;
      by rewrite ?orb_true_r.
  - intros (c & -> & [H|H]%orb_true_iff).
    + apply matches_Alt_l. by constructor.
    + apply matches_Alt_r. by constructor.
Qed.

Lemma all_lower_alnum_append (a b : string) :
  all_lower_alnum (a +:+ b) = all_lower_alnum a && all_lower_alnum b.
Proof. apply string_none_append. Qed.

Lemma matches_Star_lower_alnum (s : string) :
  matches (Star lower_alnum) s ↔ all_lower_alnum s = true.
Proof.
  split.
  - intros H. remember (Star lower_alnum) as r eqn:Hr.
    induction H; try discriminate; [done|]. injection Hr as ->.
    apply matches_lower_alnum in H as (c & -> & Hc).
    rewrite all_lower_alnum_append, IHmatches2 by done.
    unfold all_lower_alnum. cbn [string_none]. by rewrite Hc.
  - induction s as [|c s IH]; [constructor|].
    unfold all_lower_alnum. cbn [string_none].
    rewrite andb_true_iff, negb_true_iff, negb_false_iff. intros [Hc Hs].
    change (String c s) with (String c EmptyString +:+ s).
    constructor; [|by apply IH]. apply matches_lower_alnum. by exists c.
Qed.

Lemma matches_word (s : string) : matches (Plus lower_alnum) s ↔ is_word s.
Proof.
  unfold Plus, is_word. split.
  - intros H. inversion H as [| | | | |? ? s1 s2 H1 H2| |]; subst.
    apply matches_lower_alnum in H1 as (c & -> & Hc).
    apply matches_Star_lower_alnum in H2. split; [done|].
    rewrite all_lower_alnum_append, H2.
    unfold all_lower_alnum. cbn [string_none]. by rewrite Hc.
  - intros [Hne Hall]. destruct s as [|c s]; [done|].
    unfold all_lower_alnum in Hall. cbn [string_none] in Hall.
    apply andb_true_iff in Hall as [Hc%negb_true_iff%negb_false_iff Hs].
    change (String c s) with (String c EmptyString +:+ s).
    constructor.
    + apply matches_lower_alnum. by exists c.
    + by apply matches_Star_lower_alnum.
Qed.

Lemma matches_hyphenated (s : string) :
  matches (Star (Seq (Chr "-") (Plus lower_alnum))) s ↔
  ∃ words, Forall is_word words ∧ s = hyphenated words.
Proof.
  split.
  - intros H. remember (Star (Seq (Chr "-") (Plus lower_alnum))) as r eqn:Hr.
    induction H; try discriminate; [by exists []|]. injection Hr as ->.
    destruct (IHmatches2 eq_refl) as (words & Hwords & ->).
    inversion H as [| | | | |? ? a b Ha Hb| |]; subst.
    inversion Ha; subst. apply matches_word in Hb.
    exists (b :: words). split; [by constructor|].
    cbn [hyphenated]. by rewrite !append_assoc.
  - intros (words & Hwords & ->). induction Hwords as [|w words Hw _ IH]; [constructor|].
    cbn [hyphenated]. rewrite <- append_assoc. constructor; [|done].
    constructor; [constructor|by apply matches_word].
Qed.

Lemma matches_extension (s : string) :
  matches (Opt (Seq (Chr ".") (Plus lower_alnum))) s ↔
  s = EmptyString ∨ ∃ e, is_word e ∧ s = "." +:+ e.
Proof.
  unfold Opt. split.
  - intros H. inversion H as [| | | ? ? ? H1 | ? ? ? H1 | | |]; subst.
    + inversion H1 as [| | | | |? ? a b Ha Hb| |]; subst. inversion Ha; subst.
      right. exists b. split; [by apply matches_word|done].
    + inversion H1. by left.
  - intros [->|(e & He & ->)].
    + apply matches_Alt_r. constructor.
    + apply matches_Alt_l. constructor; [constructor|by apply matches_word].
Qed.

Lemma join_hyphenated (w : string) (words : list string) :
  join "-" (w :: words) = w +:+ hyphenated words.
Proof.
  revert w. induction words as [|w' words IH]; intros w.
  - cbn. by rewrite append_nil_r.
  - change (join "-" (w :: w' :: words)) with (w +:+ "-" +:+ join "-" (w' :: words)).
    rewrite IH. cbn [hyphenated]. done.
Qed.

Lemma matches_SCRIPT_NAME_PATTERN (s : string) :
  matches SCRIPT_NAME_PATTERN s ↔
  ∃ words ext,
    words ≠ [] ∧ Forall is_word words ∧ (∀ e, ext = Some e → is_word e)
    ∧ s = kebab_name words ext.
Proof.
  unfold SCRIPT_NAME_PATTERN, kebab_name. split.
  - intros H. inversion H as [| | | | |? ? w rest Hw Hrest| |]; subst.
    inversion Hrest as [| | | | |? ? h x Hh Hx| |]; subst.
    apply matches_word in Hw. apply matches_hyphenated in Hh as (words & Hwords & ->).
    apply matches_extension in Hx as [->|(e & He & ->)].
    + exists (w :: words), None. split_and!; [done|by constructor|done|].
      by rewrite join_hyphenated, !append_assoc.
    + exists (w :: words), (Some e). split_and!; [done|by constructor| |].
      * by intros ? [= <-].
      * by rewrite join_hyphenated, !append_assoc.
  - intros (words & ext & Hne & Hwords & Hext & ->).
    destruct words as [|w words]; [done|]. apply Forall_cons in Hwords as [Hw Hwords].
    rewrite join_hyphenated, append_assoc.
    constructor; [by apply matches_word|].
    constructor; [apply matches_hyphenated; by exists words|].
    apply matches_extension. destruct ext as [e|]; [right|by left].
    exists e. split; [by apply Hext|done].
Qed.

(** X19.  The names the pattern accepts.  [SCRIPT_NAME_PATTERN.match] accepts
    a name exactly when it is one or more words joined by single hyphens,
    possibly followed by a dot and one more word, a word being one or more
    lower-case letters and digits; or such a name followed by one line
    feed, since [$] also holds just before a line feed that ends the
    string. *)
Theorem script_name_pattern_language (name : string) :
  SCRIPT_NAME_PATTERN_match name = true ↔
  ∃ words ext,
    words ≠ [] ∧ Forall is_word words ∧ (∀ e, ext = Some e → is_word e)
    ∧ (name = kebab_name words ext ∨ name = kebab_name words ext +:+ NL).
Proof.
  unfold SCRIPT_NAME_PATTERN_match. rewrite re_match_anchored_spec. split.
  - intros (pre & rest & -> & Hm & Hd).
    apply matches_SCRIPT_NAME_PATTERN in Hm as (words & ext & Hne & Hwords & Hext & ->).
    exists words, ext. split_and!; try done.
    destruct rest as [|c [|c' rest]]; cbn [at_dollar] in Hd; try discriminate.
    + left. by rewrite append_nil_r.
    + right. by apply Ascii.eqb_eq in Hd as ->.
  - intros (words & ext & Hne & Hwords & Hext & [->| ->]).
    + exists (kebab_name words ext), EmptyString. rewrite append_nil_r.
      split_and!; [done| |done]. apply matches_SCRIPT_NAME_PATTERN. by exists words, ext.
    + exists (kebab_name words ext), NL.
      split_and!; [done| |done]. apply matches_SCRIPT_NAME_PATTERN. by exists words, ext.
Qed.

(* ===================================================================== *)
(** * A name that ends in a line feed *)
(* ===================================================================== *)

Lemma line_feed_name_outside_pattern :
  ¬ matches SCRIPT_NAME_PATTERN (path_name example_line_feed_script).
Proof.
  change (path_name example_line_feed_script) with ("abc" +:+ NL).
  intros H. cbn [append NL] in H.
  do 4 apply deriv_matches in H.
  apply nullable_matches in H. vm_compute in H. discriminate.
Qed.

(** C1.  Discovery classification fails for a name that ends in a line feed.
    The claim puts a regular non-hidden file whose name does not match the
    pattern into the invalid list.  Take [bin] with one regular file named
    [abc] followed by a line feed.  The name is not a name of the pattern: no
    string with a line feed is in the language of [SCRIPT_NAME_PATTERN], and
    it is not made of words, hyphens and an extension.  Yet
    [SCRIPT_NAME_PATTERN.match] accepts it, because [$] also holds just
    before a line feed that ends the string; so discovery returns the file
    in the valid list, the invalid list is empty, and a run under [--yes]
    installs it and ends with status 0. *)
Theorem discovery_accepts_trailing_line_feed :
  let w := World example_fs_line_feed [] [] in
  let p := example_line_feed_script in
  let w' := snd (run example_env (example_args true) w) in
  path_name p = "abc" +:+ NL
  ∧ ¬ matches SCRIPT_NAME_PATTERN (path_name p)
  ∧ (¬ ∃ words ext,
        words ≠ [] ∧ Forall is_word words ∧ (∀ e, ext = Some e → is_word e)
        ∧ path_name p = kebab_name words ext)
  ∧ regular_non_hidden (w_fs w) p = true
  ∧ SCRIPT_NAME_PATTERN_match (path_name p) = true
  ∧ discover_source_scripts ["repo"] w = (Ok (["repo"; "bin"], [p], []), w)
  ∧ fst (run example_env (example_args true) w) = 0
  ∧ w_fs w' !! (["home"; "u"; "bin"; "abc" +:+ NL]) = Some (File 484 "#!/bin/sh").
Proof.
  cbv zeta. split_and!.
  - reflexivity.
  - apply line_feed_name_outside_pattern.
  - rewrite <- matches_SCRIPT_NAME_PATTERN. apply line_feed_name_outside_pattern.
  - vm_compute. reflexivity.
  - vm_compute. reflexivity.
  - vm_compute. reflexivity.
  - vm_compute. reflexivity.
  - vm_compute. reflexivity.
Qed.

(* ===================================================================== *)
(** * A run that installs *)
(* ===================================================================== *)






(* ===================================================================== *)
(** * The question of the advisor *)
(* ===================================================================== *)

Lemma input_eq (prompt : string) (w : world) :
  input prompt w
  = match w_stdin w with
    | [] => (Raise EOFError, World (w_fs w) [] (w_stdout w ++ [prompt]))
    | l :: rest => (Ok l, World (w_fs w) rest (w_stdout w ++ [prompt]))
    end.
Proof. reflexivity. Qed.

(** X21.  The question of the advisor.  Without [--yes], for an install
    directory that is not on [PATH] and a start-up file in which the scan
    finds no entry, the advisor prints the advice and asks.  With the input
    exhausted [EOFError] leaves it right after the question and the file
    system is what it was; an answer that is not a yes makes it print that
    the update was skipped, with the file system unchanged; after a yes it
    returns, whatever becomes of the update, having read that one line. *)
Theorem advisor_prompt_outcomes (env : environ) (install_dir : path) (w : world) :
  let target := detect_path_update_target env (w_fs w) install_dir in
  let asked := w_stdout w ++ advice_lines install_dir target ++ [update_prompt target] in
  is_in_path env (w_fs w) install_dir = false →
  rc_scan env target install_dir (w_fs w) = false →
  match w_stdin w with
  | [] =>
      maybe_offer_path_update env install_dir false w
      = (Raise EOFError, World (w_fs w) [] asked)
  | response :: rest =>
      if affirmative (lower (strip response)) then
        ∃ w', maybe_offer_path_update env install_dir false w = (Ok tt, w')
              ∧ w_stdin w' = rest
      else
        maybe_offer_path_update env install_dir false w
        = (Ok tt, World (w_fs w) rest (asked ++ skipped_lines target))
  end.
Proof.
  intros target asked Hin Hscan. subst asked. unfold maybe_offer_path_update.
  rewrite (bind_Ok _ _ _ _ _ (get_fs_eq w)), Hin. cbv zeta. fold target.
  rewrite (bind_Ok _ _ _ _ _ (rc_file_has_path_entry_scan env target install_dir w)).
  rewrite Hscan.
  rewrite (bind_Ok _ _ _ _ _ (print_eq _ _)).
  rewrite (bind_Ok _ _ _ _ _ (print_eq _ _)).
  rewrite (bind_Ok _ _ _ _ _ (print_eq _ _)).
  rewrite !with_output_app. cbn [app].
  fold (update_prompt target).
  set (w0 := with_output w _).
  destruct (w_stdin w) as [|response rest] eqn:Hstdin.
  - assert (Hask : (let* response := input (update_prompt target) in
                    ret (affirmative (lower (strip response)))) w0
                   = (Raise EOFError,
                      World (w_fs w) [] (w_stdout w ++ advice_lines install_dir target
                                         ++ [update_prompt target]))).
    { unfold bind. rewrite input_eq. unfold w0, with_output. cbn [w_fs w_stdin w_stdout].
      rewrite Hstdin. by rewrite <- app_assoc. }
    by rewrite (bind_Raise _ _ _ _ _ Hask).
  - assert (Hask : (let* response := input (update_prompt target) in
                    ret (affirmative (lower (strip response)))) w0
                   = (Ok (affirmative (lower (strip response))),
                      World (w_fs w) rest (w_stdout w ++ advice_lines install_dir target
                                           ++ [update_prompt target]))).
    { unfold bind. rewrite input_eq. unfold w0, with_output. cbn [w_fs w_stdin w_stdout].
      rewrite Hstdin. unfold ret. by rewrite <- app_assoc. }
    rewrite (bind_Ok _ _ _ _ _ Hask).
    destruct (affirmative (lower (strip response))).
    + match goal with |- ∃ w', ?m ?w1 = _ ∧ _ =>
        destruct (m w1) as [[[]|e] w'] eqn:E
      end.
      * exists w'. split; [done|].
        revert E.
        match goal with |- ?m ?w1 = _ → _ =>
          assert (Hkeep : preserves (orderly true) m)
        end.
        { orderly; apply preserves_append_path_update. }
        intros E. destruct (Hkeep _ _ _ E) as (_ & _ & _ & Hq). by rewrite Hq.
      * exfalso. revert E.
        match goal with |- ?m ?w1 = _ → _ =>
          assert (Hraises : raises_only (λ _, False) m)
        end.
        { raises. apply raises_only_append_path_update. intros. left. by eexists _, _. }
        apply Hraises.
    + rewrite (bind_Ok _ _ _ _ _ (print_eq _ _)), print_eq.
      unfold with_output, skipped_lines. cbn [w_fs w_stdin w_stdout].
      by rewrite <- !app_assoc.
Qed.

Lemma advisor_prompt_outcomes_witness :
  let w := World example_fs_paths ["n"] [] in
  let install_dir := ["home"; "u"; "bin"] in
  let target := detect_path_update_target example_env (w_fs w) install_dir in
  maybe_offer_path_update example_env install_dir false w
  = (Ok tt, World (w_fs w) []
              ((w_stdout w ++ advice_lines install_dir target ++ [update_prompt target])
               ++ skipped_lines target)).
Proof.
  intros w install_dir target.
  apply (advisor_prompt_outcomes example_env install_dir w).
  - vm_compute. reflexivity.
  - vm_compute. reflexivity.
Defined.



(* ===================================================================== *)
(** * A directory that the search path lists *)
(* ===================================================================== *)









(* ===================================================================== *)
(** * The names discovery returns *)
(* ===================================================================== *)

Lemma child_name_Some (d p : path) (n : string) :
  child_name d p = Some n → p = d ++ [n].
Proof.
  revert p. induction d as [|a d IH]; intros p; cbn [child_name].
  - destruct p as [|b [|? ?]]; try done. by intros [= ->].
  - destruct p as [|b p]; [done|].
    destruct (String.eqb_spec a b) as [->|]; [|done].
    intros H%IH. by rewrite H.
Qed.

Lemma NoDup_omap_inj {A B} (f : A → option B) (l : list A) :
  (∀ x y z, f x = Some z → f y = Some z → x = y) →
  NoDup l → NoDup (omap f l).
Proof.
  intros Hinj. induction 1 as [|x l Hx Hl IH]; [constructor|].
  change (omap f (x :: l)) with (match f x with Some y => y :: omap f l | None => omap f l end).
  destruct (f x) as [z|] eqn:Hz; [|done].
  constructor; [|done].
  intros (y & Hy & Hfy)%list_elem_of_omap. by rewrite (Hinj x y z Hz Hfy) in Hx.
Qed.

Lemma NoDup_listdir (fs : gmap path node) (d : path) : NoDup (listdir fs d).
Proof.
  unfold listdir. apply NoDup_omap_inj.
  - intros x y z Hx%child_name_Some Hy%child_name_Some. congruence.
  - apply NoDup_fst_map_to_list.
Qed.

Lemma map_path_name_join (d : path) (names : list string) :
  map path_name (map (path_join d) names) = names.
Proof.
  induction names as [|n names IH]; [done|].
  cbn [map]. by rewrite path_name_join, IH.
Qed.

Lemma NoDup_map_inj_on {A B} (h : A → B) (l : list A) (a b : A) :
  NoDup (map h l) → a ∈ l → b ∈ l → h a = h b → a = b.
Proof.
  induction l as [|x l IH]; cbn [map]; [by intros _ ?%elem_of_nil|].
  intros [Hx Hl]%NoDup_cons [->|Ha]%elem_of_cons [->|Hb]%elem_of_cons Hab; try done.
  - exfalso. apply Hx. rewrite Hab. by apply (list_elem_of_fmap_2 h).
  - exfalso. apply Hx. rewrite <- Hab. by apply (list_elem_of_fmap_2 h).
  - by apply IH.
Qed.

Lemma NoDup_map_list_filter {A B} (h : A → B) (f : A → bool) (l : list A) :
  NoDup (map h l) → NoDup (map h (List.filter f l)).
Proof.
  induction l as [|x l IH]; cbn [map List.filter]; [done|].
  intros [Hx Hl]%NoDup_cons. destruct (f x); [|by apply IH].
  cbn [map]. apply NoDup_cons. split; [|by apply IH].
  intros (y & Hy & Hin)%list_elem_of_fmap. apply Hx. rewrite Hy.
  apply (list_elem_of_fmap_2 h). apply list_elem_of_In in Hin.
  apply filter_In in Hin as [Hin _]. by apply list_elem_of_In.
Qed.

(** X24.  No two discovered scripts share a name.  Whatever discovery returns,
    the source directory is [repo_root / bin], every returned path is that
    directory followed by its own name, and the names of the valid and the
    invalid scripts together are pairwise distinct; so no two valid scripts
    have the same destination in any install directory. *)
Theorem discovered_names_distinct (repo_root : path) (w w' : world)
    (source_dir : path) (valid invalid : list path) :
  discover_source_scripts repo_root w = (Ok (source_dir, valid, invalid), w') →
  source_dir = repo_root // "bin"
  ∧ Forall (λ s, s = source_dir // path_name s) (valid ++ invalid)
  ∧ NoDup (map path_name (valid ++ invalid))
  ∧ ∀ install_dir, NoDup (map (destination_of install_dir) valid).
Proof.
  unfold discover_source_scripts.
  rewrite (bind_Ok _ _ _ _ _ (get_fs_eq w)).
  destruct (is_dir (w_fs w) (repo_root // "bin")) eqn:Hdir; cbn [negb].
  2:{ intros [= <- <- <- _]. split_and!; [done|constructor|constructor|]. intros ?. constructor. }
  destruct (iterdir_is_dir _ _ Hdir) as (q & m & _ & Hiter).
  rewrite (bind_Ok _ _ _ _ _ Hiter), classify_spec. cbn [app].
  set (bin := repo_root // "bin").
  set (entries := map (path_join bin) (listdir (w_fs w) q)).
  intros [= <- <- <- _].
  assert (Hentries : ∀ s, s ∈ sorted entries → s = bin // path_name s).
  { intros s Hs. rewrite (sorted_Permutation entries) in Hs.
    apply list_elem_of_fmap in Hs as (n & -> & _). by rewrite path_name_join. }
  assert (Hnodup : NoDup (map path_name (sorted entries))).
  { rewrite (sorted_Permutation entries). unfold entries.
    rewrite map_path_name_join. apply NoDup_listdir. }
  assert (Hin : ∀ f s, s ∈ List.filter f (sorted entries) → s ∈ sorted entries ∧ f s = true).
  { intros f s Hs. apply list_elem_of_In, filter_In in Hs as [Hs Hf].
    split; [by apply list_elem_of_In|done]. }
  assert (Hnames : NoDup (map path_name
            (List.filter (is_source_script (w_fs w)) (sorted entries)
             ++ List.filter (is_invalid_script (w_fs w)) (sorted entries)))).
  { rewrite map_app. apply NoDup_app. split_and!.
    - by apply NoDup_map_list_filter.
    - intros n (a & -> & Ha)%list_elem_of_fmap (b & Hab & Hb)%list_elem_of_fmap.
      apply Hin in Ha as [Ha Hfa], Hb as [Hb Hfb].
      assert (a = b) as -> by by apply (NoDup_map_inj_on path_name (sorted entries)).
      unfold is_source_script, is_invalid_script in *.
      apply andb_true_iff in Hfa as [_ Hfa], Hfb as [_ Hfb].
      rewrite Hfa in Hfb. done.
    - by apply NoDup_map_list_filter. }
  split_and!; [done| |done|].
  - apply Forall_forall. intros s [Hs|Hs]%elem_of_app; apply Hin in Hs as [Hs _];
      by apply Hentries.
  - intros install_dir. rewrite map_app in Hnames. apply NoDup_app in Hnames as (Hv & _).
    clear -Hv. induction (List.filter _ _) as [|s l IH]; [constructor|].
    cbn [map] in *. apply NoDup_cons in Hv as [Hs Hl]. apply NoDup_cons.
    split; [|by apply IH].
    intros (s' & E & Hs')%list_elem_of_fmap. apply Hs.
    unfold destination_of, path_join in E. apply app_inj_tail in E as [_ ->].
    by apply (list_elem_of_fmap_2 path_name).
Qed.

Lemma discovered_names_distinct_witness :
  let bin := ["repo"; "bin"] in
  let valid := [bin // "baz.sh"; bin // "foo-bar"] in
  let invalid := [bin // "BadName"] in
  bin = ["repo"] // "bin"
  ∧ Forall (λ s, s = bin // path_name s) (valid ++ invalid)
  ∧ NoDup (map path_name (valid ++ invalid))
  ∧ ∀ install_dir, NoDup (map (destination_of install_dir) valid).
Proof.
  intros bin valid invalid.
  apply (discovered_names_distinct ["repo"] (World example_fs_invalid [] [])
           (World example_fs_invalid [] []) bin valid invalid).
  vm_compute. reflexivity.
Defined.

(* ===================================================================== *)
(** * Directories that are missing *)
(* ===================================================================== *)

Lemma make_dirs_snoc (env : environ) (fs : gmap path node) (base : path)
    (missing : list string) (c : string) :
  make_dirs env fs base (missing ++ [c])
  = <[(base ++ missing) ++ [c] := Dir (create_perm env 511)]> (make_dirs env fs base missing).
Proof.
  revert fs base. induction missing as [|x missing IH]; intros fs base; cbn [make_dirs app].
  - by rewrite app_nil_r.
  - rewrite IH. by rewrite <- !app_assoc.
Qed.

Lemma make_dirs_lookup_other (env : environ) (fs : gmap path node) (base : path)
    (missing : list string) (k : path) :
  (∀ pre, pre `prefix_of` missing → pre ≠ [] → k ≠ base ++ pre) →
  make_dirs env fs base missing !! k = fs !! k.
Proof.
  induction missing as [|c missing IH] using rev_ind; [done|].
  intros Hk. rewrite make_dirs_snoc, lookup_insert_ne.
  - apply IH. intros pre Hpre Hne. apply Hk; [by apply prefix_app_r|done].
  - intros E. apply (Hk (missing ++ [c])); [done|by destruct missing|].
    by rewrite app_assoc.
Qed.

Lemma make_dirs_real_dir (env : environ) (fs : gmap path node) (base : path)
    (missing : list string) :
  real_dir fs base → real_dir (make_dirs env fs base missing) (base ++ missing).
Proof.
  intros Hbase. induction missing as [|c missing IH] using rev_ind.
  - by rewrite app_nil_r.
  - rewrite make_dirs_snoc, app_assoc.
    apply (real_dir_snoc _ _ _ (create_perm env 511)).
    + by apply real_dir_insert_child.
    + by rewrite lookup_insert_eq.
Qed.

Lemma mkdir_parents_creates (env : environ) (w : world) (base : path)
    (missing : list string) :
  real_dir (w_fs w) base → Forall plain_name base → Forall plain_name missing →
  nothing_along (w_fs w) base missing →
  missing ≠ [] →
  mkdir_parents env (base ++ missing) w
  = (Ok tt, with_fs w (make_dirs env (w_fs w) base missing)).
Proof.
  intros Hbase Hpb. revert w Hbase.
  induction missing as [|c missing IH] using rev_ind; [done|].
  intros w Hbase Hpm Hnone _.
  apply Forall_app in Hpm as [Hpm Hc]. apply Forall_cons in Hc as [Hc _].
  unfold mkdir_parents. rewrite app_assoc, rev_unit. cbn [mkdir_parents_rev].
  assert (Hrev : rev (c :: rev (base ++ missing)) = (base ++ missing) ++ [c]).
  { cbn [rev]. by rewrite rev_involutive. }
  rewrite Hrev.
  destruct missing as [|c0 missing0] eqn:Hmissing.
  - (* the parent exists *)
    rewrite app_nil_r in *. unfold os_mkdir. rewrite (bind_Ok _ _ _ _ _ (get_fs_eq w)).
    assert (Hl := lstat_canonical (w_fs w) base c Hbase Hpb Hc).
    unfold path_join in Hl. rewrite Hl.
    rewrite (Hnone [c]); [|done|done]. reflexivity.
  - (* the parent is missing too *)
    assert (Hc0 : plain_name c0) by by apply Forall_cons in Hpm as [? _].
    rewrite <- Hmissing in *.
    assert (Hne : missing ≠ []) by by rewrite Hmissing.
    assert (Hfirst : w_fs w !! (base ++ [c0]) = None).
    { apply Hnone; [|done]. rewrite Hmissing. by exists (missing0 ++ [c]). }
    assert (Hmk : os_mkdir env ((base ++ missing) ++ [c]) w
                  = (Raise (os_error ENOENT ((base ++ missing) ++ [c])), w)).
    { unfold os_mkdir. rewrite (bind_Ok _ _ _ _ _ (get_fs_eq w)).
      unfold lstat. rewrite <- !app_assoc.
      rewrite (walk_through _ _ _ [] base) by done. cbn [app].
      rewrite Hmissing. rewrite <- app_comm_cons, walk_cons.
      destruct (plain_name_eqb c0 Hc0) as [E1 E2]. rewrite E1, E2, Hfirst.
      by destruct missing0. }
    rewrite Hmk. unfold os_error at 1.
    assert (Hparents : mkdir_parents_rev env (rev (base ++ missing)) w
                       = (Ok tt, with_fs w (make_dirs env (w_fs w) base missing))).
    { apply (IH w Hbase Hpm); [|done].
      intros pre Hpre Hn. apply Hnone; [by apply prefix_app_r|done]. }
    rewrite (bind_Ok _ _ _ _ _ Hparents).
    unfold mkdir_exist_ok, os_mkdir.
    rewrite (bind_Ok _ _ _ _ _ (get_fs_eq _)). cbn [w_fs with_fs].
    assert (Hl := lstat_canonical (make_dirs env (w_fs w) base missing) (base ++ missing) c
                    (make_dirs_real_dir env _ _ _ Hbase)).
    unfold path_join in Hl. rewrite Hl; [|by apply Forall_app|done].
    rewrite make_dirs_lookup_other.
    + rewrite <- app_assoc, (Hnone (missing ++ [c])); [|done|by destruct missing].
      rewrite make_dirs_snoc, <- !app_assoc. reflexivity.
    + intros pre Hpre Hn E. rewrite <- app_assoc in E. apply app_inv_head in E.
      subst pre. destruct Hpre as [k Hk].
      apply (f_equal length) in Hk. rewrite !length_app in Hk. cbn in Hk. lia.
Qed.

Lemma make_dirs_lookup_new (env : environ) (fs : gmap path node) (base : path)
    (missing pre : list string) :
  pre `prefix_of` missing → pre ≠ [] →
  make_dirs env fs base missing !! (base ++ pre) = Some (Dir (create_perm env 511)).
Proof.
  induction missing as [|c missing IH] using rev_ind.
  - intros Hpre%prefix_nil_inv. done.
  - intros [->|Hpre]%prefix_snoc_inv Hne; rewrite make_dirs_snoc.
    + by rewrite app_assoc, lookup_insert_eq.
    + rewrite lookup_insert_ne; [by apply IH|].
      intros E. rewrite <- app_assoc in E. apply app_inv_head in E.
      subst pre. destruct Hpre as [k Hk].
      apply (f_equal length) in Hk. rewrite !length_app in Hk. cbn in Hk. lia.
Qed.


Lemma created_key_length (base : path) (missing pre : list string) (k : path) :
  pre `prefix_of` missing → k = base ++ pre → (length k ≤ length (base ++ missing))%nat.
Proof.
  intros [x ->] ->. rewrite !length_app. lia.
Qed.

(** X26.  The update creates the directories it needs.  When the start-up
    file is [base / missing / name] and nothing lies below the canonical
    directory [base] along that path (as for [~/.config/fish/config.fish]
    in a fresh home directory), [append_path_update] succeeds: every missing
    directory is created with the permission bits [0o777] under the umask,
    the file is created with [0o666] under the umask and holds the marker
    line and the suggested line, and no other entry is changed. *)
Theorem update_creates_missing_directories (env : environ) (w : world)
    (target : PathUpdateTarget) (base : path) (missing : list string) (name : string) :
  rc_file target = (base ++ missing) // name →
  real_dir (w_fs w) base → Forall plain_name base →
  Forall plain_name missing → plain_name name → missing ≠ [] →
  nothing_along (w_fs w) base (missing ++ [name]) →
  ∃ fs',
    append_path_update env target w = (Ok tt, with_fs w fs')
    ∧ real_dir fs' (base ++ missing)
    ∧ fs' !! ((base ++ missing) // name)
      = Some (File (create_perm env 438)
                   (PATH_UPDATE_MARKER +:+ NL +:+ path_line target +:+ NL))
    ∧ (∀ pre, pre `prefix_of` missing → pre ≠ [] →
         fs' !! (base ++ pre) = Some (Dir (create_perm env 511)))
    ∧ (∀ k, (∀ pre, pre `prefix_of` missing ++ [name] → pre ≠ [] → k ≠ base ++ pre) →
         fs' !! k = w_fs w !! k).
Proof.
  intros Hrc Hbase Hpb Hpm Hname Hne Hnone.
  set (fs1 := make_dirs env (w_fs w) base missing).
  set (rc := (base ++ missing) ++ [name]).
  assert (Hnone1 : nothing_along (w_fs w) base missing).
  { intros pre Hpre Hn. apply Hnone; [by apply prefix_app_r|done]. }
  assert (Hd1 : real_dir fs1 (base ++ missing)) by by apply make_dirs_real_dir.
  assert (Hpd : Forall plain_name (base ++ missing)) by by apply Forall_app.
  assert (Hrc1 : fs1 !! rc = None).
  { unfold fs1, rc. rewrite make_dirs_lookup_other.
    - rewrite <- app_assoc. apply Hnone; [done|by destruct missing].
    - intros pre Hpre Hn E. apply (created_key_length base missing pre) in E; [|done].
      rewrite !length_app in E. cbn in E. lia. }
  exists (<[rc := File (create_perm env 438)
                    (PATH_UPDATE_MARKER +:+ NL +:+ path_line target +:+ NL)]> fs1).
  split_and!.
  - unfold append_path_update. rewrite Hrc, path_parent_join.
    rewrite (bind_Ok _ _ _ _ _ (mkdir_parents_creates env w base missing
                                  Hbase Hpb Hpm Hnone1 Hne)).
    rewrite (bind_Ok _ _ _ _ _ (get_fs_eq _)). cbn [w_fs with_fs]. fold fs1.
    rewrite (path_exists_canonical _ _ _ Hd1 Hpd Hname). fold rc. rewrite Hrc1.
    rewrite (bind_Ok (ret false) _ _ _ false) by reflexivity.
    rewrite (append_text_canonical env (with_fs w fs1) _ name _ Hd1 Hpd Hname).
    cbn [w_fs with_fs]. fold rc. rewrite Hrc1. reflexivity.
  - by apply real_dir_insert_child.
  - unfold path_join. fold rc. by rewrite lookup_insert_eq.
  - intros pre Hpre Hn. rewrite lookup_insert_ne.
    + by apply make_dirs_lookup_new.
    + unfold rc. intros E.
      apply (created_key_length base missing pre) in E; [|done].
      rewrite !length_app in E. cbn in E. lia.
  - intros k Hk. rewrite lookup_insert_ne.
    + apply make_dirs_lookup_other. intros pre Hpre Hn. apply Hk; [by apply prefix_app_r|done].
    + unfold rc. rewrite <- app_assoc. intros E. symmetry in E. revert E.
      apply Hk; [done|by destruct missing].
Qed.

Lemma update_creates_missing_directories_witness :
  let env := example_env_shell (Some "/usr/bin/fish") in
  let w := World example_fs_paths [] [] in
  let target := detect_path_update_target env (w_fs w) ["opt"; "tools"] in
  let base := ["home"; "u"] in
  let missing := [".config"; "fish"]%string in
  let name := "config.fish"%string in
  ∃ fs',
    append_path_update env target w = (Ok tt, with_fs w fs')
    ∧ real_dir fs' (base ++ missing)
    ∧ fs' !! ((base ++ missing) // name)
      = Some (File (create_perm env 438)
                   (PATH_UPDATE_MARKER +:+ NL +:+ path_line target +:+ NL))
    ∧ (∀ pre, pre `prefix_of` missing → pre ≠ [] →
         fs' !! (base ++ pre) = Some (Dir (create_perm env 511)))
    ∧ (∀ k, (∀ pre, pre `prefix_of` missing ++ [name] → pre ≠ [] → k ≠ base ++ pre) →
         fs' !! k = w_fs w !! k).
Proof.
  intros env w target base missing name.
  apply (update_creates_missing_directories env w target base missing name).
  - vm_compute. reflexivity.
  - apply real_dirb_spec. vm_compute. reflexivity.
  - apply (Forall_plain_nameb id). vm_compute. reflexivity.
  - apply (Forall_plain_nameb id). vm_compute. reflexivity.
  - apply plain_nameb_spec. reflexivity.
  - discriminate.
  - intros pre Hpre Hne.
    assert (Hcases : pre ∈ [[".config"]; [".config"; "fish"];
                            [".config"; "fish"; "config.fish"]]%string).
    { destruct Hpre as [k Hk]. destruct pre as [|c1 [|c2 [|c3 [|c4 pre]]]];
        try done; cbn in Hk; injection Hk as ? ?; subst; set_solver. }
    repeat (apply elem_of_cons in Hcases as [->|Hcases]; [vm_compute; reflexivity|]).
    by apply elem_of_nil in Hcases.
Defined.



(* ===================================================================== *)
(** * Sources behind links, and the source directory as target *)
(* ===================================================================== *)

(** X27.  Sources behind links.  Let a source path lead, through whatever
    links, to a regular file at the canonical place [q] (once the old
    destination is out of the way).  Then its install into a canonical
    directory succeeds: in copy mode the destination is a regular file with
    the text of that file and its permission bits or-ed with [S_IXUSR]; in
    symlink mode it is a link to [q] itself, not to the source path as
    written.  No other entry is changed. *)
Theorem install_follows_source_links (env : environ) (d : path) (use_symlink : bool)
    (s q : path) (perm : Z) (data : string) (w : world) :
  real_dir (w_fs w) d → Forall plain_name d → plain_name (path_name s) →
  (∀ m, w_fs w !! destination_of d s ≠ Some (Dir m)) →
  stat (delete (destination_of d s) (w_fs w)) s = Found q (File perm data) →
  ∃ w',
    install_scripts_with_mode env [s] d use_symlink w = (Ok [destination_of d s], w')
    ∧ w_fs w' !! destination_of d s = Some (installed_node use_symlink q perm data)
    ∧ (∀ k, k ≠ destination_of d s → w_fs w' !! k = w_fs w !! k).
Proof.
  intros Hd Hpd Hname Hfree Hstat. unfold destination_of, path_join in *.
  set (kd := d ++ [path_name s]) in *. set (fs1 := delete kd (w_fs w)) in *.
  assert (Hres : resolve fs1 s = q).
  { unfold stat in Hstat.
    apply realpath_walk in Hstat as (Hres & _); [done|apply real_dir_nil|constructor]. }
  unfold install_scripts_with_mode. rewrite install_loop_cons.
  rewrite install_one_spec by done. unfold install_one_outcome. cbv zeta.
  fold kd fs1. rewrite Hres, Hstat.
  assert (Hstep : ∀ X Y : result path * world,
            match w_fs w !! kd with Some (Dir _) => X | _ => Y end = Y).
  { intros X Y. destruct (w_fs w !! kd) as [[| |]|] eqn:E; try done.
    by destruct (Hfree st_perm). }
  rewrite Hstep. unfold installed_node.
  destruct use_symlink; cbn [install_loop app]; unfold ret, path_join; fold kd;
    (eexists; split_and!; [reflexivity|cbn [w_fs with_fs]; by rewrite lookup_insert_eq|]);
    intros k Hk; cbn [w_fs with_fs]; unfold fs1;
    by rewrite lookup_insert_ne, lookup_delete_ne.
Qed.

Lemma install_follows_source_links_witness :
  let d := ["home"; "u"; "bin"] in
  let s := ["repo"; "bin"; "hello"] in
  let q := ["repo"; "src"; "hello.sh"] in
  let w := World example_fs_linked [] [] in
  ∃ w',
    install_scripts_with_mode example_env [s] d true w = (Ok [destination_of d s], w')
    ∧ w_fs w' !! destination_of d s = Some (installed_node true q 420 "#!/bin/sh")
    ∧ (∀ k, k ≠ destination_of d s → w_fs w' !! k = w_fs w !! k).
Proof.
  intros d s q w.
  apply (install_follows_source_links example_env d true s q 420 "#!/bin/sh" w).
  - apply real_dirb_spec. vm_compute. reflexivity.
  - apply (Forall_plain_nameb id). vm_compute. reflexivity.
  - apply plain_nameb_spec. reflexivity.
  - intros m. vm_compute. discriminate.
  - vm_compute. reflexivity.
Defined.


